(** * AiiDA: input validation, submission preparation, data export and CIF checksums

  A shallow embedding of
  - [aiida/calculations/plugins/arithmetic/add.py] (class [ArithmeticAddCalculation]),
  - [aiida/orm/data/__init__.py] (class [Data], method [export]),
  - [aiida/orm/data/cif.py] (class [CifData], the [md5] attribute),
  - the operation [configure] of section 4.1 of the specification, which
    [aiida/backends/tests/computer.py] tests,
  together with the properties that the specification states about them.

  Python dictionaries are finite maps ([gmap]) over string keys, Python
  exceptions are values of the type [Exception], and a method that mutates one
  of its arguments is a function in a state-and-exception monad whose state is
  the mutated object. *)

From Stdlib Require Import Ascii String DecimalString DecimalPos DecimalN DecimalNat.
From stdpp Require Import functions gmap strings list fin_maps sorting.

Open Scope string_scope.

(* ===================================================================== *)
(** * Python values, exceptions and the monad of effectful methods       *)
(* ===================================================================== *)

Module Py.

(** The Python objects that occur as attribute values, as values of input
    nodes and as arguments of [str.format]. A [float] is kept as a mantissa and
    a binary exponent. *)
#[warnings="-register-all"]
Inductive PyObj :=
| PyNone
| PyInt (z : Z)
| PyFloat (mantissa exponent : Z)
| PyStr (s : string)
| PyList (l : list PyObj)
| PyDict (d : gmap string PyObj).

(** The result of [template.format(args)]. The text that Python renders is
    not computed: a formatted text is kept as its template together with the
    arguments, in the order in which they are passed. *)
Record Formatted := Format { template : string; format_args : list PyObj }.

(** The exception classes raised by the embedded code, each with the argument
    it is raised with, and [InvalidParameterError] of the error taxonomy of the
    specification. *)
Inductive Exception :=
| KeyError (arg : string)
| IndexError
| AttributeError (name : string)
| ValueError (msg : Formatted)
| OSError (msg : Formatted)
| InputValidationError (msg : Formatted)
| ValidationError (msg : Formatted)
| InvalidParameterError (key : string).

Inductive Result (A : Type) :=
| Return (a : A)
| Raise (e : Exception).
Arguments Return {A} a.
Arguments Raise {A} e.

(** A method that mutates an object of type [S]: the final state is reported
    on both exits, since Python does not undo a mutation when an exception is
    raised. *)
Definition M (S A : Type) : Type := S → S * Result A.

Definition ret {S A} (a : A) : M S A := fun s => (s, Return a).

Definition raise {S A} (e : Exception) : M S A := fun s => (s, Raise e).

Definition bind {S A B} (m : M S A) (k : A → M S B) : M S B :=
  fun s =>
    match m s with
    | (s', Return a) => k a s'
    | (s', Raise e) => (s', Raise e)
    end.

(** [lift r] is a computation without effect on the state. *)
Definition lift {S A} (r : Result A) : M S A := fun s => (s, r).

(** [try: m except KeyError: handler]. Every other exception propagates. *)
Definition except_KeyError {S A} (m : M S A) (handler : M S A) : M S A :=
  fun s =>
    match m s with
    | (s', Raise (KeyError _)) => handler s'
    | r => r
    end.

(** [try: m except AttributeError: handler]. *)
Definition except_AttributeError {S A} (m : M S A) (handler : M S A) : M S A :=
  fun s =>
    match m s with
    | (s', Raise (AttributeError _)) => handler s'
    | r => r
    end.

(** [d.pop(key)] on the dictionary that is the state. *)
Definition pop {V} (key : string) : M (gmap string V) V :=
  fun d =>
    match d !! key with
    | Some v => (delete key d, Return v)
    | None => (d, Raise (KeyError key))
    end.

(** [d[key]] on a dictionary. *)
Definition getitem {V} (d : gmap string V) (key : string) : Result V :=
  match d !! key with
  | Some v => Return v
  | None => Raise (KeyError key)
  end.

(** [d.keys()]. *)
Definition keys {V} (d : gmap string V) : list string := (map_to_list d).*1.

(** The truth value of a dictionary: it is false exactly when it is empty. *)
Definition truthy {V} (d : gmap string V) : bool :=
  match map_to_list d with
  | [] => false
  | _ :: _ => true
  end.

End Py.

Import Py.

Declare Scope py_scope.
Delimit Scope py_scope with py.
Notation "'let*' x ':=' m 'in' k" := (bind m (fun x => k))
(at level 10, x name, m at level 100, k at level 200) : py_scope.
Open Scope py_scope.

(* ===================================================================== *)
(** * aiida/calculations/plugins/arithmetic/add.py                        *)
(* ===================================================================== *)

Module Add.

(** The node classes that may be declared as valid input types. *)
Inductive NodeClass :=
| Int
| Float
| Code
| OtherClass (name : string).

(** An input node, as far as the calculation looks at it: its class, its
    [uuid] and its [value]. *)
Record Node := { node_class : NodeClass; uuid : string; value : PyObj }.

(** ['valid_types'] of a use-method: a tuple of classes or a single class. *)
Inductive ValidTypes :=
| Tuple (classes : list NodeClass)
| Class (c : NodeClass).

(** One entry of [_use_methods]. *)
Record UseMethod := {
  valid_types : ValidTypes;
  additional_parameter : option string;
  linkname : string;
  docstring : string
}.

(** Modelled from the spec: the base class [CalcJobNode] and the node
    constructors are not among the sources. The base class gives the
    calculation its [uuid], its own [_use_methods] table (which declares the
    input [code]) and [get_linkname], the key remapping layer that sends a
    declared input key to the link name under which the validated input is
    returned; it is taken to be defined on every key that the calculation
    lists. [new_uuid c] is the identifier that a node of class [c] receives
    when it is constructed without arguments. *)
Record CalcJobNode := {
  calc_uuid : string;
  get_linkname : string → string;
  CalcJobNode_use_methods : gmap string UseMethod;
  new_uuid : NodeClass → string
}.

(** The attributes of an [ArithmeticAddCalculation] instance. *)
Record ArithmeticAddCalculation := {
  base : CalcJobNode;
  _PREFIX : string;
  _INPUT_FILE_NAME : string;
  _OUTPUT_FILE_NAME : string;
  _default_parser : string;
  _required_inputs : list string;
  _optional_inputs : list string;
  _DEFAULT_INPUT_FILE : string;
  _DEFAULT_OUTPUT_FILE : string
}.

(** [_init_internal_params]. *)
Definition _init_internal_params (b : CalcJobNode) : ArithmeticAddCalculation :=
  {| base := b;
     _PREFIX := "aiida";
     _INPUT_FILE_NAME := "aiida.in";
     _OUTPUT_FILE_NAME := "aiida.out";
     _default_parser := "arithmetic.add";
     _required_inputs := ["code"; "x"; "y"];
     _optional_inputs := [];
     _DEFAULT_INPUT_FILE := "aiida.in";
     _DEFAULT_OUTPUT_FILE := "aiida.out" |}.

(** [_use_methods]: the table of the base class, updated with the entries
    for [x] and [y]. *)
Definition _use_methods (self : ArithmeticAddCalculation) : gmap string UseMethod :=
  <["y" := {| valid_types := Tuple [Int; Float];
              additional_parameter := None;
              linkname := "y";
              docstring := "The right operand" |}]>
  (<["x" := {| valid_types := Tuple [Int; Float];
               additional_parameter := None;
               linkname := "x";
               docstring := "The left operand" |}]>
   (CalcJobNode_use_methods (base self))).

(** [_get_input_valid_types]. *)
Definition _get_input_valid_types (self : ArithmeticAddCalculation) (key : string)
  : Result ValidTypes :=
  match getitem (_use_methods self) key with
  | Return m => Return (valid_types m)
  | Raise e => Raise e
  end.

(** [_get_input_valid_type]: the first class of a tuple, or the class. *)
Definition _get_input_valid_type (self : ArithmeticAddCalculation) (key : string)
  : Result NodeClass :=
  match _get_input_valid_types self key with
  | Return (Tuple classes) =>
      match classes with
      | c :: _ => Return c
      | [] => Raise IndexError
      end
  | Return (Class c) => Return c
  | Raise e => Raise e
  end.

(** [BaseType.set_typevalue] with no value given stores [_type()], the zero
    of the Python type: [int()] for [Int] and [float()] for [Float]. The other
    classes are not base types and have no [value]. *)
Definition default_value (c : NodeClass) : PyObj :=
  match c with
  | Int => PyInt 0
  | Float => PyFloat 0 0
  | _ => PyNone
  end.

(** [valid_type_class()]: the node constructed without arguments. *)
Definition construct (self : ArithmeticAddCalculation) (c : NodeClass) : Node :=
  {| node_class := c; uuid := new_uuid (base self) c; value := default_value c |}.

(** The body of the first loop of [validate_input_nodes], over the rest
    [keys] of [_required_inputs], with the dictionary [input_nodes] built so
    far. *)
Fixpoint required_loop (self : ArithmeticAddCalculation) (keys : list string)
    (input_nodes : gmap string Node) : M (gmap string Node) (gmap string Node) :=
  match keys with
  | [] => ret input_nodes
  | input_key :: keys' =>
      let input_link := get_linkname (base self) input_key in
      let* input_node :=
        except_KeyError (pop input_key)
          (raise (InputValidationError
                    (Format "required input '{}' was not specified" [PyStr input_key]))) in
      required_loop self keys' (<[input_link := input_node]> input_nodes)
  end.

(** The body of the second loop, over the rest of [_optional_inputs]. *)
Fixpoint optional_loop (self : ArithmeticAddCalculation) (keys : list string)
    (input_nodes : gmap string Node) : M (gmap string Node) (gmap string Node) :=
  match keys with
  | [] => ret input_nodes
  | input_key :: keys' =>
      let input_link := get_linkname (base self) input_key in
      let* input_node :=
        except_KeyError (pop input_key)
          (let* valid_type_class := lift (_get_input_valid_type self input_key) in
           ret (construct self valid_type_class)) in
      optional_loop self keys' (<[input_link := input_node]> input_nodes)
  end.

(** [validate_input_nodes]. The state is the dictionary [input_nodes_raw]
    that the caller passes in. *)
Definition validate_input_nodes (self : ArithmeticAddCalculation)
  : M (gmap string Node) (gmap string Node) :=
  let* input_nodes := required_loop self (_required_inputs self) ∅ in
  let* input_nodes := optional_loop self (_optional_inputs self) input_nodes in
  fun input_nodes_raw =>
    if truthy input_nodes_raw
    then raise (InputValidationError
                  (Format "the following input nodes were not recognized: {}"
                          [PyList (PyStr <$> keys input_nodes_raw)])) input_nodes_raw
    else ret input_nodes input_nodes_raw.

(** [CodeInfo] and [CalcInfo], with the attributes that the calculation
    sets. A retrieval entry is the path of the file to fetch; a copy entry is
    a pair of a source and a destination path. *)
Record CodeInfo := {
  cmdline_params : list string;
  stdout_name : string;
  code_uuid : string
}.

Record CalcInfo := {
  calcinfo_uuid : string;
  codes_info : list CodeInfo;
  retrieve_list : list string;
  local_copy_list : list (string * string);
  remote_copy_list : list (string * string)
}.

(** [get_retrieve_list]: only the output file is retrieved. *)
Definition get_retrieve_list (self : ArithmeticAddCalculation) : list string :=
  [] ++ [_OUTPUT_FILE_NAME self].

(** [get_local_copy_list] and [get_remote_copy_list]. *)
Definition get_local_copy_list : list (string * string) := [].

Definition get_remote_copy_list : list (string * string) := [].

Definition newline : string := String "010"%char EmptyString.

(** [write_input_files]: the state is the temporary folder, a map from file
    names to contents; opening with mode ['w'] creates or replaces the file. *)
Definition write_input_files (self : ArithmeticAddCalculation) (input_x input_y : Node)
  : M (gmap string Formatted) unit :=
  fun tempfolder =>
    (<[_INPUT_FILE_NAME self :=
         Format ("{} {}" ++ newline) [value input_x; value input_y]]>
       tempfolder,
     Return tt).

(** The two mutable arguments of [_prepare_for_submission]. *)
Record PrepareArgs := { tempfolder : gmap string Formatted; inputdict : gmap string Node }.

Definition on_inputdict {A} (m : M (gmap string Node) A) : M PrepareArgs A :=
  fun args =>
    let (d, r) := m (inputdict args) in
    ({| tempfolder := tempfolder args; inputdict := d |}, r).

Definition on_tempfolder {A} (m : M (gmap string Formatted) A) : M PrepareArgs A :=
  fun args =>
    let (f, r) := m (tempfolder args) in
    ({| tempfolder := f; inputdict := inputdict args |}, r).

(** [_prepare_for_submission]. *)
Definition _prepare_for_submission (self : ArithmeticAddCalculation) : M PrepareArgs CalcInfo :=
  let* input_nodes := on_inputdict (validate_input_nodes self) in
  let* input_x := lift (getitem input_nodes (get_linkname (base self) "x")) in
  let* input_y := lift (getitem input_nodes (get_linkname (base self) "y")) in
  let* input_code := lift (getitem input_nodes (get_linkname (base self) "code")) in
  let* _ := on_tempfolder (write_input_files self input_x input_y) in
  let retrieve_list := get_retrieve_list self in
  let local_copy_list := get_local_copy_list in
  let remote_copy_list := get_remote_copy_list in
  let codeinfo :=
    {| cmdline_params := ["-in"; _INPUT_FILE_NAME self];
       stdout_name := _OUTPUT_FILE_NAME self;
       code_uuid := uuid input_code |} in
  let calcinfo :=
    {| calcinfo_uuid := calc_uuid (base self);
       codes_info := [codeinfo];
       retrieve_list := retrieve_list;
       local_copy_list := local_copy_list;
       remote_copy_list := remote_copy_list |} in
  ret calcinfo.

(** [_prepare_for_submission] calls the three list methods on [self], so a
    subclass that overrides one of them decides the list that is put into the
    plan. A subclass is kept as its three methods; the two copy lists are
    static methods. *)
Record Subclass := {
  sub_get_retrieve_list : ArithmeticAddCalculation → list string;
  sub_get_local_copy_list : list (string * string);
  sub_get_remote_copy_list : list (string * string)
}.

(** The class itself, which overrides nothing. *)
Definition own_methods : Subclass :=
  {| sub_get_retrieve_list := get_retrieve_list;
     sub_get_local_copy_list := get_local_copy_list;
     sub_get_remote_copy_list := get_remote_copy_list |}.

(** [_prepare_for_submission], inherited by the subclass [cls]. *)
Definition _prepare_for_submission_in (cls : Subclass) (self : ArithmeticAddCalculation)
  : M PrepareArgs CalcInfo :=
  let* input_nodes := on_inputdict (validate_input_nodes self) in
  let* input_x := lift (getitem input_nodes (get_linkname (base self) "x")) in
  let* input_y := lift (getitem input_nodes (get_linkname (base self) "y")) in
  let* input_code := lift (getitem input_nodes (get_linkname (base self) "code")) in
  let* _ := on_tempfolder (write_input_files self input_x input_y) in
  let retrieve_list := sub_get_retrieve_list cls self in
  let local_copy_list := sub_get_local_copy_list cls in
  let remote_copy_list := sub_get_remote_copy_list cls in
  let codeinfo :=
    {| cmdline_params := ["-in"; _INPUT_FILE_NAME self];
       stdout_name := _OUTPUT_FILE_NAME self;
       code_uuid := uuid input_code |} in
  let calcinfo :=
    {| calcinfo_uuid := calc_uuid (base self);
       codes_info := [codeinfo];
       retrieve_list := retrieve_list;
       local_copy_list := local_copy_list;
       remote_copy_list := remote_copy_list |} in
  ret calcinfo.

End Add.

(* ===================================================================== *)
(** * aiida/orm/data/__init__.py: [Data.export]                           *)
(* ===================================================================== *)

Module Data.

(** The contents of a file. *)
Abbreviation bytes := (list Byte.byte).

(** The file system, as far as [export] looks at it: the files that exist,
    by path, with their contents. *)
Abbreviation FileSystem := (gmap string bytes).

(** [os.path.exists]. *)
Definition exists_ (fs : FileSystem) (path : string) : bool :=
  match fs !! path with
  | Some _ => true
  | None => false
  end.

(** [io.open(path, 'wb')] followed by [write(content)]. *)
Definition write_file (path : string) (content : bytes) : M FileSystem unit :=
  fun fs => (<[path := content]> fs, Return tt).

Definition is_dot (c : ascii) : bool := Ascii.eqb c "."%char.

Definition is_sep (c : ascii) : bool := Ascii.eqb c "/"%char.

(** The characters of the last path component that are left to read. *)
Fixpoint component (rest : list ascii) : list ascii :=
  match rest with
  | [] => []
  | c :: rest' => if is_sep c then [] else c :: component rest'
  end.

(** [splitext_rev acc rest] reads a path backwards: [acc] holds the characters
    already read (in path order) and [rest] the characters before them, last
    first. At the last dot of the last component, the extension is that dot
    with [acc] if the component holds a character other than a dot before it. *)
Fixpoint splitext_rev (acc rest : list ascii) : list ascii :=
  match rest with
  | [] => []
  | c :: rest' =>
      if is_sep c then []
      else if is_dot c then
        if existsb (fun d => negb (is_dot d)) (component rest')
        then c :: acc
        else []
      else splitext_rev (c :: acc) rest'
  end.

(** [os.path.splitext(path)[1]] on a POSIX system. *)
Definition splitext_1 (path : string) : string :=
  string_of_list_ascii (splitext_rev [] (rev (list_ascii_of_string path))).

(** An export plugin [_prepare_<format>(main_file_name, **kwargs)]: it returns
    the content of the main file and a dictionary of additional files, or
    raises. A plugin of this type writes no file itself; [DataFs] has
    [export] with plugins that do. *)
Definition Exporter : Type :=
  string → gmap string PyObj → Result (bytes * gmap string bytes).

(** A [Data] object, as far as [export] looks at it: the name of its class,
    the class attribute [_custom_export_format_replacements], and its
    [_prepare_<format>] methods, by format. *)
Record Data := {
  class_name : string;
  _custom_export_format_replacements : gmap string string;
  _prepare_ : gmap string Exporter
}.

(** [_get_exporters]: a dictionary from the format names to the methods. *)
Definition _get_exporters (self : Data) : gmap string Exporter := _prepare_ self.

(** [_exportcontent]. *)
Definition _exportcontent (self : Data) (fileformat : string) (main_file_name : string)
    (kwargs : gmap string PyObj) : Result (bytes * gmap string bytes) :=
  let exporters := _get_exporters self in
  match exporters !! fileformat with
  | Some func => func main_file_name kwargs
  | None =>
      if (0 <? length (keys exporters))%nat
      then Raise (ValueError
                    (Format "The format {} is not implemented for {}. Currently implemented are: {}."
                            [PyStr fileformat; PyStr (class_name self);
                             PyStr (String.concat "," (keys exporters))]))
      else Raise (ValueError
                    (Format "The format {} is not implemented for {}. No formats are implemented yet."
                            [PyStr fileformat; PyStr (class_name self)]))
  end.

(** The file format that [export] uses: the one given, or the one found from
    the extension of the path. *)
Definition export_fileformat (self : Data) (path : string) (fileformat : option string)
    : Result string :=
  match fileformat with
  | Some fileformat => Return fileformat
  | None =>
      let extension := splitext_1 path in
      let extension :=
        if String.prefix "." extension
        then String.substring 1 (String.length extension - 1) extension
        else extension in
      if String.eqb extension ""
      then Raise (ValueError (Format "Cannot recognized the fileformat from the extension" []))
      else Return (default extension (_custom_export_format_replacements self !! extension))
  end.

(** [for fname in extra_files: if os.path.exists(fname): raise OSError(...)]. *)
Fixpoint check_extra_files (fnames : list string) : M FileSystem unit :=
  match fnames with
  | [] => ret tt
  | fname :: fnames' =>
      fun fs =>
        if exists_ fs fname
        then raise (OSError (Format "The file {} already exists, stopping." [PyStr fname])) fs
        else check_extra_files fnames' fs
  end.

(** [for additional_fname, additional_fcontent in extra_files.items(): ...]. *)
Fixpoint write_extra_files (items : list (string * bytes)) (retlist : list string)
    : M FileSystem (list string) :=
  match items with
  | [] => ret retlist
  | (additional_fname, additional_fcontent) :: items' =>
      let retlist := (retlist ++ [additional_fname])%list in
      let* _ := write_file additional_fname additional_fcontent in
      write_extra_files items' retlist
  end.

(** [export]. The state is the file system. *)
Definition export (self : Data) (path : string) (fileformat : option string)
    (overwrite : bool) (kwargs : gmap string PyObj) : M FileSystem (list string) :=
  if String.eqb path "" then raise (ValueError (Format "Path not recognized" []))
  else
    fun fs =>
      if exists_ fs path && negb overwrite
      then raise (OSError (Format "A file was already found at {}" [PyStr path])) fs
      else
        (let* fileformat := lift (export_fileformat self path fileformat) in
         let retlist := [] in
         let* content := lift (_exportcontent self fileformat path kwargs) in
         let filetext := content.1 in
         let extra_files := content.2 in
         let* _ :=
           if negb overwrite
           then
             let* _ := check_extra_files (keys extra_files) in
             fun fs =>
               if exists_ fs path
               then raise (OSError (Format "The file {} already exists, stopping."
                                           [PyStr path])) fs
               else ret tt fs
           else ret tt in
         let* retlist := write_extra_files (map_to_list extra_files) retlist in
         let retlist := (retlist ++ [path])%list in
         let* _ := write_file path filetext in
         ret retlist) fs.

End Data.

(* ===================================================================== *)
(** * aiida/orm/data/cif.py: the [md5] attribute of [CifData]             *)
(* ===================================================================== *)

Module Cif.
Import Data.

(** A [CifData] node, as far as the methods below look at it: its attributes,
    whether it is stored, the content of the file at [get_file_abs_path()]
    ([None] when the node has no file), and the two caches [_values] and
    [_ase]. *)
Record CifData := {
  attributes : gmap string PyObj;
  is_stored : bool;
  file : option bytes;
  _values : option PyObj;
  _ase : option PyObj
}.

(** Modelled from the spec: the class [Node] is not among the sources (the
    spec leaves the provenance store to a collaborator). [get_attr] reads the
    attribute mapping of the node and raises [AttributeError] for a missing
    key when no default is given; [_set_attr] writes into the mapping. *)
Definition get_attr (key : string) : M CifData PyObj :=
  fun self =>
    match attributes self !! key with
    | Some v => (self, Return v)
    | None => (self, Raise (AttributeError key))
    end.

Definition get_attr_default (key : string) (otherwise : PyObj) : M CifData PyObj :=
  fun self => (self, Return (default otherwise (attributes self !! key))).

Definition _set_attr (key : string) (v : PyObj) : M CifData unit :=
  fun self =>
    ({| attributes := <[key := v]> (attributes self);
        is_stored := is_stored self;
        file := file self;
        _values := _values self;
        _ase := _ase self |},
     Return tt).

(** [Data._source_attributes]. *)
Definition _source_attributes : list string :=
  ["db_name"; "db_uri"; "uri"; "id"; "version"; "extras"; "source_md5"; "description";
   "license"].

(** The property [Data.source]. *)
Definition source : M CifData PyObj := get_attr_default "source" PyNone.

(** The setter of [Data.source]. *)
Definition set_source (source : PyObj) : M CifData unit :=
  match source with
  | PyDict d =>
      let unknown_attrs :=
        List.filter (fun k => negb (bool_decide (k ∈ _source_attributes))) (keys d) in
      match unknown_attrs with
      | [] => _set_attr "source" source
      | _ :: _ =>
          raise (KeyError ("Unknown source parameters: " ++ String.concat ", " unknown_attrs))
      end
  | _ => raise (ValueError (Format "Source must be supplied as a dictionary" []))
  end.

(** [isinstance(source, dict) and source.get('source_md5', None) is not None
    and source['source_md5'] != md5sum]. *)
Definition source_md5_disagrees (source : PyObj) (md5sum : string) : bool :=
  match source with
  | PyDict d =>
      match d !! "source_md5" with
      | None | Some PyNone => false
      | Some (PyStr s) => negb (String.eqb s md5sum)
      | Some _ => true
      end
  | _ => false
  end.

(** [attr_md5 != md5], where [md5] is a string. *)
Definition differs (attr_md5 : PyObj) (md5 : string) : bool :=
  match attr_md5 with
  | PyStr s => negb (String.eqb s md5)
  | _ => true
  end.

(** [self._values = None; self._ase = None]. *)
Definition reset_caches : M CifData unit :=
  fun self =>
    ({| attributes := attributes self;
        is_stored := is_stored self;
        file := file self;
        _values := None;
        _ase := None |},
     Return tt).

Section Methods.

(** [aiida.common.utils.md5_file], applied to the content of a file; the
    methods of the parent class [SinglefileData], called through [super()];
    and [Node.store]. They are not among the sources and are parameters of
    what follows. *)
Variable md5_file : bytes → string.
Variable SinglefileData_set_file : string → M CifData unit.
Variable SinglefileData_validate : CifData → Result unit.
Variable Node_store : M CifData unit.

(** [generate_md5]. *)
Definition generate_md5 : M CifData string :=
  fun self =>
    match file self with
    | None => raise (ValidationError (Format "No valid CIF was passed!" [])) self
    | Some content => ret (md5_file content) self
    end.

(** [store]. *)
Definition store : M CifData unit :=
  let* _ :=
    fun self =>
      if negb (is_stored self)
      then (let* md5 := generate_md5 in _set_attr "md5" (PyStr md5)) self
      else ret tt self in
  Node_store.

(** [set_file]. *)
Definition set_file (filename : string) : M CifData unit :=
  let* _ := SinglefileData_set_file filename in
  let* md5sum := generate_md5 in
  let* src := source in
  let* _ := if source_md5_disagrees src md5sum then set_source (PyDict ∅) else ret tt in
  let* _ := _set_attr "md5" (PyStr md5sum) in
  let* _ := reset_caches in
  let* _ := _set_attr "formulae" PyNone in
  _set_attr "spacegroup_numbers" PyNone.

(** [_validate]. *)
Definition _validate : M CifData unit :=
  let* _ := fun self => (self, SinglefileData_validate self) in
  let* attr_md5 :=
    except_AttributeError (get_attr "md5")
      (raise (ValidationError (Format "attribute 'md5' not set." []))) in
  let* md5 := generate_md5 in
  if differs attr_md5 md5
  then raise (ValidationError
                (Format "Attribute 'md5' says '{}' but '{}' was parsed instead."
                        [attr_md5; PyStr md5]))
  else ret tt.

End Methods.

End Cif.

(* ===================================================================== *)
(** * Configuring an execution target (specification, section 4.1)        *)
(* ===================================================================== *)

Module Computer.

(** An execution target, with the attributes that the specification lists. *)
Record ExecutionTarget := {
  identifier : string;
  hostname : string;
  workdir : string;
  transport_kind : string;
  scheduler_kind : string;
  enabled : bool
}.

(** The accepted-parameter schema of a transport kind: the accepted keys, each
    with the test that a value for it is well formed. *)
Abbreviation Schema := (gmap string (string → bool)).

(** The stored access credentials, one per pair of a user and a target. *)
Abbreviation Credentials := (gmap (string * string) (gmap string string)).

(** A parameter is refused when its key is not in the schema or its value is
    malformed. *)
Definition refused (schema : Schema) (param : string * string) : bool :=
  match schema !! param.1 with
  | Some well_formed => negb (well_formed param.2)
  | None => true
  end.

(** Modelled from the spec: the method [Computer.configure] is not among the
    sources, which hold only its tests. [configure(target, user,
    credential_params)] validates the keys and values of [credential_params]
    against the schema declared by the transport kind of the target, fails with
    [InvalidParameterError] naming the offending key if an unrecognized or
    malformed parameter is supplied, and otherwise persists one access
    credential for the pair of the user and the target. [schema_of] is the
    schema that the credential-schema collaborator supplies per transport
    kind. *)
Definition configure (schema_of : string → Schema) (target : ExecutionTarget) (user : string)
    (credential_params : gmap string string) : M Credentials unit :=
  fun credentials =>
    match List.find (refused (schema_of (transport_kind target)))
                    (map_to_list credential_params) with
    | Some (key, _) => (credentials, Raise (InvalidParameterError key))
    | None => (<[(user, identifier target) := credential_params]> credentials, Return tt)
    end.

(** Modelled from the spec: [is_configured(target, user)] is a pure query. *)
Definition is_configured (target : ExecutionTarget) (user : string)
    (credentials : Credentials) : bool :=
  match credentials !! (user, identifier target) with
  | Some _ => true
  | None => false
  end.

End Computer.

(* ===================================================================== *)
(** * aiida/orm/data/__init__.py: [Data.importstring] and [Data.importfile] *)
(* ===================================================================== *)

Module DataImport.
Import Data.

(** An import plugin [_parse_<format>(inputstring, **kwargs)]: it changes the
    object, whose state has the type [S], or raises. *)
Definition Importer (S : Type) : Type := string → gmap string PyObj → M S unit.

(** A [Data] object, as far as the import methods look at it: the name of its
    class and its [_parse_<format>] methods, by format. *)
Record Importing (S : Type) := {
  importing_class_name : string;
  _parse_ : gmap string (Importer S)
}.
Arguments importing_class_name {S} _.
Arguments _parse_ {S} _.

(** [_get_importers]. *)
Definition _get_importers {S} (self : Importing S) : gmap string (Importer S) :=
  _parse_ self.

(** [importstring]. *)
Definition importstring {S} (self : Importing S) (inputstring fileformat : string)
    (kwargs : gmap string PyObj) : M S unit :=
  let importers := _get_importers self in
  match importers !! fileformat with
  | Some func => let* _ := func inputstring kwargs in ret tt
  | None =>
      if (0 <? length (keys importers))%nat
      then raise (ValueError
                    (Format "The format {} is not implemented for {}. Currently implemented are: {}."
                            [PyStr fileformat; PyStr (importing_class_name self);
                             PyStr (String.concat "," (keys importers))]))
      else raise (ValueError
                    (Format "The format {} is not implemented for {}. No formats are implemented yet."
                            [PyStr fileformat; PyStr (importing_class_name self)]))
  end.

(** [last_field_rev acc rest] reads a name backwards up to its last dot:
    [acc] holds the characters already read and [rest] the characters before
    them, last first. *)
Fixpoint last_field_rev (acc rest : list ascii) : list ascii :=
  match rest with
  | [] => acc
  | c :: rest' => if is_dot c then acc else last_field_rev (c :: acc) rest'
  end.

(** [fname.split('.')[-1]]. *)
Definition split_dot_last (fname : string) : string :=
  string_of_list_ascii (last_field_rev [] (rev (list_ascii_of_string fname))).

(** [importfile]. [open_read fname] stands for
    [io.open(fname, 'r', encoding='utf8').read()]: the text of the file, or the
    error of opening or decoding it. *)
Definition importfile {S} (open_read : string → Result string) (self : Importing S)
    (fname : string) (fileformat : option string) : M S unit :=
  let fileformat :=
    match fileformat with
    | None => split_dot_last fname
    | Some fileformat => fileformat
    end in
  let* text := lift (open_read fname) in
  importstring self text fileformat ∅.

End DataImport.

(* ===================================================================== *)
(** * aiida/orm/data/cif.py: reading the parsed values and the formulae    *)
(* ===================================================================== *)

Module CifValues.

(** The value of a tag in a datablock: a string, or the list of strings of a
    looped tag. *)
Inductive CifValue :=
| Scalar (s : string)
| Column (l : list string).

(** A datablock, by tag, and the parsed [values] of a file, by the name of
    the datablock, both read as Python dictionaries. *)
Abbreviation Block := (gmap string CifValue).
Abbreviation Values := (gmap string Block).

(** [for value in v]: the entries of a list, or the characters of a string. *)
Definition iterate (v : CifValue) : list string :=
  match v with
  | Scalar s => (fun c => String c EmptyString) <$> list_ascii_of_string s
  | Column l => l
  end.

(** The inner loop of [has_attached_hydrogens], over the values of the tag. *)
Fixpoint attached_among (vals : list string) : bool :=
  match vals with
  | [] => false
  | val :: vals' =>
      if negb (String.eqb val ".") && negb (String.eqb val "?") && negb (String.eqb val "0")
      then true
      else attached_among vals'
  end.

(** The outer loop of [has_attached_hydrogens], over the datablocks. *)
Fixpoint attached_in_blocks (datablocks : list (string * Block)) : bool :=
  match datablocks with
  | [] => false
  | datablock :: datablocks' =>
      match datablock.2 !! "_atom_site_attached_hydrogens" with
      | Some v => if attached_among (iterate v) then true else attached_in_blocks datablocks'
      | None => attached_in_blocks datablocks'
      end
  end.

(** [has_attached_hydrogens]. *)
Definition has_attached_hydrogens (values : Values) : bool :=
  attached_in_blocks (map_to_list values).

(** The coordinates that [has_atomic_sites] collects from one datablock. *)
Definition fract_coordinates (block : Block) : list string :=
  mjoin ((fun tag => match block !! tag with
                     | Some v => iterate v
                     | None => []
                     end)
         <$> ["_atom_site_fract_x"; "_atom_site_fract_y"; "_atom_site_fract_z"]).

(** [has_atomic_sites]. *)
Definition has_atomic_sites (values : Values) : bool :=
  let coords := mjoin ((fun datablock : string * Block => fract_coordinates datablock.2)
                       <$> map_to_list values) in
  negb (forallb (fun coord => String.eqb coord "?") coords).

(** ** [parse_formula] *)

(** The classes [\s] and [\d] of regular expressions, as they match in a
    byte string. In a text string of Python 3 [\s] also matches the
    characters 28 to 31, 133 and 160 and further characters beyond 255. *)
Definition is_space (c : ascii) : bool :=
  match nat_of_ascii c with
  | 9 | 10 | 11 | 12 | 13 | 32 => true
  | _ => false
  end.

Definition is_digit (c : ascii) : bool :=
  (48 <=? nat_of_ascii c)%nat && (nat_of_ascii c <=? 57)%nat.

(** [re.split(r'\s+', formula)]: [field] holds the characters of the current
    field, last first, and [in_spaces] tells whether the character before was
    a space. *)
Fixpoint re_split_spaces (field : list ascii) (in_spaces : bool) (s : list ascii)
    : list string :=
  match s with
  | [] => [string_of_list_ascii (rev field)]
  | c :: s' =>
      if is_space c
      then if in_spaces
           then re_split_spaces field true s'
           else string_of_list_ascii (rev field) :: re_split_spaces [] true s'
      else re_split_spaces (c :: field) false s'
  end.

Fixpoint take_while {A} (f : A → bool) (l : list A) : list A :=
  match l with
  | [] => []
  | a :: l' => if f a then a :: take_while f l' else []
  end.

Fixpoint drop_while {A} (f : A → bool) (l : list A) : list A :=
  match l with
  | [] => []
  | a :: l' => if f a then drop_while f l' else l
  end.

(** [re.match(r'(\D+)([\.\d]+)?', part)]: the two groups, or [None] when
    the part does not begin with a character that is not a digit. *)
Definition re_match_specie_quantity (part : string) : option (string * option string) :=
  let chars := list_ascii_of_string part in
  let specie := take_while (fun c => negb (is_digit c)) chars in
  let quantity :=
    take_while (fun c => Data.is_dot c || is_digit c)
               (drop_while (fun c => negb (is_digit c)) chars) in
  match specie with
  | [] => None
  | _ :: _ =>
      Some (string_of_list_ascii specie,
            match quantity with
            | [] => None
            | _ :: _ => Some (string_of_list_ascii quantity)
            end)
  end.

(** A quantity: an [int], or the [float] that a literal denotes. *)
Inductive Quantity :=
| QInt (n : N)
| QFloat (literal : string).

(** [int(quantity)] for a string of digits. *)
Definition int_of_digits (quantity : string) : N :=
  match DecimalString.NilEmpty.uint_of_string quantity with
  | Some d => N.of_uint d
  | None => 0%N
  end.

(** The quantity of one part: [1] without a second group, [int(quantity)] for
    digits alone, and otherwise [float(quantity)], which raises [ValueError]
    unless the digits hold a single dot. *)
Definition to_quantity (quantity : option string) : Result Quantity :=
  match quantity with
  | None => Return (QInt 1)
  | Some quantity =>
      let chars := list_ascii_of_string quantity in
      if forallb is_digit chars
      then Return (QInt (int_of_digits quantity))
      else if (length (List.filter Data.is_dot chars) <=? 1)%nat
           then Return (QFloat quantity)
           else Raise (ValueError (Format "could not convert string to float: {}"
                                          [PyStr quantity]))
  end.

(** The loop of [parse_formula] over the parts. *)
Fixpoint parse_parts (parts : list string) (contents : gmap string Quantity)
    : Result (gmap string Quantity) :=
  match parts with
  | [] => Return contents
  | part :: parts' =>
      match re_match_specie_quantity part with
      | None => parse_parts parts' contents
      | Some (specie, quantity) =>
          match to_quantity quantity with
          | Return quantity => parse_parts parts' (<[specie := quantity]> contents)
          | Raise e => Raise e
          end
      end
  end.

(** [parse_formula]. *)
Definition parse_formula (formula : string) : Result (gmap string Quantity) :=
  parse_parts (re_split_spaces [] false (list_ascii_of_string formula)) ∅.

(** The loop of [has_unknown_species] over the formulae that [get_formulae]
    returns, each a string or [None]; [known_species] are the symbols of
    [aiida.common.constants.elements]. *)
Fixpoint has_unknown_species (known_species : list string) (formulae : list (option string))
    : Result (option bool) :=
  match formulae with
  | [] => Return (Some false)
  | None :: _ => Return None
  | Some formula :: formulae' =>
      match parse_formula formula with
      | Raise e => Raise e
      | Return contents =>
          if existsb (fun specie => negb (bool_decide (specie ∈ known_species)))
                     (keys contents)
          then Return (Some true)
          else has_unknown_species known_species formulae'
      end
  end.

End CifValues.

(* ===================================================================== *)
(** * aiida/orm/data/__init__.py: [Data.get_export_formats]               *)
(* ===================================================================== *)

Module DataFormats.

Definition exporter_prefix : string := "_prepare_".

(** [i.startswith(exporter_prefix)]. *)
Definition startswith (i : string) : bool := String.prefix exporter_prefix i.

(** The slice [i[len(exporter_prefix):]]. *)
Definition after_prefix (i : string) : string :=
  String.substring (String.length exporter_prefix)
    (String.length i - String.length exporter_prefix) i.

(** The order of [sorted] on strings: they are compared character by
    character. *)
Definition str_le (a b : string) : Prop := String.leb a b = true.

#[global] Instance str_le_dec : RelDecision str_le :=
  fun a b => decide (String.leb a b = true).

Definition sorted : list string → list string := merge_sort str_le.

(** [get_export_formats], from the names that [dir(cls)] lists. *)
Definition get_export_formats (method_names : list string) : list string :=
  let valid_format_names :=
    after_prefix <$> List.filter startswith method_names in
  sorted valid_format_names.

End DataFormats.

(* ===================================================================== *)
(** * aiida/orm/data/cif.py: [pycifrw_from_cif]                           *)
(* ===================================================================== *)

Module CifWriter.
Import Py CifValues DataFormats.

(** PyCifRW is an external package: a [CifBlock] is kept as the calls that are
    made on it, the oldest first, and the [CifFile] as the mapping from the
    names to the blocks that are assigned to it. *)
Inductive Call :=
| AddItem (tag : string) (value : CifValue)
| CreateLoop (datanames : list string).

Abbreviation CifBlock := (list Call).
Abbreviation CifFile := (gmap string CifBlock).

(** The [loops] argument: the tags of each loop, by the name of the loop, in
    the order in which the dictionary is iterated. *)
Abbreviation Loops := (list (string * list string)).

(** The variables that the loop over the tags of one CIF loop updates. *)
Record Locals := {
  row_size : option nat;
  tags_seen : list string;
  tags_in_loops : list string;
  datablock : CifBlock
}.

(** [tag_values], after a value that is no list has been wrapped in one. *)
Definition as_list (v : CifValue) : list string :=
  match v with
  | Column l => l
  | Scalar s => [s]
  end.

(** [for tag in loops[loopname]], on the dictionary [values] as state. *)
Fixpoint for_tag (tags : list string) (loc : Locals) : M Block Locals :=
  match tags with
  | [] => ret loc
  | tag :: tags' =>
      fun values =>
        match values !! tag with
        | None => for_tag tags' loc values
        | Some v =>
            let values := delete tag values in
            let tag_values := as_list v in
            let checked :=
              match row_size loc with
              | None => Return (length tag_values)
              | Some n =>
                  if negb (n =? length tag_values)%nat
                  then Raise (ValueError (Format
                         "Number of values for tag '{}' is different from the others in the same loop"
                         [PyStr tag]))
                  else Return n
              end in
            match checked with
            | Raise e => (values, Raise e)
            | Return n =>
                if (n =? 0)%nat
                then for_tag tags' {| row_size := Some n;
                                      tags_seen := tags_seen loc;
                                      tags_in_loops := tags_in_loops loc;
                                      datablock := datablock loc |} values
                else for_tag tags' {| row_size := Some n;
                                      tags_seen := tags_seen loc ++ [tag];
                                      tags_in_loops := tags_in_loops loc ++ [tag];
                                      datablock := datablock loc ++ [AddItem tag (Column tag_values)] |}
                       values
            end
        end
  end.

(** [for loopname in loops.keys()], from the tags [in_loops] and the calls
    [block] of the loops before. *)
Fixpoint for_loopname (loops : Loops) (in_loops : list string) (block : CifBlock)
  : M Block (list string * CifBlock) :=
  match loops with
  | [] => ret (in_loops, block)
  | (loopname, tags) :: loops' =>
      let* loc := for_tag tags {| row_size := None; tags_seen := [];
                                  tags_in_loops := in_loops; datablock := block |} in
      let block :=
        match row_size loc with
        | Some (S _) => (datablock loc ++ [CreateLoop (tags_seen loc)])%list
        | _ => datablock loc
        end in
      for_loopname loops' (tags_in_loops loc) block
  end.

(** [for tag in sorted(values.keys())], over the tags that are left. *)
Fixpoint for_sorted_tag (loops : Loops) (values : Block) (tags_in_loops : list string)
    (tags : list string) (datablock : CifBlock) : Result CifBlock :=
  match tags with
  | [] => Return datablock
  | tag :: tags' =>
      if bool_decide (tag ∈ tags_in_loops)
      then for_sorted_tag loops values tags_in_loops tags' datablock
      else
        match getitem values tag with
        | Raise e => Raise e
        | Return v =>
            let datablock := (datablock ++ [AddItem tag v])%list in
            let datablock :=
              match v with
              | Column _ =>
                  if bool_decide (tag ∉ loops.*1)
                  then (datablock ++ [CreateLoop [tag]])%list
                  else datablock
              | Scalar _ => datablock
              end in
            for_sorted_tag loops values tags_in_loops tags' datablock
        end
  end.

(** The body of the loop over the datablocks, after the block has been named. *)
Definition fill_datablock (loops : Loops) : M Block CifBlock :=
  let* looped := for_loopname loops [] [] in
  fun values =>
    (values, for_sorted_tag loops values looped.1 (sorted (keys values)) looped.2).

(** [str(i)]. *)
Definition str (i : nat) : string := NilEmpty.string_of_uint (Nat.to_uint i).

(** The truth value of [names], which is [None] or a list. *)
Definition names_given (names : option (list string)) : bool :=
  match names with
  | Some (_ :: _) => true
  | _ => false
  end.

(** The name of the [i]-th datablock. *)
Definition block_name (names : option (list string)) (i : nat) : Result string :=
  if names_given names
  then match default [] names !! i with
       | Some name => Return name
       | None => Raise IndexError
       end
  else Return (str i).

(** Python passes the dictionaries by reference, and [values.pop] changes
    the dictionary of the caller: the store holds the dictionary at every
    address, [datablocks] is a list of addresses, and the same address may
    occur in it more than once. *)
Abbreviation Store := (nat → Block).

(** [for i, values in enumerate(datablocks)], from index [i] on. The new
    block is assigned to the file under its name, as in a Python mapping,
    before it is filled; the file holds a reference to it and so has the
    filled block in the end. *)
Fixpoint for_datablock (loops : Loops) (names : option (list string)) (i : nat)
    (datablocks : list nat) (cif : CifFile) : M Store CifFile :=
  match datablocks with
  | [] => ret cif
  | values :: rest =>
      fun store =>
        match block_name names i with
        | Raise e => (store, Raise e)
        | Return name =>
            match fill_datablock loops (store values) with
            | (values', Raise e) => (<[values := values']> store, Raise e)
            | (values', Return block) =>
                for_datablock loops names (S i) rest (<[name := block]> cif)
                  (<[values := values']> store)
            end
        end
  end.

(** Whether [import CifFile] succeeds, and [str(exc)] when it does not. *)
Inductive Import :=
| Imported
| NotImported (exc : string).

(** What a call of [pycifrw_from_cif] ends with: the [ImportError] that it
    raises itself when PyCifRW cannot be imported, or what the rest of the
    body returns or raises. *)
Inductive Outcome :=
| ImportError (msg : string)
| Ran (r : Result CifFile).

(** [pycifrw_from_cif], on the store of the dictionaries as state. The choice
    of the grammar, which has no effect on the calls that follow, is left
    out. *)
Definition pycifrw_from_cif (CifFile_import : Import) (loops : option Loops)
    (names : option (list string)) (datablocks : list nat) (store : Store)
  : Store * Outcome :=
  match CifFile_import with
  | NotImported exc =>
      (store, ImportError (exc +:+ ". You need to install the PyCifRW package."))
  | Imported =>
      let loops := default [] loops in
      if names_given names && (length (default [] names) <? length datablocks)%nat
      then (store,
            Ran (Raise (ValueError (Format
              "Not enough names supplied for datablocks: {} (names) < {} (datablocks)"
              [PyInt (Z.of_nat (length (default [] names)));
               PyInt (Z.of_nat (length datablocks))]))))
      else let (store', r) := for_datablock loops names 0 datablocks ∅ store in
           (store', Ran r)
  end.

End CifWriter.

(* ===================================================================== *)
(** * aiida/orm/data/cif.py: [cif_from_ase]                               *)
(* ===================================================================== *)

Module CifFromAse.
Import Py CifValues CifWriter.

(** numpy and the floating-point numbers of Python are outside the
    embedding: the operations that [cif_from_ase] applies to them are
    kept uninterpreted. *)
Record Numpy := {
  Float : Type;
  Vec : Type;
  norm : Vec → Float;
  dot : Vec → Vec → Float;
  arccos : Float → Float;
  mul : Float → Float → Float;
  div : Float → Float → Float;
  pi : Float;
  float_180 : Float;
  str_float : Float → string
}.

(** An ASE structure, as far as [cif_from_ase] reads it: the three vectors of
    the cell, [pbc.all()], the rows of [get_scaled_positions()], and the
    symbols of the atoms in the order of the iteration. *)
Record Atoms (np : Numpy) := {
  cell : Vec np * Vec np * Vec np;
  pbc_all : bool;
  get_scaled_positions : list (Float np * Float np * Float np);
  symbols : list string
}.
Arguments cell {np} _.
Arguments pbc_all {np} _.
Arguments get_scaled_positions {np} _.
Arguments symbols {np} _.

(** The argument [ase]: one structure, or a list or a tuple of them. *)
Inductive Images (np : Numpy) :=
| One (atoms : Atoms np)
| Many (images : list (Atoms np)).
Arguments One {np} _.
Arguments Many {np} _.

(** The loops that [set_ase] passes to [pycifrw_from_cif]. *)
Definition ase_loops : Loops :=
  [("_atom_site",
    ["_atom_site_label";
     "_atom_site_occupancy";
     "_atom_site_fract_x";
     "_atom_site_fract_y";
     "_atom_site_fract_z";
     "_atom_site_adp_type";
     "_atom_site_thermal_displace_type";
     "_atom_site_B_iso_or_equiv";
     "_atom_site_U_iso_or_equiv";
     "_atom_site_B_equiv_geom_mean";
     "_atom_site_U_equiv_geom_mean";
     "_atom_site_type_symbol"])].

(** [datablock[tag].append(x)], where [datablock[tag]] is a list: every tag
    that is appended to has been set to a list before. *)
Definition append (tag x : string) (datablock : Block) : Block :=
  alter (fun v => match v with
                  | Column l => Column (l ++ [x])
                  | Scalar s => Scalar s
                  end) tag datablock.

(** [for i, atom in enumerate(atoms)], from index [i] on. *)
Fixpoint for_atom {np} (full_occupancies add_fake_biso : bool)
    (scaled : list (Float np * Float np * Float np)) (i : nat) (atoms : list string)
    (no : gmap string nat) (datablock : Block) : Result Block :=
  match atoms with
  | [] => Return datablock
  | symbol :: atoms' =>
      let count := match no !! symbol with
                   | Some n => n + 1
                   | None => 1
                   end in
      let no := <[symbol := count]> no in
      let datablock := append "_atom_site_label" (symbol +:+ str count) datablock in
      match scaled !! i with
      | None => Raise IndexError
      | Some (x, y, z) =>
          let datablock := append "_atom_site_fract_x" (str_float np x) datablock in
          let datablock := append "_atom_site_fract_y" (str_float np y) datablock in
          let datablock := append "_atom_site_fract_z" (str_float np z) datablock in
          let datablock := append "_atom_site_type_symbol" symbol datablock in
          let datablock :=
            if full_occupancies
            then append "_atom_site_occupancy" "1.0" datablock
            else datablock in
          let datablock :=
            if add_fake_biso
            then append "_atom_site_B_iso_or_equiv" "1.0"
                   (append "_atom_site_thermal_displace_type" "Biso" datablock)
            else datablock in
          for_atom full_occupancies add_fake_biso scaled (S i) atoms' no datablock
      end
  end.

(** The datablock before the loop over the atoms. *)
Definition new_datablock {np} (full_occupancies add_fake_biso : bool) (atoms : Atoms np)
  : Block :=
  let datablock : Block := ∅ in
  let '(cell0, cell1, cell2) := cell atoms in
  let a := norm np cell0 in
  let b := norm np cell1 in
  let c := norm np cell2 in
  let alpha :=
    div np (mul np (arccos np (div np (dot np cell1 cell2) (mul np b c))) (float_180 np))
      (pi np) in
  let beta :=
    div np (mul np (arccos np (div np (dot np cell0 cell2) (mul np a c))) (float_180 np))
      (pi np) in
  let gamma :=
    div np (mul np (arccos np (div np (dot np cell0 cell1) (mul np a b))) (float_180 np))
      (pi np) in
  let datablock := <["_cell_length_a" := Scalar (str_float np a)]> datablock in
  let datablock := <["_cell_length_b" := Scalar (str_float np b)]> datablock in
  let datablock := <["_cell_length_c" := Scalar (str_float np c)]> datablock in
  let datablock := <["_cell_angle_alpha" := Scalar (str_float np alpha)]> datablock in
  let datablock := <["_cell_angle_beta" := Scalar (str_float np beta)]> datablock in
  let datablock := <["_cell_angle_gamma" := Scalar (str_float np gamma)]> datablock in
  let datablock :=
    if pbc_all atoms
    then <["_symmetry_equiv_pos_as_xyz" := Column ["x, y, z"]]>
           (<["_symmetry_int_tables_number" := Scalar (str 1)]>
              (<["_symmetry_space_group_name_H-M" := Scalar "P 1"]> datablock))
    else datablock in
  let datablock := <["_atom_site_label" := Column []]> datablock in
  let datablock := <["_atom_site_fract_x" := Column []]> datablock in
  let datablock := <["_atom_site_fract_y" := Column []]> datablock in
  let datablock := <["_atom_site_fract_z" := Column []]> datablock in
  let datablock := <["_atom_site_type_symbol" := Column []]> datablock in
  let datablock :=
    if full_occupancies
    then <["_atom_site_occupancy" := Column []]> datablock
    else datablock in
  if add_fake_biso
  then <["_atom_site_B_iso_or_equiv" := Column []]>
         (<["_atom_site_thermal_displace_type" := Column []]> datablock)
  else datablock.

(** [for _, atoms in enumerate(ase)]. *)
Fixpoint for_atoms {np} (full_occupancies add_fake_biso : bool) (ase : list (Atoms np))
  : Result (list Block) :=
  match ase with
  | [] => Return []
  | atoms :: ase' =>
      match for_atom full_occupancies add_fake_biso (get_scaled_positions atoms) 0
              (symbols atoms) ∅ (new_datablock full_occupancies add_fake_biso atoms) with
      | Raise e => Raise e
      | Return datablock =>
          match for_atoms full_occupancies add_fake_biso ase' with
          | Raise e => Raise e
          | Return datablocks => Return (datablock :: datablocks)
          end
      end
  end.

(** [ase], after a structure that is no list has been wrapped in one. *)
Definition images {np} (ase : Images np) : list (Atoms np) :=
  match ase with
  | One atoms => [atoms]
  | Many images => images
  end.

Definition cif_from_ase {np} (ase : Images np) (full_occupancies add_fake_biso : bool)
  : Result (list Block) :=
  for_atoms full_occupancies add_fake_biso (images ase).

End CifFromAse.

(* ===================================================================== *)
(** * aiida/orm/data/__init__.py: [Data.export] with plugins that write     *)
(* ===================================================================== *)

Module DataFs.
Import Py.
Import Data(bytes, FileSystem, exists_, write_file, splitext_1, check_extra_files,
            write_extra_files).

(** An export plugin [_prepare_<format>(main_file_name, **kwargs)] that may
    change the file system before it returns the content of the main file and
    the additional files: [CifData._prepare_cif] writes the file of the node
    anew when the node has parsed values and is not stored. *)
Definition Exporter : Type :=
  string → gmap string PyObj → M FileSystem (bytes * gmap string bytes).

(** A [Data] object with such plugins. *)
Record Data := {
  class_name : string;
  _custom_export_format_replacements : gmap string string;
  _prepare_ : gmap string Exporter
}.

(** [_get_exporters]. *)
Definition _get_exporters (self : Data) : gmap string Exporter := _prepare_ self.

(** [_exportcontent]. The state is the file system. *)
Definition _exportcontent (self : Data) (fileformat : string) (main_file_name : string)
    (kwargs : gmap string PyObj) : M FileSystem (bytes * gmap string bytes) :=
  let exporters := _get_exporters self in
  match exporters !! fileformat with
  | Some func => func main_file_name kwargs
  | None =>
      if (0 <? length (keys exporters))%nat
      then raise (ValueError
                    (Format "The format {} is not implemented for {}. Currently implemented are: {}."
                            [PyStr fileformat; PyStr (class_name self);
                             PyStr (String.concat "," (keys exporters))]))
      else raise (ValueError
                    (Format "The format {} is not implemented for {}. No formats are implemented yet."
                            [PyStr fileformat; PyStr (class_name self)]))
  end.

(** The file format that [export] uses: the one given, or the one found from
    the extension of the path. *)
Definition export_fileformat (self : Data) (path : string) (fileformat : option string)
    : Result string :=
  match fileformat with
  | Some fileformat => Return fileformat
  | None =>
      let extension := splitext_1 path in
      let extension :=
        if String.prefix "." extension
        then String.substring 1 (String.length extension - 1) extension
        else extension in
      if String.eqb extension ""
      then Raise (ValueError (Format "Cannot recognized the fileformat from the extension" []))
      else Return (default extension (_custom_export_format_replacements self !! extension))
  end.

(** [export]. The state is the file system. *)
Definition export (self : Data) (path : string) (fileformat : option string)
    (overwrite : bool) (kwargs : gmap string PyObj) : M FileSystem (list string) :=
  if String.eqb path "" then raise (ValueError (Format "Path not recognized" []))
  else
    fun fs =>
      if exists_ fs path && negb overwrite
      then raise (OSError (Format "A file was already found at {}" [PyStr path])) fs
      else
        (let* fileformat := lift (export_fileformat self path fileformat) in
         let retlist := [] in
         let* content := _exportcontent self fileformat path kwargs in
         let filetext := content.1 in
         let extra_files := content.2 in
         let* _ :=
           if negb overwrite
           then
             let* _ := check_extra_files (keys extra_files) in
             fun fs =>
               if exists_ fs path
               then raise (OSError (Format "The file {} already exists, stopping."
                                           [PyStr path])) fs
               else ret tt fs
           else ret tt in
         let* retlist := write_extra_files (map_to_list extra_files) retlist in
         let retlist := (retlist ++ [path])%list in
         let* _ := write_file path filetext in
         ret retlist) fs.

End DataFs.

(* ===================================================================== *)
(** * Definitions used in the statements                                  *)
(* ===================================================================== *)

Module AddAux.
Import Add.

(** The raw dictionary once the keys of [keys] have been popped from it. *)
Definition popped (keys : list string) (raw : gmap string Node) : gmap string Node :=
  foldl (fun d k => delete k d) raw keys.

(** The validated inputs gathered from [raw] for pairwise distinct [keys]. *)
Definition gathered (link : string → string) (raw : gmap string Node)
    (keys : list string) (acc : gmap string Node) : gmap string Node :=
  foldl (fun acc k => match raw !! k with
                      | Some v => <[link k := v]> acc
                      | None => acc
                      end) acc keys.

(** The link names of a list of keys. *)
Definition linknames (self : ArithmeticAddCalculation) (keys : list string) : gset string :=
  list_to_set (get_linkname (base self) <$> keys).

(** The declarations of a calculation are well formed when no required key
    is listed twice and every optional key has a valid type to construct. *)
Definition well_declared (self : ArithmeticAddCalculation) : Prop :=
  NoDup (_required_inputs self) ∧
  ∀ k, k ∈ _optional_inputs self → ∃ c, _get_input_valid_type self k = Return c.

(** The message of the error raised for a missing required key. *)
Definition missing_message (key : string) : Formatted :=
  Format "required input '{}' was not specified" [PyStr key].

(** A base class whose key remapping is the identity and which declares the
    input [code]. *)
Definition plain_base : CalcJobNode :=
  {| calc_uuid := "calc-0001";
     get_linkname := fun key => key;
     CalcJobNode_use_methods :=
       {["code" := {| valid_types := Class Code;
                      additional_parameter := None;
                      linkname := "code";
                      docstring := "the code" |}]};
     new_uuid := fun _ => "fresh-node" |}.

(** The calculation as [_init_internal_params] sets it up. *)
Definition add_calc : ArithmeticAddCalculation := _init_internal_params plain_base.

(** A variant, as a subclass could declare it, in which [y] is optional. *)
Definition add_calc_optional_y : ArithmeticAddCalculation :=
  {| base := plain_base;
     _PREFIX := "aiida";
     _INPUT_FILE_NAME := "aiida.in";
     _OUTPUT_FILE_NAME := "aiida.out";
     _default_parser := "arithmetic.add";
     _required_inputs := ["code"; "x"];
     _optional_inputs := ["y"];
     _DEFAULT_INPUT_FILE := "aiida.in";
     _DEFAULT_OUTPUT_FILE := "aiida.out" |}.

(** A code node and two integer nodes. *)
Definition node_C : Node := {| node_class := Code; uuid := "code-uuid"; value := PyNone |}.
Definition node_2 : Node := {| node_class := Int; uuid := "x-uuid"; value := PyInt 2 |}.
Definition node_3 : Node := {| node_class := Int; uuid := "y-uuid"; value := PyInt 3 |}.

(** Scenario B of the specification: [{code: C, x: 2}]. *)
Definition inputs_code_x : gmap string Node := <["code" := node_C]> (<["x" := node_2]> ∅).

(** Scenario A of the specification: [{code: C, x: 2, y: 3}]. *)
Definition inputs_code_x_y : gmap string Node := <["y" := node_3]> inputs_code_x.

(** The inputs of Scenario A with two keys that the calculation does not
    declare. *)
Definition inputs_with_strangers : gmap string Node :=
  <["z" := node_3]> (<["w" := node_2]> inputs_code_x_y).

(** The destinations of a transfer plan: the retrieved paths and the second
    component of every copy instruction. *)
Definition destinations (calcinfo : CalcInfo) : list string :=
  retrieve_list calcinfo ++ (local_copy_list calcinfo).*2 ++ (remote_copy_list calcinfo).*2.

(** A subclass whose local-copy list sends a file to the path of the output
    file, which the retrieval list holds already. *)
Definition copying_subclass : Subclass :=
  {| sub_get_retrieve_list := get_retrieve_list;
     sub_get_local_copy_list := [("/data/reference.out", "aiida.out")];
     sub_get_remote_copy_list := [] |}.

End AddAux.

Module DataAux.
Import Data.

(** A plugin for a two-file plot format: the main file and one data file
    whose name does not depend on the arguments. *)
Definition _prepare_gnu : Exporter :=
  fun main_file_name kwargs =>
    Return ([Byte.x70; Byte.x6c; Byte.x6f; Byte.x74],
            {["plot_data.dat" := [Byte.x31; Byte.x20; Byte.x32]]}).

(** A data object with this plugin, which also exports to files with the
    extension [gp]. *)
Definition bands : Data :=
  {| class_name := "BandsData";
     _custom_export_format_replacements := {["gp" := "gnu"]};
     _prepare_ := {["gnu" := _prepare_gnu]} |}.

(** A file system in which the data file is already there. *)
Definition disk_with_data_file : FileSystem := {["plot_data.dat" := [Byte.x30]]}.

End DataAux.

Module CifAux.
Import Data Cif.

(** The [md5] attribute of the node is the hash of the file of the node. *)
Definition md5_consistent (md5_file : bytes → string) (self : CifData) : Prop :=
  ∃ content, file self = Some content ∧
             attributes self !! "md5" = Some (PyStr (md5_file content)).

(** Stand-ins for the parameters: a checksum that spells out the bytes, a
    parent [set_file] that takes the bytes of the file name as the new
    content, a parent validation that passes and a [Node.store] that marks the
    node as stored. *)
Definition spell (content : bytes) : string :=
  string_of_list_ascii (List.map ascii_of_byte content).

Definition take_name_as_content (filename : string) : M CifData unit :=
  fun self =>
    ({| attributes := <["filename" := PyStr filename]> (attributes self);
        is_stored := is_stored self;
        file := Some (List.map byte_of_ascii (list_ascii_of_string filename));
        _values := _values self;
        _ase := _ase self |},
     Return tt).

Definition mark_stored : M CifData unit :=
  fun self =>
    ({| attributes := attributes self;
        is_stored := true;
        file := file self;
        _values := _values self;
        _ase := _ase self |},
     Return tt).

(** A new node whose source records another checksum. *)
Definition fresh_cif : CifData :=
  {| attributes := {["source" := PyDict {["source_md5" := PyStr "0000"]}]};
     is_stored := false;
     file := None;
     _values := None;
     _ase := None |}.

End CifAux.

Module ComputerAux.
Import Computer.

(** The schemas of the two transport kinds of the tests: no parameter for
    [local]; for [ssh], among others, a user name and a port. *)
Definition test_schema_of (kind : string) : Schema :=
  if String.eqb kind "ssh"
  then {["username" := fun _ => true;
         "port" := fun _ => true;
         "look_for_keys" := fun _ => true;
         "key_filename" := fun _ => true;
         "timeout" := fun _ => true]}
  else ∅.

Definition ssh_computer : ExecutionTarget :=
  {| identifier := "test_configure_ssh_invalid";
     hostname := "localhost";
     workdir := "/tmp/aiida";
     transport_kind := "ssh";
     scheduler_kind := "direct";
     enabled := true |}.

Definition local_computer : ExecutionTarget :=
  {| identifier := "test_configure_local";
     hostname := "localhost";
     workdir := "/tmp/aiida";
     transport_kind := "local";
     scheduler_kind := "direct";
     enabled := true |}.

Definition invalid_auth_params : gmap string string :=
  {["username" := "radames"; "invalid_auth_param" := "TEST"]}.

Definition valid_auth_params : gmap string string :=
  {["username" := "radames"; "port" := "22"]}.

End ComputerAux.

Module AddMoreAux.
Import Add AddAux.

(** The declared keys are distinct and have distinct link names. *)
Definition distinct_inputs (self : ArithmeticAddCalculation) : Prop :=
  NoDup (_required_inputs self ++ _optional_inputs self)%list ∧
  ∀ k1 k2,
    k1 ∈ (_required_inputs self ++ _optional_inputs self)%list →
    k2 ∈ (_required_inputs self ++ _optional_inputs self)%list →
    get_linkname (base self) k1 = get_linkname (base self) k2 → k1 = k2.

(** A variant in which the optional input [z] has a use-method, with an
    empty tuple of valid types. *)
Definition base_with_z : CalcJobNode :=
  {| calc_uuid := "calc-0001";
     get_linkname := fun key => key;
     CalcJobNode_use_methods :=
       {["code" := {| valid_types := Class Code;
                      additional_parameter := None;
                      linkname := "code";
                      docstring := "the code" |};
         "z" := {| valid_types := Tuple [];
                   additional_parameter := None;
                   linkname := "z";
                   docstring := "an input of no type" |}]};
     new_uuid := fun _ => "fresh-node" |}.

Definition add_calc_optional_z : ArithmeticAddCalculation :=
  {| base := base_with_z;
     _PREFIX := "aiida";
     _INPUT_FILE_NAME := "aiida.in";
     _OUTPUT_FILE_NAME := "aiida.out";
     _default_parser := "arithmetic.add";
     _required_inputs := ["code"; "x"; "y"];
     _optional_inputs := ["z"];
     _DEFAULT_INPUT_FILE := "aiida.in";
     _DEFAULT_OUTPUT_FILE := "aiida.out" |}.

(** A temporary folder that already holds a file. *)
Definition folder_with_readme : gmap string Formatted := {["README" := Format "notes" []]}.

End AddMoreAux.

Module DataMoreAux.
Import Data DataAux.

(** An empty disk and the two files that the plot plugin produces. *)
Definition plot_text : bytes := [Byte.x70; Byte.x6c; Byte.x6f; Byte.x74].

Definition plot_data : gmap string bytes := {["plot_data.dat" := [Byte.x31; Byte.x20; Byte.x32]]}.

(** A disk with a file that has nothing to do with the export. *)
Definition disk_with_notes : FileSystem := {["notes.txt" := [Byte.x6e]]}.

End DataMoreAux.

Module DataImportAux.
Import Data DataImport.

(** An object whose state is the text it has imported last, with one import
    plugin, and a reader that finds one file. *)
Definition _parse_gnu : Importer string := fun inputstring kwargs _ => (inputstring, Return tt).

Definition plot_reader : Importing string :=
  {| importing_class_name := "BandsData"; _parse_ := {["gnu" := _parse_gnu]} |}.

Definition read_plot (fname : string) : Result string :=
  if String.eqb fname "old/plot.gnu" then Return "plot 1 2"
  else Raise (OSError (Format "No such file or directory: {}" [PyStr fname])).

End DataImportAux.

Module CifMoreAux.
Import Data Cif CifAux.

(** A source description with known fields, and one with a field that
    [_source_attributes] does not list. *)
Definition cod_source : gmap string PyObj :=
  {["db_name" := PyStr "COD"; "id" := PyStr "1000000"; "source_md5" := PyNone]}.

Definition odd_source : gmap string PyObj :=
  {["db_name" := PyStr "COD"; "colour" := PyStr "blue"]}.

(** A node with parsed values in its caches. *)
Definition parsed_cif : CifData :=
  {| attributes := {["formulae" := PyList [PyStr "C H4"]; "md5" := PyStr "old"]};
     is_stored := false;
     file := Some [Byte.x61];
     _values := Some (PyStr "parsed");
     _ase := Some (PyStr "atoms") |}.

(** A [Node.store] that keeps the attributes and the file. *)
Definition keeps_content (Node_store : M CifData unit) : Prop :=
  ∀ self self', Node_store self = (self', Return tt) →
                attributes self' = attributes self ∧ file self' = file self.

End CifMoreAux.

Module CifValuesAux.
Import CifValues.

(** The three tags with the fractional coordinates of the atomic sites. *)
Definition fract_tags : list string :=
  ["_atom_site_fract_x"; "_atom_site_fract_y"; "_atom_site_fract_z"].

(** A file with one datablock, whose sites have no coordinates and whose
    second site carries two hydrogens. *)
Definition values_without_coordinates : Values :=
  {["0" := {["_atom_site_fract_x" := Column ["?"; "?"];
             "_atom_site_fract_y" := Scalar "?";
             "_atom_site_attached_hydrogens" := Column ["0"; "2"]]}]}.

(** A symbol as it stands in a Hill formula: not empty, without digits and
    without spaces. *)
Definition is_symbol (specie : string) : Prop :=
  specie ≠ "" ∧
  ∀ c, c ∈ list_ascii_of_string specie → is_digit c = false ∧ is_space c = false.

(** A letter of the Latin alphabet, and a symbol made of such letters, as the
    symbols of the chemical elements are: the two readings of [\s] and [\d]
    agree on them. *)
Definition is_letter (c : ascii) : bool :=
  ((65 <=? nat_of_ascii c)%nat && (nat_of_ascii c <=? 90)%nat)
  || ((97 <=? nat_of_ascii c)%nat && (nat_of_ascii c <=? 122)%nat).

Definition is_element_symbol (specie : string) : Prop :=
  specie ≠ "" ∧ ∀ c, c ∈ list_ascii_of_string specie → is_letter c = true.

(** [str(n)] for a natural number. *)
Definition str_int (n : N) : string := NilEmpty.string_of_uint (N.to_uint n).

(** A formula written with spaces for separators: every symbol is followed by
    its count. *)
Definition hill_formula (tokens : list (string * N)) : string :=
  String.concat " " ((fun token : string * N => token.1 ++ str_int token.2) <$> tokens).

(** The contents that such a formula denotes. *)
Definition hill_contents (tokens : list (string * N)) : gmap string Quantity :=
  list_to_map ((fun token : string * N => (token.1, QInt token.2)) <$> tokens).

(** No specie of [contents] is missing from [known_species]. *)
Definition all_known (known_species : list string) (contents : gmap string Quantity) : Prop :=
  ∀ specie, is_Some (contents !! specie) → specie ∈ known_species.

End CifValuesAux.

Module CifWriterAux.
Import Py CifValues CifWriter.

(** The tags that the loops list. *)
Definition loop_tags (loops : Loops) : list string := concat loops.*2.

(** A datablock without the tags that the loops list. *)
Definition without_loop_tags (loops : Loops) (values : Block) : Block :=
  filter (λ kv, kv.1 ∉ loop_tags loops) values.

(** The item that is written for a tag of the datablock: its value, as a list
    and if it is not empty for a tag of a loop. *)
Definition written (loops : Loops) (values : Block) (tag : string) (v : CifValue) : Prop :=
  ∃ v0, values !! tag = Some v0 ∧
    if decide (tag ∈ loop_tags loops)
    then v = Column (as_list v0) ∧ as_list v0 ≠ []
    else v = v0.

(** The tags of each loop that the datablock has, have equally many values. *)
Definition consistent (loops : Loops) (values : Block) : Prop :=
  ∀ loopname tags t1 t2 v1 v2,
    (loopname, tags) ∈ loops → t1 ∈ tags → t2 ∈ tags →
    values !! t1 = Some v1 → values !! t2 = Some v2 →
    length (as_list v1) = length (as_list v2).

(** The names of the first [n] datablocks. *)
Definition names_of (names : option (list string)) (n : nat) : list string :=
  if names_given names then take n (default [] names) else str <$> seq 0 n.

(** The dictionary at an address when the dictionaries at the addresses
    [earlier] have been through the loop. *)
Definition popped_by (loops : Loops) (earlier : list nat) (store : Store) (values : nat)
  : Block :=
  if decide (values ∈ earlier) then without_loop_tags loops (store values) else store values.

(** A store that holds the given dictionaries at the addresses [0], [1],
    and so on, and empty dictionaries elsewhere. *)
Definition store_of (blocks : list Block) : Store :=
  fun values => default ∅ (blocks !! values).

(** The file after the blocks have been assigned to it under their names,
    one after the other. *)
Definition assigned (cif : CifFile) (blocks : list (string * CifBlock)) : CifFile :=
  foldl (fun cif named => <[named.1 := named.2]> cif) cif blocks.

(** The local variables after a tag with the value [v] has passed the check
    of the row size. *)
Definition after_tag (loc : Locals) (tag : string) (v : CifValue) : Locals :=
  if (length (as_list v) =? 0)%nat
  then {| row_size := Some (length (as_list v));
          tags_seen := tags_seen loc;
          tags_in_loops := tags_in_loops loc;
          datablock := datablock loc |}
  else {| row_size := Some (length (as_list v));
          tags_seen := tags_seen loc ++ [tag];
          tags_in_loops := tags_in_loops loc ++ [tag];
          datablock := datablock loc ++ [AddItem tag (Column (as_list v))] |}.

(** One loop, a datablock with one atomic site and a cell length, what is
    left of the datablock, and the block that is written for it. *)
Definition atom_site_loops : Loops :=
  [("_atom_site", ["_atom_site_label"; "_atom_site_fract_x"])].

Definition one_atom : Block :=
  {[ "_atom_site_label" := Column ["C1"];
     "_atom_site_fract_x" := Column ["0.5"];
     "_cell_length_a" := Scalar "4.1" ]}.

Definition one_atom_rest : Block := {[ "_cell_length_a" := Scalar "4.1" ]}.

Definition one_atom_block : CifBlock :=
  [AddItem "_atom_site_label" (Column ["C1"]);
   AddItem "_atom_site_fract_x" (Column ["0.5"]);
   CreateLoop ["_atom_site_label"; "_atom_site_fract_x"];
   AddItem "_cell_length_a" (Scalar "4.1")].

(** The file with the block of the example under the name of the first
    datablock. *)
Definition one_atom_file : CifFile := {[ "0" := one_atom_block ]}.

(** The local variables at the start of a loop, and the block when the loop
    has been closed. *)
Definition new_loop (in_loops : list string) (block : CifBlock) : Locals :=
  {| row_size := None; tags_seen := []; tags_in_loops := in_loops; datablock := block |}.

Definition closed (loc : Locals) : CifBlock :=
  match row_size loc with
  | Some (S _) => (datablock loc ++ [CreateLoop (tags_seen loc)])%list
  | _ => datablock loc
  end.

End CifWriterAux.

Module CifFromAseAux.
Import Py CifValues CifWriter CifFromAse.

(** The tags whose list gets one entry for every atom. *)
Definition site_tags (full_occupancies add_fake_biso : bool) : list string :=
  (["_atom_site_label"; "_atom_site_fract_x"; "_atom_site_fract_y"; "_atom_site_fract_z";
    "_atom_site_type_symbol"]
   ++ (if full_occupancies then ["_atom_site_occupancy"] else [])
   ++ (if add_fake_biso
       then ["_atom_site_thermal_displace_type"; "_atom_site_B_iso_or_equiv"]
       else []))%list.

(** A symbol without a digit, as the symbols of the chemical elements are. *)
Definition digit_free (symbol : string) : Prop :=
  ∀ c, c ∈ list_ascii_of_string symbol → is_digit c = false.

(** The number of atoms with this symbol among the atoms [atoms]. *)
Definition occurrences (symbol : string) (atoms : list string) : nat :=
  length (filter (fun s => s = symbol) atoms).

(** The number of a new atom with this symbol. *)
Definition counted (no : gmap string nat) (symbol : string) : nat :=
  match no !! symbol with
  | Some n => n + 1
  | None => 1
  end.

(** The datablock after the body of the loop, for an atom with this symbol,
    number and position. *)
Definition site_row {np} (full_occupancies add_fake_biso : bool) (symbol : string)
    (count : nat) (position : Float np * Float np * Float np) (datablock : Block) : Block :=
  let datablock := append "_atom_site_label" (symbol +:+ str count) datablock in
  let datablock := append "_atom_site_fract_x" (str_float np position.1.1) datablock in
  let datablock := append "_atom_site_fract_y" (str_float np position.1.2) datablock in
  let datablock := append "_atom_site_fract_z" (str_float np position.2) datablock in
  let datablock := append "_atom_site_type_symbol" symbol datablock in
  let datablock :=
    if full_occupancies
    then append "_atom_site_occupancy" "1.0" datablock
    else datablock in
  if add_fake_biso
  then append "_atom_site_B_iso_or_equiv" "1.0"
         (append "_atom_site_thermal_displace_type" "Biso" datablock)
  else datablock.

(** The labels are a symbol followed by a number that is at most the count
    of the symbol. *)
Definition labelled (no : gmap string nat) (labels : list string) : Prop :=
  ∀ label, label ∈ labels →
    ∃ symbol count, label = symbol +:+ str count ∧ digit_free symbol ∧
                    (count ≤ default 0 (no !! symbol))%nat.

(** An interpretation of the numeric operations over the integers, and a
    structure of two carbon atoms and a hydrogen atom, for the examples. *)
Definition integers : Numpy :=
  {| Float := Z; Vec := Z * Z * Z;
     norm := fun v => (v.1.1 + v.1.2 + v.2)%Z;
     dot := fun v w => (v.1.1 * w.1.1 + v.1.2 * w.1.2 + v.2 * w.2)%Z;
     arccos := fun x => x;
     mul := Z.mul; div := Z.div; pi := 3%Z; float_180 := 180%Z;
     str_float := fun x => NilEmpty.string_of_int (Z.to_int x) |}.

Definition ethynyl : Atoms integers :=
  Build_Atoms integers ((4, 0, 0), (0, 4, 0), (0, 0, 4))%Z false
    [(0, 0, 0); (1, 0, 0); (2, 0, 0)]%Z ["C"; "C"; "H"].

(** The datablock of this structure. *)
Definition ethynyl_block : Block :=
  {[ "_cell_length_a" := Scalar "4";
     "_cell_length_b" := Scalar "4";
     "_cell_length_c" := Scalar "4";
     "_cell_angle_alpha" := Scalar "0";
     "_cell_angle_beta" := Scalar "0";
     "_cell_angle_gamma" := Scalar "0";
     "_atom_site_label" := Column ["C1"; "C2"; "H1"];
     "_atom_site_fract_x" := Column ["0"; "1"; "2"];
     "_atom_site_fract_y" := Column ["0"; "0"; "0"];
     "_atom_site_fract_z" := Column ["0"; "0"; "0"];
     "_atom_site_type_symbol" := Column ["C"; "C"; "H"] ]}.

End CifFromAseAux.

Module DataFsAux.
Import Py DataFs DataAux DataMoreAux.
Import Data(bytes, FileSystem).

(** The plot plugin, which writes nothing itself, and a data object with
    this plugin. *)
Definition _prepare_gnu : Exporter :=
  fun main_file_name kwargs => lift (DataAux._prepare_gnu main_file_name kwargs).

Definition bands : Data :=
  {| class_name := "BandsData";
     _custom_export_format_replacements := {["gp" := "gnu"]};
     _prepare_ := {["gnu" := _prepare_gnu]} |}.

(** A plugin in the way of [_prepare_cif] for a node with parsed values that
    is not stored: it writes the file of the node anew and returns what the
    file holds then, without additional files. *)
Definition _prepare_rewriting : Exporter :=
  fun main_file_name kwargs fs =>
    (<["repository/node.cif" := [Byte.x6e; Byte.x65; Byte.x77]]> fs,
     Return ([Byte.x6e; Byte.x65; Byte.x77], ∅)).

Definition parsed_node : Data :=
  {| class_name := "CifData";
     _custom_export_format_replacements := ∅;
     _prepare_ := {["cif" := _prepare_rewriting]} |}.

(** A disk with the file of the node. *)
Definition disk_with_node_file : FileSystem :=
  {["repository/node.cif" := [Byte.x6f; Byte.x6c; Byte.x64]]}.

End DataFsAux.

(* ===================================================================== *)
(** * Properties of dictionaries                                          *)
(* ===================================================================== *)

Module PyFacts.

(** Reads an entry through the insertions of other keys above it. *)
Ltac lookup_inserted :=
  repeat (rewrite lookup_insert_ne by done); by rewrite lookup_insert_eq.

Lemma truthy_false {V} (d : gmap string V) : truthy d = false ↔ d = ∅.
Proof.
  unfold truthy. split.
  - destruct (map_to_list d) eqn:E; [|done]. intros _. by apply map_to_list_empty_iff.
  - intros ->. by rewrite map_to_list_empty.
Qed.

Lemma elem_of_keys {V} (d : gmap string V) k : k ∈ keys d ↔ is_Some (d !! k).
Proof.
  unfold keys. rewrite list_elem_of_fmap. split.
  - intros [[k' v] [-> Hin]]. apply elem_of_map_to_list in Hin. by exists v.
  - intros [v Hv]. exists (k, v). split; [done|]. by apply elem_of_map_to_list.
Qed.

End PyFacts.

(* ===================================================================== *)
(** * Properties of input validation                                      *)
(* ===================================================================== *)

Module AddFacts.
Import Add AddAux PyFacts.

Lemma lookup_popped keys (raw : gmap string Node) j :
  popped keys raw !! j = if decide (j ∈ keys) then None else raw !! j.
Proof.
  revert raw. induction keys as [|k keys IH]; intros raw.
  - destruct (decide (j ∈ [])) as [Hin|_]; [by apply elem_of_nil in Hin | done].
  - change (popped (k :: keys) raw) with (popped keys (delete k raw)).
    rewrite IH. destruct (decide (j = k)) as [->|Hne].
    + rewrite lookup_delete_eq.
      destruct (decide (k ∈ keys)), (decide (k ∈ k :: keys)); set_solver.
    + rewrite lookup_delete_ne by done.
      destruct (decide (j ∈ keys)), (decide (j ∈ k :: keys)); set_solver.
Qed.

Lemma gathered_ext link (raw1 raw2 : gmap string Node) keys acc :
  (∀ k, k ∈ keys → raw1 !! k = raw2 !! k) →
  gathered link raw1 keys acc = gathered link raw2 keys acc.
Proof.
  revert acc. induction keys as [|k keys IH]; intros acc Heq; simpl; [done|].
  rewrite (Heq k) by set_solver. apply IH. intros; apply Heq; set_solver.
Qed.

Lemma dom_gathered link (raw : gmap string Node) keys acc :
  (∀ k, k ∈ keys → is_Some (raw !! k)) →
  dom (gathered link raw keys acc) = dom acc ∪ list_to_set (link <$> keys).
Proof.
  revert acc. induction keys as [|k keys IH]; intros acc Hall; simpl.
  - set_solver.
  - destruct (Hall k) as [v Hv]; [set_solver|]. rewrite Hv.
    rewrite IH by (intros; apply Hall; set_solver).
    rewrite dom_insert_L. set_solver.
Qed.

(** ** The loop over the required keys *)

Lemma required_loop_present self keys acc raw :
  NoDup keys →
  (∀ k, k ∈ keys → is_Some (raw !! k)) →
  required_loop self keys acc raw =
    (popped keys raw, Return (gathered (get_linkname (base self)) raw keys acc)).
Proof.
  revert acc raw. induction keys as [|k keys IH]; intros acc raw Hnd Hall; [done|].
  apply NoDup_cons in Hnd as [Hk Hnd].
  destruct (Hall k) as [v Hv]; [set_solver|].
  simpl. unfold bind, except_KeyError, pop. rewrite Hv.
  rewrite IH; [|done|].
  - f_equal. f_equal. apply gathered_ext. intros k' Hk'.
    apply lookup_delete_ne. set_solver.
  - intros k' Hk'. rewrite lookup_delete_ne by set_solver. apply Hall. set_solver.
Qed.

Lemma required_loop_missing self keys acc raw k :
  NoDup keys → k ∈ keys → raw !! k = None →
  ∃ before k' after,
    keys = (before ++ k' :: after)%list ∧
    (∀ j, j ∈ before → is_Some (raw !! j)) ∧
    raw !! k' = None ∧
    required_loop self keys acc raw =
      (popped before raw, Raise (InputValidationError (missing_message k'))).
Proof.
  revert acc raw. induction keys as [|k0 keys IH]; intros acc raw Hnd Hin Hk.
  - by apply elem_of_nil in Hin.
  - apply NoDup_cons in Hnd as [Hk0 Hnd].
    simpl. unfold bind, except_KeyError, pop.
    destruct (raw !! k0) as [v|] eqn:Hv.
    + assert (k ∈ keys) as Hin' by (apply elem_of_cons in Hin as [->|]; [congruence|done]).
      destruct (IH (<[get_linkname (base self) k0 := v]> acc) (delete k0 raw) Hnd Hin')
        as (before & k' & after & -> & Hbefore & Hnone & Heq).
      { rewrite lookup_delete_ne; [done|]. intros ->. done. }
      exists (k0 :: before), k', after. split; [done|]. split; [|split; [|done]].
      * intros j [->|Hj]%elem_of_cons; [by eexists|].
        destruct (Hbefore j Hj) as [w Hw]. exists w.
        by apply lookup_delete_Some in Hw as [_ Hw].
      * rewrite lookup_delete_ne in Hnone; [done|]. intros ->. apply Hk0. set_solver.
    + exists [], k0, keys. split; [done|]. split; [|done].
      intros j Hj. by apply elem_of_nil in Hj.
Qed.

Lemma required_loop_Return self keys acc raw raw' res :
  required_loop self keys acc raw = (raw', Return res) →
  NoDup keys ∧ ∀ k, k ∈ keys → is_Some (raw !! k).
Proof.
  revert acc raw. induction keys as [|k keys IH]; intros acc raw Heq.
  - split; [constructor | set_solver].
  - simpl in Heq. unfold bind, except_KeyError, pop in Heq.
    destruct (raw !! k) as [v|] eqn:Hv; [|done].
    apply IH in Heq as [Hnd Hall].
    assert (k ∉ keys) as Hk.
    { intros Hin. destruct (Hall k Hin) as [? H]. by rewrite lookup_delete_eq in H. }
    split; [by constructor|].
    intros k' [->|Hin]%elem_of_cons; [by eexists|].
    destruct (Hall k' Hin) as [v' Hv']. exists v'.
    rewrite lookup_delete_ne in Hv'; [done|]. intros ->. done.
Qed.

(** ** The loop over the optional keys *)

Lemma optional_loop_declared self keys acc raw :
  (∀ k, k ∈ keys → ∃ c, _get_input_valid_type self k = Return c) →
  ∃ res, optional_loop self keys acc raw = (popped keys raw, Return res) ∧
         dom res = dom acc ∪ linknames self keys.
Proof.
  revert acc raw. induction keys as [|k keys IH]; intros acc raw Hdecl.
  - exists acc. split; [done|]. unfold linknames. set_solver.
  - simpl. unfold bind, except_KeyError, pop, lift, ret.
    assert (∀ k', k' ∈ keys → ∃ c, _get_input_valid_type self k' = Return c) as Hdecl'
      by (intros; apply Hdecl; set_solver).
    destruct (raw !! k) as [v|] eqn:Hv.
    + destruct (IH (<[get_linkname (base self) k := v]> acc) (delete k raw) Hdecl')
        as (res & Heq & Hdom).
      exists res. split; [done|]. rewrite Hdom, dom_insert_L.
      unfold linknames. set_solver.
    + destruct (Hdecl k) as [c Hc]; [set_solver|]. rewrite Hc.
      destruct (IH (<[get_linkname (base self) k := construct self c]> acc) raw Hdecl')
        as (res & Heq & Hdom).
      exists res. split.
      * rewrite Heq. f_equal. simpl. unfold popped at 2. simpl.
        fold (popped keys (delete k raw)). f_equal.
        symmetry. by apply delete_id.
      * rewrite Hdom, dom_insert_L. unfold linknames. set_solver.
Qed.

Lemma optional_loop_frame self keys acc raw raw' res l :
  optional_loop self keys acc raw = (raw', Return res) →
  l ∉ get_linkname (base self) <$> keys →
  res !! l = acc !! l.
Proof.
  revert acc raw. induction keys as [|k keys IH]; intros acc raw Heq Hl.
  - by injection Heq as _ ->.
  - simpl in Heq. unfold bind, except_KeyError, pop, lift, ret in Heq.
    rewrite fmap_cons in Hl. apply not_elem_of_cons in Hl as [Hne Hl].
    destruct (raw !! k) as [v|].
    + rewrite (IH _ _ Heq Hl). by rewrite lookup_insert_ne.
    + destruct (_get_input_valid_type self k) as [c|e]; [|done].
      rewrite (IH _ _ Heq Hl). by rewrite lookup_insert_ne.
Qed.

Lemma optional_loop_default self keys acc raw raw' res k :
  optional_loop self keys acc raw = (raw', Return res) →
  k ∈ keys → raw !! k = None →
  (∀ k', k' ∈ keys → get_linkname (base self) k' = get_linkname (base self) k → k' = k) →
  ∃ c, _get_input_valid_type self k = Return c ∧
       res !! get_linkname (base self) k = Some (construct self c).
Proof.
  revert acc raw. induction keys as [|k0 keys IH]; intros acc raw Heq Hin Hk Hinj.
  - by apply elem_of_nil in Hin.
  - assert (∀ k', k' ∈ keys →
              get_linkname (base self) k' = get_linkname (base self) k → k' = k) as Hinj'
      by (intros; apply Hinj; [set_solver | done]).
    simpl in Heq. unfold bind, except_KeyError, pop, lift, ret in Heq.
    destruct (decide (k ∈ keys)) as [Hin'|Hout].
    + destruct (raw !! k0) as [v|] eqn:Hv.
      * apply (IH _ _ Heq Hin'); [|done].
        rewrite lookup_delete_ne; [done|]. intros ->. congruence.
      * destruct (_get_input_valid_type self k0) as [c0|e]; [|done].
        by apply (IH _ _ Heq Hin').
    + apply elem_of_cons in Hin as [->|Hin]; [|done].
      rewrite Hk in Heq.
      destruct (_get_input_valid_type self k0) as [c|e]; [|done].
      exists c. split; [done|].
      rewrite (optional_loop_frame _ _ _ _ _ _ _ Heq).
      * by rewrite lookup_insert_eq.
      * intros (k' & Hl & Hk')%list_elem_of_fmap.
        apply Hout. rewrite <- (Hinj' k' Hk'); done.
Qed.

Lemma optional_loop_Return self keys acc raw raw' res :
  optional_loop self keys acc raw = (raw', Return res) →
  raw' = popped keys raw ∧ dom res = dom acc ∪ linknames self keys.
Proof.
  revert acc raw. induction keys as [|k keys IH]; intros acc raw Heq.
  - injection Heq as <- <-. split; [done|]. unfold linknames. set_solver.
  - simpl in Heq. unfold bind, except_KeyError, pop, lift, ret in Heq.
    destruct (raw !! k) as [v|] eqn:Hv.
    + apply IH in Heq as [-> Hdom]. split; [done|].
      rewrite Hdom, dom_insert_L. unfold linknames. set_solver.
    + destruct (_get_input_valid_type self k) as [c|e]; [|done].
      apply IH in Heq as [-> Hdom]. split.
      * unfold popped at 2. simpl. fold (popped keys (delete k raw)).
        f_equal. symmetry. by apply delete_id.
      * rewrite Hdom, dom_insert_L. unfold linknames. set_solver.
Qed.

(** ** Every run only removes entries from the raw dictionary *)

Lemma required_loop_only_removes self keys acc (raw raw' : gmap string Node) r :
  required_loop self keys acc raw = (raw', r) → raw' ⊆ raw.
Proof.
  revert acc raw. induction keys as [|k keys IH]; intros acc raw Heq.
  - by injection Heq as <- _.
  - simpl in Heq. unfold bind, except_KeyError, pop, raise in Heq.
    destruct (raw !! k) as [v|].
    + etrans; [by eapply IH | apply delete_subseteq].
    + by injection Heq as <- _.
Qed.

Lemma optional_loop_only_removes self keys acc (raw raw' : gmap string Node) r :
  optional_loop self keys acc raw = (raw', r) → raw' ⊆ raw.
Proof.
  revert acc raw. induction keys as [|k keys IH]; intros acc raw Heq.
  - by injection Heq as <- _.
  - simpl in Heq. unfold bind, except_KeyError, pop, lift, ret in Heq.
    destruct (raw !! k) as [v|].
    + etrans; [by eapply IH | apply delete_subseteq].
    + destruct (_get_input_valid_type self k) as [c|e].
      * by eapply IH.
      * by injection Heq as <- _.
Qed.

Lemma validate_input_nodes_only_removes self (raw raw' : gmap string Node) r :
  validate_input_nodes self raw = (raw', r) → raw' ⊆ raw.
Proof.
  unfold validate_input_nodes, bind, raise, ret. intros Heq.
  destruct (required_loop _ _ _ raw) as [raw1 [res1|e]] eqn:E1.
  - apply required_loop_only_removes in E1.
    destruct (optional_loop _ _ _ raw1) as [raw2 [res2|e]] eqn:E2.
    + apply optional_loop_only_removes in E2.
      destruct (truthy raw2); injection Heq as <- _; by etrans.
    + apply optional_loop_only_removes in E2. injection Heq as <- _. by etrans.
  - apply required_loop_only_removes in E1. by injection Heq as <- _.
Qed.

(** ** The whole of [validate_input_nodes] *)

Lemma validate_input_nodes_Return self raw raw' res :
  validate_input_nodes self raw = (raw', Return res) →
  ∃ res1,
    required_loop self (_required_inputs self) ∅ raw =
      (popped (_required_inputs self) raw, Return res1) ∧
    optional_loop self (_optional_inputs self) res1 (popped (_required_inputs self) raw) =
      (∅, Return res) ∧
    raw' = ∅.
Proof.
  unfold validate_input_nodes, bind. intros Heq.
  destruct (required_loop _ _ _ raw) as [raw1 [res1|e]] eqn:E1; [|done].
  destruct (optional_loop _ _ _ raw1) as [raw2 [res2|e]] eqn:E2; [|done].
  destruct (truthy raw2) eqn:Et; [done|].
  apply truthy_false in Et as ->. injection Heq as <- <-.
  pose proof (required_loop_Return _ _ _ _ _ _ E1) as [Hnd Hall].
  rewrite (required_loop_present _ _ _ _ Hnd Hall) in E1.
  injection E1 as <- <-. eauto.
Qed.

Example scenario_B_raises (b : CalcJobNode) (C two : Node) :
  validate_input_nodes (_init_internal_params b) (<["code" := C]> (<["x" := two]> ∅))
  = (∅, Raise (InputValidationError
                 (Format "required input '{}' was not specified" [PyStr "y"]))).
Proof. vm_compute. reflexivity. Qed.

Lemma validate_input_nodes_valid self (raw : gmap string Node) :
  well_declared self →
  (∀ k, k ∈ _required_inputs self → is_Some (raw !! k)) →
  (∀ k, is_Some (raw !! k) → k ∈ _required_inputs self ∨ k ∈ _optional_inputs self) →
  ∃ input_nodes,
    validate_input_nodes self raw = (∅, Return input_nodes) ∧
    optional_loop self (_optional_inputs self)
      (gathered (get_linkname (base self)) raw (_required_inputs self) ∅)
      (popped (_required_inputs self) raw) = (∅, Return input_nodes).
Proof.
  intros [Hnd Hdecl] Hall Hknown.
  unfold validate_input_nodes, bind.
  rewrite (required_loop_present _ _ _ _ Hnd Hall).
  destruct (optional_loop_declared self (_optional_inputs self)
              (gathered (get_linkname (base self)) raw (_required_inputs self) ∅)
              (popped (_required_inputs self) raw) Hdecl) as (res & -> & Hdom).
  assert (popped (_optional_inputs self) (popped (_required_inputs self) raw) = ∅) as ->.
  { apply map_eq. intros k. rewrite !lookup_popped, lookup_empty.
    destruct (decide (k ∈ _optional_inputs self)) as [|Ho]; [done|].
    destruct (decide (k ∈ _required_inputs self)) as [|Hr]; [done|].
    destruct (raw !! k) eqn:Hk; [|done].
    destruct (Hknown k) as [?|?]; [by rewrite Hk | done..]. }
  exists res. split; [|done].
  unfold truthy. by rewrite map_to_list_empty.
Qed.

Lemma well_declared_init b : well_declared (_init_internal_params b).
Proof.
  split.
  - simpl. repeat constructor; set_solver.
  - simpl. intros k Hk. by apply elem_of_nil in Hk.
Qed.

(** ** The statements of the specification *)

(** C1. When the raw inputs lack a key of the required-key list,
    [validate_input_nodes] raises [InputValidationError], and its message is
    the template ["required input '{}' was not specified"] filled with a
    required key that the raw inputs lack: the first such key of the list, all
    keys before it having been found (and popped). When the raw inputs lack
    only one required key, as those of Scenario B lack only [y], this is the key
    that the message names. *)
Theorem validate_missing_required self (raw : gmap string Node) k :
  NoDup (_required_inputs self) →
  k ∈ _required_inputs self →
  raw !! k = None →
  ∃ before k' after,
    _required_inputs self = (before ++ k' :: after)%list ∧
    (∀ j, j ∈ before → is_Some (raw !! j)) ∧
    raw !! k' = None ∧
    validate_input_nodes self raw =
      (popped before raw,
       Raise (InputValidationError
                (Format "required input '{}' was not specified" [PyStr k']))) ∧
    ((∀ j, j ∈ _required_inputs self → raw !! j = None → j = k) → k' = k).
Proof.
  intros Hnd Hin Hk.
  destruct (required_loop_missing self _ ∅ raw k Hnd Hin Hk)
    as (before & k' & after & Hsplit & Hbefore & Hnone & Heq).
  exists before, k', after. split; [done|]. split; [done|]. split; [done|]. split.
  - unfold validate_input_nodes, bind. by rewrite Heq.
  - intros Honly. apply Honly; [|done]. rewrite Hsplit. set_solver.
Qed.

Lemma validate_missing_required_scenario_B :
  NoDup (_required_inputs add_calc) ∧
  "y" ∈ _required_inputs add_calc ∧
  inputs_code_x !! "y" = None ∧
  ∃ before k' after,
    _required_inputs add_calc = (before ++ k' :: after)%list ∧
    (∀ j, j ∈ before → is_Some (inputs_code_x !! j)) ∧
    inputs_code_x !! k' = None ∧
    validate_input_nodes add_calc inputs_code_x =
      (popped before inputs_code_x,
       Raise (InputValidationError
                (Format "required input '{}' was not specified" [PyStr k']))) ∧
    ((∀ j, j ∈ _required_inputs add_calc → inputs_code_x !! j = None → j = "y") → k' = "y").
Proof.
  assert (NoDup (_required_inputs add_calc)) as Hnd
    by (apply (bool_decide_unpack _); vm_compute; exact I).
  assert ("y" ∈ _required_inputs add_calc) as Hin
    by (apply (bool_decide_unpack _); vm_compute; exact I).
  assert (inputs_code_x !! "y" = None) as Hy by (vm_compute; reflexivity).
  split; [exact Hnd|]. split; [exact Hin|]. split; [exact Hy|].
  exact (validate_missing_required add_calc inputs_code_x "y" Hnd Hin Hy).
Defined.

(** C2. When the raw inputs hold every required key and also keys that are
    in neither list, [validate_input_nodes] raises [InputValidationError]; the
    message is filled with the keys left in the raw dictionary, and these are
    all the unrecognized keys of the raw inputs, and only those. *)
Theorem validate_unrecognized self (raw : gmap string Node) :
  well_declared self →
  (∀ k, k ∈ _required_inputs self → is_Some (raw !! k)) →
  (∃ k, is_Some (raw !! k) ∧ (k ∉ _required_inputs self) ∧ (k ∉ _optional_inputs self)) →
  ∃ raw',
    validate_input_nodes self raw =
      (raw', Raise (InputValidationError
                      (Format "the following input nodes were not recognized: {}"
                              [PyList (PyStr <$> keys raw')]))) ∧
    ∀ k, k ∈ keys raw' ↔
         is_Some (raw !! k) ∧ (k ∉ _required_inputs self) ∧ (k ∉ _optional_inputs self).
Proof.
  intros [Hnd Hdecl] Hall (k0 & Hk0 & Hreq & Hopt).
  exists (popped (_optional_inputs self) (popped (_required_inputs self) raw)).
  assert (∀ k, is_Some (popped (_optional_inputs self) (popped (_required_inputs self) raw) !! k)
               ↔ is_Some (raw !! k) ∧ (k ∉ _required_inputs self) ∧ (k ∉ _optional_inputs self))
    as Hleft.
  { intros k. rewrite !lookup_popped.
    destruct (decide (k ∈ _optional_inputs self)), (decide (k ∈ _required_inputs self));
      split; try (intros [? ?]; done); try (intros (? & ? & ?); done); intros ?; done. }
  split.
  - unfold validate_input_nodes, bind.
    rewrite (required_loop_present _ _ _ _ Hnd Hall).
    destruct (optional_loop_declared self (_optional_inputs self)
                (gathered (get_linkname (base self)) raw (_required_inputs self) ∅)
                (popped (_required_inputs self) raw) Hdecl) as (res & -> & _).
    destruct (truthy _) eqn:Et; [done|].
    apply truthy_false in Et.
    assert (is_Some (popped (_optional_inputs self)
                       (popped (_required_inputs self) raw) !! k0)) as Hsome
      by (by apply Hleft).
    rewrite Et, lookup_empty in Hsome. by destruct Hsome.
  - intros k. rewrite elem_of_keys. apply Hleft.
Qed.

Lemma validate_unrecognized_strangers :
  well_declared add_calc ∧
  (∀ k, k ∈ _required_inputs add_calc → is_Some (inputs_with_strangers !! k)) ∧
  (is_Some (inputs_with_strangers !! "z") ∧
   ("z" ∉ _required_inputs add_calc) ∧ ("z" ∉ _optional_inputs add_calc)) ∧
  ∃ raw',
    validate_input_nodes add_calc inputs_with_strangers =
      (raw', Raise (InputValidationError
                      (Format "the following input nodes were not recognized: {}"
                              [PyList (PyStr <$> keys raw')]))) ∧
    ∀ k, k ∈ keys raw' ↔
         is_Some (inputs_with_strangers !! k) ∧
         (k ∉ _required_inputs add_calc) ∧ (k ∉ _optional_inputs add_calc).
Proof.
  assert (∀ k, k ∈ _required_inputs add_calc → is_Some (inputs_with_strangers !! k)) as Hall.
  { intros k Hk. simpl in Hk.
    repeat (apply elem_of_cons in Hk as [->|Hk]; [by vm_compute; eexists|]).
    by apply elem_of_nil in Hk. }
  assert (is_Some (inputs_with_strangers !! "z") ∧
          ("z" ∉ _required_inputs add_calc) ∧ ("z" ∉ _optional_inputs add_calc)) as Hz.
  { split; [by vm_compute; eexists|].
    split; apply (bool_decide_unpack _); vm_compute; exact I. }
  split; [apply well_declared_init|]. split; [exact Hall|]. split; [exact Hz|].
  exact (validate_unrecognized add_calc inputs_with_strangers
           (well_declared_init plain_base) Hall (ex_intro _ "z" Hz)).
Defined.

(** Both unrecognized keys are listed. *)
Example validate_lists_both_strangers :
  (validate_input_nodes add_calc inputs_with_strangers).2 =
    Raise (InputValidationError
             (Format "the following input nodes were not recognized: {}"
                     [PyList [PyStr "w"; PyStr "z"]])).
Proof. vm_compute. reflexivity. Qed.

(** C3. When the raw inputs hold every required key and no unrecognized key,
    [validate_input_nodes] returns a dictionary whose keys are exactly the
    link names of the required keys and of the optional keys. *)
Theorem validate_valid_keys self (raw : gmap string Node) :
  well_declared self →
  (∀ k, k ∈ _required_inputs self → is_Some (raw !! k)) →
  (∀ k, is_Some (raw !! k) → k ∈ _required_inputs self ∨ k ∈ _optional_inputs self) →
  ∃ input_nodes,
    validate_input_nodes self raw = (∅, Return input_nodes) ∧
    dom input_nodes = linknames self (_required_inputs self ++ _optional_inputs self).
Proof.
  intros Hdecl Hall Hknown.
  destruct (validate_input_nodes_valid self raw Hdecl Hall Hknown) as (res & Hv & Hopt).
  exists res. split; [done|].
  apply optional_loop_Return in Hopt as [_ Hdom].
  rewrite Hdom, (dom_gathered _ _ _ _ Hall), dom_empty_L.
  unfold linknames. rewrite fmap_app, list_to_set_app_L. set_solver.
Qed.

Lemma validate_valid_keys_scenario_A :
  well_declared add_calc ∧
  (∀ k, k ∈ _required_inputs add_calc → is_Some (inputs_code_x_y !! k)) ∧
  (∀ k, is_Some (inputs_code_x_y !! k) →
        k ∈ _required_inputs add_calc ∨ k ∈ _optional_inputs add_calc) ∧
  ∃ input_nodes,
    validate_input_nodes add_calc inputs_code_x_y = (∅, Return input_nodes) ∧
    dom input_nodes =
      linknames add_calc (_required_inputs add_calc ++ _optional_inputs add_calc).
Proof.
  assert (∀ k, k ∈ _required_inputs add_calc → is_Some (inputs_code_x_y !! k)) as Hall.
  { intros k Hk. simpl in Hk.
    repeat (apply elem_of_cons in Hk as [->|Hk]; [by vm_compute; eexists|]).
    by apply elem_of_nil in Hk. }
  assert (∀ k, is_Some (inputs_code_x_y !! k) →
               k ∈ _required_inputs add_calc ∨ k ∈ _optional_inputs add_calc) as Hknown.
  { intros k Hk. left. simpl. unfold inputs_code_x_y, inputs_code_x in Hk.
    destruct (decide (k = "y")) as [->|Hy]; [set_solver|].
    destruct (decide (k = "code")) as [->|Hc]; [set_solver|].
    destruct (decide (k = "x")) as [->|Hx]; [set_solver|].
    rewrite !lookup_insert_ne, lookup_empty in Hk by done. by destruct Hk. }
  split; [apply well_declared_init|]. split; [exact Hall|]. split; [exact Hknown|].
  exact (validate_valid_keys add_calc inputs_code_x_y
           (well_declared_init plain_base) Hall Hknown).
Defined.

(** C4. In a call that returns, an optional key that the raw inputs do not
    hold is filled, under its link name, with the node constructed without
    arguments from the valid type declared for the key: the class itself, or
    the first class when a tuple of classes is declared. Link names are taken
    to tell the optional keys apart. *)
Theorem optional_absent_filled_with_default self (raw : gmap string Node) k :
  well_declared self →
  (∀ j, j ∈ _required_inputs self → is_Some (raw !! j)) →
  (∀ j, is_Some (raw !! j) → j ∈ _required_inputs self ∨ j ∈ _optional_inputs self) →
  k ∈ _optional_inputs self →
  raw !! k = None →
  (∀ k', k' ∈ _optional_inputs self →
         get_linkname (base self) k' = get_linkname (base self) k → k' = k) →
  ∃ input_nodes m c,
    validate_input_nodes self raw = (∅, Return input_nodes) ∧
    _use_methods self !! k = Some m ∧
    (valid_types m = Class c ∨ ∃ cs, valid_types m = Tuple (c :: cs)) ∧
    input_nodes !! get_linkname (base self) k = Some (construct self c).
Proof.
  intros Hdecl Hall Hknown Hin Hk Hinj.
  destruct (validate_input_nodes_valid self raw Hdecl Hall Hknown) as (res & Heq & _).
  destruct (validate_input_nodes_Return _ _ _ _ Heq) as (res1 & _ & Hopt & _).
  destruct (optional_loop_default _ _ _ _ _ _ k Hopt Hin) as (c & Hc & Hres); [|done|].
  { rewrite lookup_popped. by destruct (decide (k ∈ _required_inputs self)). }
  unfold _get_input_valid_type, _get_input_valid_types, getitem in Hc.
  destruct (_use_methods self !! k) as [m|] eqn:Hm; [|done].
  exists res, m, c. split; [done|]. split; [done|]. split; [|done].
  destruct (valid_types m) as [[|c' cs]|c']; [done| |]; injection Hc as ->; eauto.
Qed.

Lemma optional_absent_filled_with_default_y :
  well_declared add_calc_optional_y ∧
  (∀ j, j ∈ _required_inputs add_calc_optional_y → is_Some (inputs_code_x !! j)) ∧
  (∀ j, is_Some (inputs_code_x !! j) →
        j ∈ _required_inputs add_calc_optional_y ∨ j ∈ _optional_inputs add_calc_optional_y) ∧
  "y" ∈ _optional_inputs add_calc_optional_y ∧
  inputs_code_x !! "y" = None ∧
  ∃ input_nodes m c,
    validate_input_nodes add_calc_optional_y inputs_code_x = (∅, Return input_nodes) ∧
    _use_methods add_calc_optional_y !! "y" = Some m ∧
    (valid_types m = Class c ∨ ∃ cs, valid_types m = Tuple (c :: cs)) ∧
    input_nodes !! "y" = Some (construct add_calc_optional_y c).
Proof.
  assert (well_declared add_calc_optional_y) as Hdecl.
  { split.
    - apply (bool_decide_unpack _); vm_compute; exact I.
    - intros j Hj. simpl in Hj. apply list_elem_of_singleton in Hj as ->.
      exists Int. vm_compute. reflexivity. }
  assert (∀ j, j ∈ _required_inputs add_calc_optional_y → is_Some (inputs_code_x !! j))
    as Hall.
  { intros j Hj. simpl in Hj.
    repeat (apply elem_of_cons in Hj as [->|Hj]; [by vm_compute; eexists|]).
    by apply elem_of_nil in Hj. }
  assert (∀ j, is_Some (inputs_code_x !! j) →
               j ∈ _required_inputs add_calc_optional_y ∨
               j ∈ _optional_inputs add_calc_optional_y) as Hknown.
  { intros j Hj. left. simpl. unfold inputs_code_x in Hj.
    destruct (decide (j = "code")) as [->|Hc]; [set_solver|].
    destruct (decide (j = "x")) as [->|Hx]; [set_solver|].
    rewrite !lookup_insert_ne, lookup_empty in Hj by done. by destruct Hj. }
  assert ("y" ∈ _optional_inputs add_calc_optional_y) as Hin
    by (apply (bool_decide_unpack _); vm_compute; exact I).
  assert (inputs_code_x !! "y" = None) as Hy by (vm_compute; reflexivity).
  split; [exact Hdecl|]. split; [exact Hall|]. split; [exact Hknown|].
  split; [exact Hin|]. split; [exact Hy|].
  refine (optional_absent_filled_with_default add_calc_optional_y inputs_code_x "y"
            Hdecl Hall Hknown Hin Hy _).
  intros k' Hk' _. simpl in Hk'. by apply list_elem_of_singleton in Hk'.
Defined.

(** C8. [validate_input_nodes] mutates the dictionary it is given: whatever
    the outcome, the dictionary afterwards is the one before with entries
    removed. A call that returns has found every required key in the caller's
    dictionary, has found no key there that is neither required nor optional,
    and leaves the dictionary without any of these keys: it is empty
    afterwards. *)
Theorem validate_empties_raw_inputs self (raw raw' : gmap string Node) r :
  validate_input_nodes self raw = (raw', r) →
  raw' ⊆ raw ∧
  ∀ input_nodes, r = Return input_nodes →
    (∀ k, k ∈ _required_inputs self → is_Some (raw !! k) ∧ raw' !! k = None) ∧
    (∀ k, k ∈ _optional_inputs self → raw' !! k = None) ∧
    (∀ k, is_Some (raw !! k) → k ∈ _required_inputs self ∨ k ∈ _optional_inputs self) ∧
    raw' = ∅.
Proof.
  intros Heq. split; [by eapply validate_input_nodes_only_removes|].
  intros input_nodes ->.
  destruct (validate_input_nodes_Return _ _ _ _ Heq) as (res1 & Hreq & Hopt & ->).
  destruct (required_loop_Return _ _ _ _ _ _ Hreq) as [_ Hall].
  destruct (optional_loop_Return _ _ _ _ _ _ Hopt) as [Hempty _].
  split; [|split; [|split]]; [| |  |done].
  - intros k Hk. split; [by apply Hall | apply lookup_empty].
  - intros k _. apply lookup_empty.
  - intros k Hk.
    assert (popped (_optional_inputs self) (popped (_required_inputs self) raw) !! k = None)
      as Hnone by (by rewrite <- Hempty, lookup_empty).
    rewrite !lookup_popped in Hnone.
    destruct (decide (k ∈ _optional_inputs self)); [by right|].
    destruct (decide (k ∈ _required_inputs self)); [by left|].
    rewrite Hnone in Hk. by destruct Hk.
Qed.

Lemma validate_empties_raw_inputs_scenario_A :
  ∃ input_nodes,
    validate_input_nodes add_calc inputs_code_x_y = (∅, Return input_nodes) ∧
    (∅ : gmap string Node) ⊆ inputs_code_x_y ∧
    (∀ k, k ∈ _required_inputs add_calc →
          is_Some (inputs_code_x_y !! k) ∧ (∅ : gmap string Node) !! k = None) ∧
    (∀ k, k ∈ _optional_inputs add_calc → (∅ : gmap string Node) !! k = None) ∧
    (∀ k, is_Some (inputs_code_x_y !! k) →
          k ∈ _required_inputs add_calc ∨ k ∈ _optional_inputs add_calc) ∧
    (∅ : gmap string Node) = ∅.
Proof.
  eexists. split; [vm_compute; reflexivity|].
  refine ((fun H => conj (proj1 H) (proj2 H _ eq_refl))
            (validate_empties_raw_inputs add_calc inputs_code_x_y ∅ _ _)).
  vm_compute. reflexivity.
Defined.

(** ** [_prepare_for_submission] *)

Lemma prepare_for_submission_Return self args args' calcinfo :
  _prepare_for_submission self args = (args', Return calcinfo) →
  ∃ input_nodes input_code,
    validate_input_nodes self (inputdict args) = (∅, Return input_nodes) ∧
    input_nodes !! get_linkname (base self) "code" = Some input_code ∧
    calcinfo =
      {| calcinfo_uuid := calc_uuid (base self);
         codes_info := [ {| cmdline_params := ["-in"; _INPUT_FILE_NAME self];
                            stdout_name := _OUTPUT_FILE_NAME self;
                            code_uuid := uuid input_code |} ];
         retrieve_list := [_OUTPUT_FILE_NAME self];
         local_copy_list := [];
         remote_copy_list := [] |}.
Proof.
  unfold _prepare_for_submission, bind, on_inputdict, on_tempfolder, lift, getitem, ret.
  intros Heq.
  destruct (validate_input_nodes self (inputdict args)) as [raw' [nodes|e]] eqn:Hv; [|done].
  destruct (validate_input_nodes_Return _ _ _ _ Hv) as (_ & _ & _ & ->).
  destruct (nodes !! get_linkname (base self) "x") as [nx|]; [|done].
  destruct (nodes !! get_linkname (base self) "y") as [ny|]; [|done].
  destruct (nodes !! get_linkname (base self) "code") as [nc|] eqn:Hc; [|done].
  simpl in Heq. injection Heq as _ <-. eauto.
Qed.

(** C5. For a valid set of inputs (exactly [code], [x] and [y]), the call of
    [_prepare_for_submission] returns a [CalcInfo] with one [CodeInfo]; the
    retrieval list contains the [stdout_name] of that [CodeInfo], which is the
    output file name of the calculation, and its [code_uuid] is the [uuid] of
    the node given as [code]. The link name of [code] is taken to differ from
    those of [x] and [y]. *)
Theorem prepare_for_submission_retrieves_stdout b folder (raw : gmap string Node) c :
  get_linkname b "code" ≠ get_linkname b "x" →
  get_linkname b "code" ≠ get_linkname b "y" →
  dom raw = {["code"; "x"; "y"]} →
  raw !! "code" = Some c →
  ∃ args' calcinfo codeinfo,
    _prepare_for_submission (_init_internal_params b)
      {| tempfolder := folder; inputdict := raw |} = (args', Return calcinfo) ∧
    codes_info calcinfo = [codeinfo] ∧
    stdout_name codeinfo ∈ retrieve_list calcinfo ∧
    stdout_name codeinfo = _OUTPUT_FILE_NAME (_init_internal_params b) ∧
    code_uuid codeinfo = uuid c.
Proof.
  intros Hcx Hcy Hdom Hc.
  assert (is_Some (raw !! "x")) as [nx Hx] by (apply elem_of_dom; rewrite Hdom; set_solver).
  assert (is_Some (raw !! "y")) as [ny Hy] by (apply elem_of_dom; rewrite Hdom; set_solver).
  destruct (validate_input_nodes_valid (_init_internal_params b) raw) as (nodes & Hv & _).
  { apply well_declared_init. }
  { intros k Hk. apply elem_of_dom. rewrite Hdom. simpl in Hk. set_solver. }
  { intros k Hk. left. apply elem_of_dom in Hk. rewrite Hdom in Hk. simpl. set_solver. }
  destruct (validate_input_nodes_Return _ _ _ _ Hv) as (res1 & Hreq & Hopt & _).
  simpl in Hopt. injection Hopt as _ Hres1. subst res1.
  rewrite required_loop_present in Hreq.
  2: { simpl. repeat constructor; set_solver. }
  2: { intros k Hk. apply elem_of_dom. rewrite Hdom. simpl in Hk. set_solver. }
  injection Hreq as Hnodes. rewrite Hc, Hx, Hy in Hnodes.
  unfold _prepare_for_submission, bind, on_inputdict, on_tempfolder, lift, getitem, ret.
  cbn [inputdict tempfolder]. rewrite Hv. cbn [base _init_internal_params].
  subst nodes.
  assert (∃ vx, (<[get_linkname b "y" := ny]> (<[get_linkname b "x" := nx]>
                   (<[get_linkname b "code" := c]> (∅ : gmap string Node))))
                !! get_linkname b "x" = Some vx) as [vx ->].
  { destruct (decide (get_linkname b "y" = get_linkname b "x")) as [->|Hne].
    - rewrite lookup_insert_eq. eauto.
    - rewrite lookup_insert_ne, lookup_insert_eq by done. eauto. }
  rewrite lookup_insert_eq.
  rewrite lookup_insert_ne, lookup_insert_ne, lookup_insert_eq by done.
  simpl. eexists _, _, _. split; [reflexivity|]. simpl.
  split; [done|]. split; [set_solver|]. done.
Qed.

Lemma prepare_for_submission_retrieves_stdout_scenario_A :
  get_linkname plain_base "code" ≠ get_linkname plain_base "x" ∧
  get_linkname plain_base "code" ≠ get_linkname plain_base "y" ∧
  dom inputs_code_x_y = {["code"; "x"; "y"]} ∧
  inputs_code_x_y !! "code" = Some node_C ∧
  ∃ args' calcinfo codeinfo,
    _prepare_for_submission (_init_internal_params plain_base)
      {| tempfolder := ∅; inputdict := inputs_code_x_y |} = (args', Return calcinfo) ∧
    codes_info calcinfo = [codeinfo] ∧
    stdout_name codeinfo ∈ retrieve_list calcinfo ∧
    stdout_name codeinfo = _OUTPUT_FILE_NAME (_init_internal_params plain_base) ∧
    code_uuid codeinfo = uuid node_C.
Proof.
  assert (get_linkname plain_base "code" ≠ get_linkname plain_base "x") as Hcx by done.
  assert (get_linkname plain_base "code" ≠ get_linkname plain_base "y") as Hcy by done.
  assert (dom inputs_code_x_y = {["code"; "x"; "y"]}) as Hdom.
  { unfold inputs_code_x_y, inputs_code_x. rewrite !dom_insert_L, dom_empty_L. set_solver. }
  assert (inputs_code_x_y !! "code" = Some node_C) as Hc by (vm_compute; reflexivity).
  split; [exact Hcx|]. split; [exact Hcy|]. split; [exact Hdom|]. split; [exact Hc|].
  exact (prepare_for_submission_retrieves_stdout plain_base ∅ inputs_code_x_y node_C
           Hcx Hcy Hdom Hc).
Defined.

Example scenario_A_calcinfo :
  _prepare_for_submission add_calc {| tempfolder := ∅; inputdict := inputs_code_x_y |} =
    ({| tempfolder := {["aiida.in" := Format ("{} {}" ++ newline)
                                             [PyInt 2; PyInt 3]]};
        inputdict := ∅ |},
     Return {| calcinfo_uuid := "calc-0001";
               codes_info := [ {| cmdline_params := ["-in"; "aiida.in"];
                                  stdout_name := "aiida.out";
                                  code_uuid := "code-uuid" |} ];
               retrieve_list := ["aiida.out"];
               local_copy_list := [];
               remote_copy_list := [] |}).
Proof. vm_compute. reflexivity. Qed.

(** C6. [_prepare_for_submission] does not compare the destinations of the
    three lists: whenever the call of the class itself returns, the call
    inherited by a subclass returns as well, in the same final state, with the
    lists that the methods of the subclass give, whatever they hold. The lists
    of the class itself are the output file alone and two empty lists, so its
    own plan has no duplicate destination. *)
Theorem plan_lists_are_not_checked cls self args args' calcinfo :
  _prepare_for_submission self args = (args', Return calcinfo) →
  _prepare_for_submission_in cls self args =
    (args', Return {| calcinfo_uuid := calcinfo_uuid calcinfo;
                      codes_info := codes_info calcinfo;
                      retrieve_list := sub_get_retrieve_list cls self;
                      local_copy_list := sub_get_local_copy_list cls;
                      remote_copy_list := sub_get_remote_copy_list cls |}) ∧
  _prepare_for_submission_in own_methods self args = (args', Return calcinfo) ∧
  NoDup (destinations calcinfo).
Proof.
  intros Heq.
  destruct (prepare_for_submission_Return _ _ _ _ Heq) as (nodes & code & _ & _ & Hcalc).
  split; [|split].
  - revert Heq.
    unfold _prepare_for_submission_in, _prepare_for_submission, bind, on_inputdict,
      on_tempfolder, lift, getitem, ret.
    destruct (validate_input_nodes self (inputdict args)) as [raw' [input_nodes|e]]; [|done].
    destruct (input_nodes !! get_linkname (base self) "x") as [nx|]; [|done].
    destruct (input_nodes !! get_linkname (base self) "y") as [ny|]; [|done].
    destruct (input_nodes !! get_linkname (base self) "code") as [nc|]; [|done].
    simpl. intros H. by injection H as <- <-.
  - done.
  - rewrite Hcalc. unfold destinations. simpl. apply NoDup_singleton.
Qed.

Lemma plan_lists_are_not_checked_scenario_A :
  ∃ args' calcinfo,
    _prepare_for_submission add_calc {| tempfolder := ∅; inputdict := inputs_code_x_y |}
      = (args', Return calcinfo) ∧
    _prepare_for_submission_in copying_subclass add_calc
        {| tempfolder := ∅; inputdict := inputs_code_x_y |} =
      (args', Return {| calcinfo_uuid := calcinfo_uuid calcinfo;
                        codes_info := codes_info calcinfo;
                        retrieve_list := sub_get_retrieve_list copying_subclass add_calc;
                        local_copy_list := sub_get_local_copy_list copying_subclass;
                        remote_copy_list := sub_get_remote_copy_list copying_subclass |}) ∧
    _prepare_for_submission_in own_methods add_calc
        {| tempfolder := ∅; inputdict := inputs_code_x_y |} = (args', Return calcinfo) ∧
    NoDup (destinations calcinfo).
Proof.
  eexists _, _. split; [vm_compute; reflexivity|].
  apply (plan_lists_are_not_checked copying_subclass add_calc
           {| tempfolder := ∅; inputdict := inputs_code_x_y |}).
  vm_compute. reflexivity.
Defined.

(** A plan with a duplicate destination is returned: for the inputs of
    Scenario A the subclass gets a plan in which the output file is both
    retrieved and the destination of a local copy, and nothing is raised. *)
Lemma duplicate_destination_is_returned :
  ∃ args' calcinfo,
    _prepare_for_submission_in copying_subclass add_calc
        {| tempfolder := ∅; inputdict := inputs_code_x_y |} = (args', Return calcinfo) ∧
    "aiida.out" ∈ retrieve_list calcinfo ∧
    "aiida.out" ∈ (local_copy_list calcinfo).*2 ∧
    ¬ NoDup (destinations calcinfo).
Proof.
  eexists _, _. split; [vm_compute; reflexivity|].
  split; [set_solver|]. split; [set_solver|].
  intros Hnd. apply NoDup_cons in Hnd as [Hout _]. apply Hout. set_solver.
Qed.

End AddFacts.

(* ===================================================================== *)
(** * Properties of [Data.export]                                         *)
(* ===================================================================== *)

Module DataFacts.
Import Data DataAux PyFacts.



Lemma path_not_empty path : path ≠ "" → String.eqb path "" = false.
Proof. intros Hne. by apply String.eqb_neq. Qed.



(** The target path itself exists. *)
Example export_existing_target :
  export bands "plot_data.dat" (Some "gnu") false ∅ disk_with_data_file =
    (disk_with_data_file,
     Raise (OSError (Format "A file was already found at {}" [PyStr "plot_data.dat"]))).
Proof. vm_compute. reflexivity. Qed.

(** On an empty disk both files are written, the additional file first. *)
Example export_writes_both_files :
  export bands "plot.gp" None false ∅ ∅ =
    (<["plot.gp" := [Byte.x70; Byte.x6c; Byte.x6f; Byte.x74]]>
       {["plot_data.dat" := [Byte.x31; Byte.x20; Byte.x32]]},
     Return ["plot_data.dat"; "plot.gp"]).
Proof. vm_compute. reflexivity. Qed.

(** With [overwrite] set, the existing data file is replaced. *)
Example export_overwrites_on_request :
  export bands "plot.gnu" None true ∅ disk_with_data_file =
    (<["plot.gnu" := [Byte.x70; Byte.x6c; Byte.x6f; Byte.x74]]>
       {["plot_data.dat" := [Byte.x31; Byte.x20; Byte.x32]]},
     Return ["plot_data.dat"; "plot.gnu"]).
Proof. vm_compute. reflexivity. Qed.

End DataFacts.

(* ===================================================================== *)
(** * Properties of the [md5] attribute of [CifData]                      *)
(* ===================================================================== *)

Module CifFacts.
Import Data Cif CifAux PyFacts.

Lemma differs_false attr_md5 md5 : differs attr_md5 md5 = false ↔ attr_md5 = PyStr md5.
Proof.
  destruct attr_md5; simpl; split; try done.
  - intros H. apply negb_false_iff, String.eqb_eq in H. by subst.
  - intros [= ->]. apply negb_false_iff, String.eqb_refl.
Qed.

Lemma set_source_empty : set_source (PyDict ∅) = _set_attr "source" (PyDict ∅).
Proof. reflexivity. Qed.

Section Methods.

Variable md5_file : bytes → string.
Variable SinglefileData_set_file : string → M CifData unit.
Variable SinglefileData_validate : CifData → Result unit.
Variable Node_store : M CifData unit.

Local Abbreviation generate_md5 := (generate_md5 md5_file).
Local Abbreviation set_file := (set_file md5_file SinglefileData_set_file).
Local Abbreviation store := (store md5_file Node_store).
Local Abbreviation _validate := (_validate md5_file SinglefileData_validate).
Local Abbreviation md5_consistent := (md5_consistent md5_file).

(** [set_file]: when it returns, the attribute is the hash of the file that
    the parent [set_file] has put in place, and a source whose [source_md5]
    disagrees with that hash has been replaced by the empty dictionary. *)
Lemma set_file_Return filename self self' :
  set_file filename self = (self', Return tt) →
  md5_consistent self' ∧
  ∃ self1 content,
    SinglefileData_set_file filename self = (self1, Return tt) ∧
    file self1 = Some content ∧ file self' = Some content ∧
    attributes self' !! "md5" = Some (PyStr (md5_file content)) ∧
    (source_md5_disagrees (default PyNone (attributes self1 !! "source")) (md5_file content)
       = true →
     attributes self' !! "source" = Some (PyDict ∅)).
Proof.
  unfold Cif.set_file, bind. intros Heq.
  destruct (SinglefileData_set_file filename self) as [self1 [[]|e]] eqn:E1; [|done].
  unfold Cif.generate_md5 at 1 in Heq.
  destruct (file self1) as [content|] eqn:Hfile; [|done].
  unfold ret, source, get_attr_default in Heq.
  destruct (source_md5_disagrees _ _) eqn:Hdis.
  - rewrite set_source_empty in Heq. unfold _set_attr, reset_caches in Heq. simpl in Heq.
    injection Heq as <-.
    assert (∀ attrs : gmap string PyObj,
              <["spacegroup_numbers" := PyNone]>
                (<["formulae" := PyNone]>
                   (<["md5" := PyStr (md5_file content)]>
                      (<["source" := PyDict ∅]> attrs))) !! "source" = Some (PyDict ∅)) as Hsrc.
    { intros attrs. repeat (rewrite lookup_insert_ne by done). by rewrite lookup_insert_eq. }
    split.
    + exists content. split; [done|]. simpl.
      repeat (rewrite lookup_insert_ne by done). by rewrite lookup_insert_eq.
    + exists self1, content. split; [done|]. split; [done|]. split; [done|]. split.
      * simpl. repeat (rewrite lookup_insert_ne by done). by rewrite lookup_insert_eq.
      * intros _. apply Hsrc.
  - unfold _set_attr, reset_caches in Heq. simpl in Heq.
    injection Heq as <-. split.
    + exists content. split; [done|]. simpl.
      repeat (rewrite lookup_insert_ne by done). by rewrite lookup_insert_eq.
    + exists self1, content. split; [done|]. split; [done|]. split; [done|]. split.
      * simpl. repeat (rewrite lookup_insert_ne by done). by rewrite lookup_insert_eq.
      * intros Htrue. rewrite Htrue in Hdis. discriminate Hdis.
Qed.

(** [store]: a node that is not yet stored is handed to [Node.store] with
    the attribute set to the hash of its file. *)
Lemma store_sets_md5 self content :
  is_stored self = false → file self = Some content →
  ∃ self1,
    md5_consistent self1 ∧ file self1 = Some content ∧
    attributes self1 = <["md5" := PyStr (md5_file content)]> (attributes self) ∧
    store self = Node_store self1.
Proof.
  intros Hstored Hfile. unfold Cif.store, bind, Cif.generate_md5, ret, _set_attr.
  rewrite Hstored, Hfile. simpl.
  eexists. split; [|split; [|split; [|reflexivity]]]; simpl; try done.
  exists content. simpl. split; [done|]. by rewrite lookup_insert_eq.
Qed.

(** [_validate], once the validation of the parent class has passed. *)
Lemma validate_Return self :
  SinglefileData_validate self = Return tt →
  _validate self = (self, Return tt) ↔ md5_consistent self.
Proof.
  intros Hsuper. unfold Cif._validate, bind, except_AttributeError, get_attr,
    Cif.generate_md5, raise, ret.
  rewrite Hsuper. split.
  - destruct (attributes self !! "md5") as [a|] eqn:Ha; [|done].
    destruct (file self) as [content|] eqn:Hfile; [|done].
    destruct (differs a (md5_file content)) eqn:Hd; [done|].
    intros _. apply differs_false in Hd as ->. by exists content.
  - intros (content & Hfile & Ha). rewrite Ha, Hfile.
    by rewrite (proj2 (differs_false _ _) eq_refl).
Qed.

Lemma validate_outcome self :
  SinglefileData_validate self = Return tt →
  _validate self = (self, Return tt) ∨
  ∃ msg, _validate self = (self, Raise (ValidationError msg)).
Proof.
  intros Hsuper. unfold Cif._validate, bind, except_AttributeError, get_attr,
    Cif.generate_md5, raise, ret.
  rewrite Hsuper.
  destruct (attributes self !! "md5") as [a|]; [|right; by eexists].
  destruct (file self) as [content|]; [|right; by eexists].
  destruct (differs a (md5_file content)); [right; by eexists | by left].
Qed.

(** C10. The [md5] attribute of a [CifData] node is kept equal to the MD5
    hash of its file: [set_file], when it returns, has stored the hash of the
    new file and has cleared a source whose [source_md5] disagrees with it;
    [store] sets the attribute of a node that is not yet stored before it hands
    the node to [Node.store]; and [_validate], once the validation of the
    parent class has passed, raises [ValidationError] exactly when the stored
    attribute is not the hash of the file, returning otherwise. *)
Theorem cif_md5_attribute_is_hash_of_file :
  (∀ filename self self',
     set_file filename self = (self', Return tt) →
     md5_consistent self' ∧
     ∃ self1 content,
       SinglefileData_set_file filename self = (self1, Return tt) ∧
       file self1 = Some content ∧ file self' = Some content ∧
       (source_md5_disagrees (default PyNone (attributes self1 !! "source"))
                             (md5_file content) = true →
        attributes self' !! "source" = Some (PyDict ∅))) ∧
  (∀ self content,
     is_stored self = false → file self = Some content →
     ∃ self1,
       md5_consistent self1 ∧ file self1 = Some content ∧ store self = Node_store self1) ∧
  (∀ self,
     SinglefileData_validate self = Return tt →
     (_validate self = (self, Return tt) ↔ md5_consistent self) ∧
     ((∃ msg, _validate self = (self, Raise (ValidationError msg))) ↔ ¬ md5_consistent self) ∧
     (∀ content attr_md5,
        file self = Some content → attributes self !! "md5" = Some attr_md5 →
        (∃ msg, _validate self = (self, Raise (ValidationError msg))) ↔
        attr_md5 ≠ PyStr (md5_file content))).
Proof.
  split; [|split].
  - intros filename self self' Heq.
    destruct (set_file_Return _ _ _ Heq) as (Hcons & self1 & content & H1 & H2 & H3 & _ & H5).
    split; [done|]. by exists self1, content.
  - intros self content Hstored Hfile.
    destruct (store_sets_md5 self content Hstored Hfile) as (self1 & H1 & H2 & _ & H4).
    by exists self1.
  - intros self Hsuper.
    pose proof (validate_Return self Hsuper) as Hret.
    assert ((∃ msg, _validate self = (self, Raise (ValidationError msg))) ↔
            ¬ md5_consistent self) as Hraise.
    { split.
      - intros [msg Hmsg] Hcons. apply Hret in Hcons. congruence.
      - intros Hnot. destruct (validate_outcome self Hsuper) as [Hok|Hbad]; [|done].
        by apply Hret in Hok. }
    split; [done|]. split; [done|].
    intros content attr_md5 Hfile Ha. rewrite Hraise. split.
    + intros Hnot ->. apply Hnot. by exists content.
    + intros Hne (content' & Hfile' & Ha'). congruence.
Qed.

End Methods.

(** A new node is given a file whose hash is not the one its source records:
    the attribute is set, the source is cleared, and validation passes. *)
Lemma cif_md5_attribute_after_set_file :
  ∃ self',
    set_file spell take_name_as_content "a.cif" fresh_cif = (self', Return tt) ∧
    md5_consistent spell self' ∧
    attributes self' !! "source" = Some (PyDict ∅) ∧
    _validate spell (fun _ => Return tt) self' = (self', Return tt).
Proof.
  eexists. split; [vm_compute; reflexivity|].
  pose proof (cif_md5_attribute_is_hash_of_file spell take_name_as_content
                (fun _ => Return tt) mark_stored) as (Hset & _ & Hval).
  destruct (Hset "a.cif" fresh_cif _ ltac:(vm_compute; reflexivity))
    as (Hcons & self1 & content & H1 & H2 & H3 & Hsrc).
  split; [exact Hcons|]. split.
  - vm_compute. reflexivity.
  - apply (Hval _ eq_refl). exact Hcons.
Defined.

(** A node whose attribute is stale fails validation. *)
Example stale_md5_is_rejected :
  _validate spell (fun _ => Return tt)
    {| attributes := {["md5" := PyStr "stale"]};
       is_stored := false;
       file := Some [Byte.x61];
       _values := None;
       _ase := None |}
  = ({| attributes := {["md5" := PyStr "stale"]};
        is_stored := false;
        file := Some [Byte.x61];
        _values := None;
        _ase := None |},
     Raise (ValidationError
              (Format "Attribute 'md5' says '{}' but '{}' was parsed instead."
                      [PyStr "stale"; PyStr "a"]))).
Proof. vm_compute. reflexivity. Qed.

End CifFacts.

(* ===================================================================== *)
(** * Properties of [configure]                                           *)
(* ===================================================================== *)

Module ComputerFacts.
Import Computer ComputerAux.

Lemma find_refused schema (params : gmap string string) k v :
  params !! k = Some v → refused schema (k, v) = true →
  ∃ k' v', List.find (refused schema) (map_to_list params) = Some (k', v') ∧
           params !! k' = Some v' ∧ refused schema (k', v') = true.
Proof.
  intros Hk Href.
  destruct (List.find (refused schema) (map_to_list params)) as [[k' v']|] eqn:Hfind.
  - apply find_some in Hfind as [Hin Hr].
    exists k', v'. split; [done|]. split; [|done].
    by apply elem_of_map_to_list, list_elem_of_In.
  - pose proof (find_none _ _ Hfind (k, v)) as Hnone.
    rewrite Hnone in Href; [done|].
    by apply list_elem_of_In, elem_of_map_to_list.
Qed.

(** C7. When [credential_params] holds a key that the schema of the
    transport kind of the target does not accept, [configure] fails with
    [InvalidParameterError]; the key it names is a key of [credential_params]
    that the schema refuses; and the stored credentials are the ones before the
    call, so that a pair of user and target that was not configured is still
    not configured. *)
Theorem configure_refuses_unaccepted_key (schema_of : string → Schema)
    (target : ExecutionTarget) (user : string)
    (credential_params : gmap string string) (credentials : Credentials) (k : string) :
  is_Some (credential_params !! k) →
  schema_of (transport_kind target) !! k = None →
  ∃ key v,
    credential_params !! key = Some v ∧
    refused (schema_of (transport_kind target)) (key, v) = true ∧
    configure schema_of target user credential_params credentials =
      (credentials, Raise (InvalidParameterError key)) ∧
    (is_configured target user credentials = false →
     is_configured target user
       (configure schema_of target user credential_params credentials).1 = false).
Proof.
  intros [v Hv] Hk.
  destruct (find_refused (schema_of (transport_kind target)) credential_params k v Hv)
    as (k' & v' & Hfind & Hin & Href).
  { unfold refused. simpl. by rewrite Hk. }
  exists k', v'. split; [done|]. split; [done|].
  unfold configure. rewrite Hfind. split; [done|]. done.
Qed.

Lemma configure_refuses_invalid_auth_param :
  is_Some (invalid_auth_params !! "invalid_auth_param") ∧
  test_schema_of (transport_kind ssh_computer) !! "invalid_auth_param" = None ∧
  ∃ key v,
    invalid_auth_params !! key = Some v ∧
    refused (test_schema_of (transport_kind ssh_computer)) (key, v) = true ∧
    configure test_schema_of ssh_computer "user@localhost" invalid_auth_params ∅ =
      (∅, Raise (InvalidParameterError key)) ∧
    (is_configured ssh_computer "user@localhost" ∅ = false →
     is_configured ssh_computer "user@localhost"
       (configure test_schema_of ssh_computer "user@localhost" invalid_auth_params ∅).1
     = false).
Proof.
  assert (is_Some (invalid_auth_params !! "invalid_auth_param")) as Hin
    by (vm_compute; eexists; reflexivity).
  assert (test_schema_of (transport_kind ssh_computer) !! "invalid_auth_param" = None) as Hno
    by (vm_compute; reflexivity).
  split; [exact Hin|]. split; [exact Hno|].
  exact (configure_refuses_unaccepted_key test_schema_of ssh_computer "user@localhost"
           invalid_auth_params ∅ "invalid_auth_param" Hin Hno).
Defined.

(** The three tests of [TestComputerConfigure]. *)
Example test_configure_ssh_invalid :
  configure test_schema_of ssh_computer "user@localhost" invalid_auth_params ∅ =
    (∅, Raise (InvalidParameterError "invalid_auth_param")).
Proof. vm_compute. reflexivity. Qed.

Example test_configure_ssh :
  is_configured ssh_computer "user@localhost"
    (configure test_schema_of ssh_computer "user@localhost" valid_auth_params ∅).1 = true.
Proof. vm_compute. reflexivity. Qed.

Example test_configure_local :
  is_configured local_computer "user@localhost"
    (configure test_schema_of local_computer "user@localhost" ∅ ∅).1 = true.
Proof. vm_compute. reflexivity. Qed.

End ComputerFacts.

(* ===================================================================== *)
(** * Further properties of [ArithmeticAddCalculation]                    *)
(* ===================================================================== *)

Module AddMoreFacts.
Import Add AddAux AddMoreAux PyFacts AddFacts.

Lemma gathered_frame link (raw : gmap string Node) keys acc l :
  l ∉ link <$> keys → gathered link raw keys acc !! l = acc !! l.
Proof.
  revert acc. induction keys as [|k keys IH]; intros acc Hl; [done|].
  rewrite fmap_cons in Hl. apply not_elem_of_cons in Hl as [Hne Hl].
  unfold gathered. simpl. fold (gathered link raw keys).
  destruct (raw !! k) as [v|].
  - fold (gathered link raw keys (<[link k := v]> acc)).
    rewrite (IH _ Hl). by rewrite lookup_insert_ne.
  - by apply IH.
Qed.

Lemma gathered_lookup link (raw : gmap string Node) keys acc k v :
  NoDup keys →
  (∀ k', k' ∈ keys → link k' = link k → k' = k) →
  k ∈ keys → raw !! k = Some v →
  gathered link raw keys acc !! link k = Some v.
Proof.
  revert acc. induction keys as [|k0 keys IH]; intros acc Hnd Hinj Hin Hk.
  - by apply elem_of_nil in Hin.
  - apply NoDup_cons in Hnd as [Hk0 Hnd].
    assert (∀ k', k' ∈ keys → link k' = link k → k' = k) as Hinj'
      by (intros; apply Hinj; [set_solver | done]).
    unfold gathered. simpl.
    apply elem_of_cons in Hin as [->|Hin].
    + rewrite Hk. fold (gathered link raw keys (<[link k0 := v]> acc)).
      rewrite gathered_frame; [by rewrite lookup_insert_eq|].
      intros (k' & Hl & Hk')%list_elem_of_fmap. apply Hk0.
      by rewrite <- (Hinj' k' Hk').
    + destruct (raw !! k0) as [v0|].
      * fold (gathered link raw keys (<[link k0 := v0]> acc)). by apply IH.
      * fold (gathered link raw keys acc). by apply IH.
Qed.

Lemma optional_loop_present self keys acc raw raw' res k v :
  optional_loop self keys acc raw = (raw', Return res) →
  NoDup keys →
  (∀ k', k' ∈ keys → get_linkname (base self) k' = get_linkname (base self) k → k' = k) →
  k ∈ keys → raw !! k = Some v →
  res !! get_linkname (base self) k = Some v.
Proof.
  revert acc raw. induction keys as [|k0 keys IH]; intros acc raw Heq Hnd Hinj Hin Hk.
  - by apply elem_of_nil in Hin.
  - apply NoDup_cons in Hnd as [Hk0 Hnd].
    assert (∀ k', k' ∈ keys →
              get_linkname (base self) k' = get_linkname (base self) k → k' = k) as Hinj'
      by (intros; apply Hinj; [set_solver | done]).
    simpl in Heq. unfold bind, except_KeyError, pop, lift, ret in Heq.
    apply elem_of_cons in Hin as [->|Hin].
    + rewrite Hk in Heq.
      rewrite (optional_loop_frame _ _ _ _ _ _ _ Heq); [by rewrite lookup_insert_eq|].
      intros (k' & Hl & Hk')%list_elem_of_fmap. apply Hk0.
      by rewrite <- (Hinj' k' Hk').
    + assert (k ≠ k0) as Hne by (intros ->; done).
      destruct (raw !! k0) as [v0|].
      * apply (IH _ _ Heq); try done. by rewrite lookup_delete_ne.
      * destruct (_get_input_valid_type self k0) as [c|e]; [|done].
        by apply (IH _ _ Heq).
Qed.

(** X1. The validated inputs are the raw nodes themselves. When the declared
    keys are distinct and have distinct link names, every required key is
    given and no key is unrecognized, [validate_input_nodes] returns, and the
    dictionary it returns holds, under the link name of every key of the raw
    inputs, the node that the raw inputs held under that key. *)
Theorem validate_returns_the_raw_nodes self (raw : gmap string Node) :
  well_declared self →
  distinct_inputs self →
  (∀ k, k ∈ _required_inputs self → is_Some (raw !! k)) →
  (∀ k, is_Some (raw !! k) → k ∈ _required_inputs self ∨ k ∈ _optional_inputs self) →
  ∃ input_nodes,
    validate_input_nodes self raw = (∅, Return input_nodes) ∧
    ∀ k v, raw !! k = Some v → input_nodes !! get_linkname (base self) k = Some v.
Proof.
  intros Hdecl [Hnd Hinj] Hall Hknown.
  destruct (validate_input_nodes_valid self raw Hdecl Hall Hknown) as (res & Hv & Hopt).
  exists res. split; [done|]. intros k v Hk.
  apply NoDup_app in Hnd as (Hndr & Hdisj & Hndo).
  destruct (decide (k ∈ _optional_inputs self)) as [Ho|Ho].
  - apply (optional_loop_present _ _ _ _ _ _ k v Hopt Hndo); [|done|].
    + intros k' Hk' Hl. apply Hinj; [set_solver | set_solver | done].
    + rewrite lookup_popped. destruct (decide (k ∈ _required_inputs self)) as [Hr|]; [|done].
      by destruct (Hdisj k Hr).
  - assert (k ∈ _required_inputs self) as Hr.
    { destruct (Hknown k) as [?|?]; [by rewrite Hk | done | done]. }
    rewrite (optional_loop_frame _ _ _ _ _ _ (get_linkname (base self) k) Hopt).
    + apply gathered_lookup; try done.
      intros k' Hk' Hl. apply Hinj; [set_solver | set_solver | done].
    + intros (k' & Hl & Hk')%list_elem_of_fmap. apply Ho.
      rewrite (Hinj k k'); [done | set_solver | set_solver | done].
Qed.

Lemma distinct_inputs_add_calc : distinct_inputs add_calc.
Proof.
  split.
  - apply (bool_decide_unpack _); vm_compute; exact I.
  - intros k1 k2 _ _ Hl. exact Hl.
Qed.

Lemma validate_returns_the_raw_nodes_scenario_A :
  ∃ input_nodes,
    validate_input_nodes add_calc inputs_code_x_y = (∅, Return input_nodes) ∧
    ∀ k v, inputs_code_x_y !! k = Some v →
           input_nodes !! get_linkname (base add_calc) k = Some v.
Proof.
  apply (validate_returns_the_raw_nodes add_calc inputs_code_x_y).
  - apply well_declared_init.
  - apply distinct_inputs_add_calc.
  - intros k Hk. simpl in Hk.
    repeat (apply elem_of_cons in Hk as [->|Hk]; [by vm_compute; eexists|]).
    by apply elem_of_nil in Hk.
  - intros k Hk. left. simpl. unfold inputs_code_x_y, inputs_code_x in Hk.
    destruct (decide (k = "y")) as [->|Hy]; [set_solver|].
    destruct (decide (k = "code")) as [->|Hc]; [set_solver|].
    destruct (decide (k = "x")) as [->|Hx]; [set_solver|].
    rewrite !lookup_insert_ne, lookup_empty in Hk by done. by destruct Hk.
Defined.

Lemma optional_loop_type_error self before k after e :
  (∀ j, j ∈ before → ∃ c, _get_input_valid_type self j = Return c) →
  _get_input_valid_type self k = Raise e →
  ∀ acc (raw : gmap string Node), raw !! k = None →
  ∃ raw', optional_loop self (before ++ k :: after) acc raw = (raw', Raise e).
Proof.
  intros Hbefore He.
  induction before as [|j before IH]; intros acc raw Hk.
  - simpl. unfold bind, except_KeyError, pop, lift. rewrite Hk, He. by eexists.
  - assert (∀ j', j' ∈ before → ∃ c, _get_input_valid_type self j' = Return c) as Hb
      by (intros; apply Hbefore; set_solver).
    simpl. unfold bind, except_KeyError, pop, lift, ret.
    destruct (raw !! j) as [v|] eqn:Hj.
    + apply (IH Hb). rewrite lookup_delete_ne; [done|]. intros ->. congruence.
    + destruct (Hbefore j) as [c Hc]; [set_solver|]. rewrite Hc. by apply (IH Hb).
Qed.

(** X2. An optional key that is absent from the raw inputs and whose
    use-method declares an empty tuple of valid types does not lead to
    [InputValidationError]: the [IndexError] of [valid_types[0]] is raised
    inside the handler of [KeyError] and leaves [validate_input_nodes] as it
    is. *)
Theorem validate_propagates_index_error self (raw : gmap string Node) before k after um :
  NoDup (_required_inputs self) →
  (∀ j, j ∈ _required_inputs self → is_Some (raw !! j)) →
  _optional_inputs self = (before ++ k :: after)%list →
  (∀ j, j ∈ before → ∃ c, _get_input_valid_type self j = Return c) →
  raw !! k = None →
  _use_methods self !! k = Some um →
  valid_types um = Tuple [] →
  ∃ raw', validate_input_nodes self raw = (raw', Raise IndexError).
Proof.
  intros Hnd Hall Hsplit Hbefore Hk Hum Hvt.
  assert (_get_input_valid_type self k = Raise IndexError) as He.
  { unfold _get_input_valid_type, _get_input_valid_types, getitem. by rewrite Hum, Hvt. }
  unfold validate_input_nodes, bind.
  rewrite (required_loop_present _ _ _ _ Hnd Hall), Hsplit.
  destruct (optional_loop_type_error self before k after IndexError Hbefore He
              (gathered (get_linkname (base self)) raw (_required_inputs self) ∅)
              (popped (_required_inputs self) raw)) as [raw' ->]; [|by eexists].
  rewrite lookup_popped. by destruct (decide (k ∈ _required_inputs self)).
Qed.

Lemma validate_propagates_index_error_z :
  ∃ raw', validate_input_nodes add_calc_optional_z inputs_code_x_y = (raw', Raise IndexError).
Proof.
  apply (validate_propagates_index_error add_calc_optional_z inputs_code_x_y
           [] "z" [] {| valid_types := Tuple [];
                        additional_parameter := None;
                        linkname := "z";
                        docstring := "an input of no type" |}).
  - apply (bool_decide_unpack _); vm_compute; exact I.
  - intros j Hj. simpl in Hj.
    repeat (apply elem_of_cons in Hj as [->|Hj]; [by vm_compute; eexists|]).
    by apply elem_of_nil in Hj.
  - reflexivity.
  - intros j Hj. by apply elem_of_nil in Hj.
  - vm_compute. reflexivity.
  - vm_compute. reflexivity.
  - reflexivity.
Defined.

(** ** [_prepare_for_submission] *)

(** X3. A call of [_prepare_for_submission] that raises has written nothing
    into the temporary folder. In particular an error of the validation of
    the inputs leaves the call unchanged, with the raw inputs as the validation
    left them. *)
Theorem prepare_for_submission_raises_before_writing self (args : PrepareArgs) :
  (∀ raw' e,
     validate_input_nodes self (inputdict args) = (raw', Raise e) →
     _prepare_for_submission self args =
       ({| tempfolder := tempfolder args; inputdict := raw' |}, Raise e)) ∧
  (∀ args' e,
     _prepare_for_submission self args = (args', Raise e) →
     tempfolder args' = tempfolder args ∧ inputdict args' ⊆ inputdict args).
Proof.
  split.
  - intros raw' e Hv.
    unfold _prepare_for_submission, bind, on_inputdict. by rewrite Hv.
  - intros args' e.
    unfold _prepare_for_submission, bind, on_inputdict, on_tempfolder, lift, getitem, ret.
    destruct (validate_input_nodes self (inputdict args)) as [raw' [nodes|e']] eqn:Hv.
    + apply validate_input_nodes_only_removes in Hv.
      destruct (nodes !! get_linkname (base self) "x") as [nx|];
        [|by intros [= <- _]].
      destruct (nodes !! get_linkname (base self) "y") as [ny|];
        [|by intros [= <- _]].
      destruct (nodes !! get_linkname (base self) "code") as [nc|];
        [|by intros [= <- _]].
      simpl. done.
    + apply validate_input_nodes_only_removes in Hv. by intros [= <- _].
Qed.

Lemma prepare_for_submission_raises_before_writing_scenario_B :
  _prepare_for_submission add_calc
    {| tempfolder := folder_with_readme; inputdict := inputs_code_x |} =
    ({| tempfolder := folder_with_readme; inputdict := ∅ |},
     Raise (InputValidationError
              (Format "required input '{}' was not specified" [PyStr "y"]))).
Proof.
  apply (proj1 (prepare_for_submission_raises_before_writing add_calc
                  {| tempfolder := folder_with_readme; inputdict := inputs_code_x |})).
  vm_compute. reflexivity.
Defined.

(** X4. For inputs with exactly the keys [code], [x] and [y], whose link names
    differ from one another, [_prepare_for_submission] empties the raw inputs,
    writes one file into the temporary folder, the input file, holding the
    values of [x] and [y] in this order, and leaves every other file of the
    folder as it is; the command line of the code is [-in] followed by the
    name of that file, and the [CalcInfo] carries the [uuid] of the
    calculation. *)
Theorem prepare_for_submission_writes_the_operands b folder (raw : gmap string Node)
    c nx ny :
  get_linkname b "code" ≠ get_linkname b "x" →
  get_linkname b "code" ≠ get_linkname b "y" →
  get_linkname b "x" ≠ get_linkname b "y" →
  dom raw = {["code"; "x"; "y"]} →
  raw !! "code" = Some c → raw !! "x" = Some nx → raw !! "y" = Some ny →
  _prepare_for_submission (_init_internal_params b)
    {| tempfolder := folder; inputdict := raw |} =
    ({| tempfolder :=
          <["aiida.in" := Format ("{} {}" ++ newline) [value nx; value ny]]> folder;
        inputdict := ∅ |},
     Return {| calcinfo_uuid := calc_uuid b;
               codes_info := [ {| cmdline_params := ["-in"; "aiida.in"];
                                  stdout_name := "aiida.out";
                                  code_uuid := uuid c |} ];
               retrieve_list := ["aiida.out"];
               local_copy_list := [];
               remote_copy_list := [] |}).
Proof.
  intros Hcx Hcy Hxy Hdom Hc Hx Hy.
  destruct (validate_input_nodes_valid (_init_internal_params b) raw) as (nodes & Hv & _).
  { apply well_declared_init. }
  { intros k Hk. apply elem_of_dom. rewrite Hdom. simpl in Hk. set_solver. }
  { intros k Hk. left. apply elem_of_dom in Hk. rewrite Hdom in Hk. simpl. set_solver. }
  destruct (validate_input_nodes_Return _ _ _ _ Hv) as (res1 & Hreq & Hopt & _).
  simpl in Hopt. injection Hopt as _ Hres1. subst res1.
  rewrite required_loop_present in Hreq.
  2: { simpl. repeat constructor; set_solver. }
  2: { intros k Hk. apply elem_of_dom. rewrite Hdom. simpl in Hk. set_solver. }
  injection Hreq as Hnodes. rewrite Hc, Hx, Hy in Hnodes.
  unfold _prepare_for_submission, bind, on_inputdict, on_tempfolder, lift, getitem, ret.
  cbn [inputdict tempfolder]. rewrite Hv. cbn [base _init_internal_params].
  subst nodes.
  rewrite (lookup_insert_ne _ (get_linkname b "y") (get_linkname b "x")) by done.
  rewrite lookup_insert_eq. rewrite lookup_insert_eq.
  rewrite lookup_insert_ne, lookup_insert_ne, lookup_insert_eq by done.
  reflexivity.
Qed.

Lemma prepare_for_submission_writes_the_operands_scenario_A :
  _prepare_for_submission (_init_internal_params plain_base)
    {| tempfolder := folder_with_readme; inputdict := inputs_code_x_y |} =
    ({| tempfolder :=
          <["aiida.in" := Format ("{} {}" ++ newline) [value node_2; value node_3]]>
            folder_with_readme;
        inputdict := ∅ |},
     Return {| calcinfo_uuid := calc_uuid plain_base;
               codes_info := [ {| cmdline_params := ["-in"; "aiida.in"];
                                  stdout_name := "aiida.out";
                                  code_uuid := uuid node_C |} ];
               retrieve_list := ["aiida.out"];
               local_copy_list := [];
               remote_copy_list := [] |}).
Proof.
  apply (prepare_for_submission_writes_the_operands plain_base folder_with_readme
           inputs_code_x_y node_C node_2 node_3); done.
Defined.

End AddMoreFacts.

(* ===================================================================== *)
(** * Further properties of [Data.export]                                 *)
(* ===================================================================== *)

Module DataMoreFacts.
Import Data DataAux DataMoreAux PyFacts DataFacts.

Lemma exists_false (fs : FileSystem) path : exists_ fs path = false ↔ fs !! path = None.
Proof. unfold exists_. by destruct (fs !! path). Qed.

Lemma check_extra_files_Return fnames (fs fs' : FileSystem) :
  check_extra_files fnames fs = (fs', Return tt) →
  fs' = fs ∧ ∀ f, f ∈ fnames → fs !! f = None.
Proof.
  induction fnames as [|f fnames IH]; simpl.
  - intros [= <-]. split; [done|]. intros f Hf. by apply elem_of_nil in Hf.
  - destruct (exists_ fs f) eqn:Hf; [done|]. intros Heq.
    destruct (IH Heq) as [-> Hall]. split; [done|].
    intros f' [->|Hin]%elem_of_cons; [by apply exists_false | by apply Hall].
Qed.

Lemma check_extra_files_absent fnames (fs : FileSystem) :
  (∀ f, f ∈ fnames → fs !! f = None) → check_extra_files fnames fs = (fs, Return tt).
Proof.
  induction fnames as [|f fnames IH]; intros Hall; [done|].
  simpl. rewrite (proj2 (exists_false fs f)) by (apply Hall; set_solver).
  apply IH. intros; apply Hall; set_solver.
Qed.

(** The files of [items], written one after the other. *)
Lemma write_extra_files_union items retlist (fs : FileSystem) :
  NoDup items.*1 →
  write_extra_files items retlist fs =
    (list_to_map items ∪ fs, Return (retlist ++ items.*1)%list).
Proof.
  revert retlist fs. induction items as [|[f content] items IH]; intros retlist fs Hnd.
  - simpl. unfold ret. by rewrite (left_id_L ∅ (∪)), app_nil_r.
  - rewrite fmap_cons in Hnd. apply NoDup_cons in Hnd as [Hf Hnd].
    simpl. unfold bind, write_file. rewrite (IH _ _ Hnd).
    f_equal.
    + rewrite <- insert_union_l. symmetry. apply insert_union_r.
      by apply not_elem_of_list_to_map_1.
    + f_equal. by rewrite <- app_assoc.
Qed.

Lemma write_extra_files_dict (extra_files : gmap string bytes) (fs : FileSystem) :
  write_extra_files (map_to_list extra_files) [] fs =
    (extra_files ∪ fs, Return (keys extra_files)).
Proof.
  rewrite write_extra_files_union by apply NoDup_fst_map_to_list.
  by rewrite list_to_map_to_list.
Qed.

Lemma exporters_nonempty {V} (m : gmap string V) k :
  m !! k = None → (0 <? length (keys m))%nat = false → m = ∅.
Proof.
  intros _ Hlen. apply map_to_list_empty_iff. unfold keys in Hlen.
  rewrite length_fmap in Hlen. destruct (map_to_list m); [done|]. done.
Qed.

(** X7. The empty path is refused first, with [ValueError]. For another path
    that may be written (it does not exist or [overwrite] is set), a format
    for which the class has no [_prepare_] method makes [export] raise
    [ValueError] before it writes anything; the message is filled with the
    format and the name of the class and, when the class implements some
    format, with the names of the implemented formats, joined by commas. *)
Theorem export_refuses_unknown_format self path fileformat overwrite kwargs (fs : FileSystem) :
  (path = "" →
   export self path fileformat overwrite kwargs fs =
     (fs, Raise (ValueError (Format "Path not recognized" [])))) ∧
  (∀ fmt,
     path ≠ "" →
     overwrite = true ∨ fs !! path = None →
     export_fileformat self path fileformat = Return fmt →
     _prepare_ self !! fmt = None →
     ∃ msg,
       export self path fileformat overwrite kwargs fs = (fs, Raise (ValueError msg)) ∧
       (_prepare_ self = ∅ → format_args msg = [PyStr fmt; PyStr (class_name self)]) ∧
       (_prepare_ self ≠ ∅ →
        format_args msg =
          [PyStr fmt; PyStr (class_name self);
           PyStr (String.concat "," (keys (_prepare_ self)))])).
Proof.
  split.
  - intros ->. reflexivity.
  - intros fmt Hpath Hfree Hfmt Hnone. unfold export. rewrite (path_not_empty _ Hpath).
    assert (exists_ fs path && negb overwrite = false) as ->.
    { destruct Hfree as [->|Hfree]; [by rewrite andb_false_r|].
      by rewrite (proj2 (exists_false _ _) Hfree). }
    unfold bind, lift. rewrite Hfmt. unfold _exportcontent, _get_exporters.
    cbv zeta. unfold Exporter in *. rewrite Hnone.
    destruct (0 <? length _)%nat eqn:Hlen.
    + eexists. split; [reflexivity|]. split; [|done].
      intros Hempty. rewrite Hempty in Hlen. done.
    + eexists. split; [reflexivity|]. split; [done|].
      intros Hne. destruct Hne. by eapply exporters_nonempty.
Qed.

Lemma export_refuses_unknown_format_xyz :
  ∃ msg,
    export bands "plot.xyz" None true ∅ disk_with_notes =
      (disk_with_notes, Raise (ValueError msg)) ∧
    (_prepare_ bands = ∅ → format_args msg = [PyStr "xyz"; PyStr (class_name bands)]) ∧
    (_prepare_ bands ≠ ∅ →
     format_args msg =
       [PyStr "xyz"; PyStr (class_name bands);
        PyStr (String.concat "," (keys (_prepare_ bands)))]).
Proof.
  apply (proj2 (export_refuses_unknown_format bands "plot.xyz" None true ∅ disk_with_notes)
           "xyz").
  - done.
  - by left.
  - vm_compute. reflexivity.
  - vm_compute. reflexivity.
Defined.

End DataMoreFacts.

(* ===================================================================== *)
(** * Properties of [Data.importfile]                                     *)
(* ===================================================================== *)

Module DataImportFacts.
Import Data DataAux DataImport DataImportAux.

Lemma is_dot_true c : is_dot c = true → c = "."%char.
Proof. unfold is_dot. apply Ascii.eqb_eq. Qed.

Lemma splitext_rev_last_field acc rest :
  splitext_rev acc rest ≠ [] →
  splitext_rev acc rest = "."%char :: last_field_rev acc rest.
Proof.
  revert acc. induction rest as [|c rest IH]; intros acc Hne; [done|].
  simpl in *. destruct (is_sep c) eqn:Hsep; [done|].
  destruct (is_dot c) eqn:Hdot.
  - destruct (existsb _ _); [|done]. by rewrite (is_dot_true _ Hdot).
  - by apply IH.
Qed.

Lemma substring_all s : String.substring 0 (String.length s) s = s.
Proof. induction s as [|c s IH]; [done|]. simpl. by rewrite IH. Qed.

Lemma export_fileformat_from_name self path fmt :
  export_fileformat self path None = Return fmt →
  fmt = default (split_dot_last path)
          (_custom_export_format_replacements self !! split_dot_last path).
Proof.
  unfold export_fileformat, splitext_1, split_dot_last.
  destruct (splitext_rev [] (rev (list_ascii_of_string path))) as [|c ext] eqn:Hext.
  - done.
  - assert (splitext_rev [] (rev (list_ascii_of_string path)) ≠ []) as Hne by by rewrite Hext.
    apply splitext_rev_last_field in Hne. rewrite Hext in Hne. injection Hne as -> ->.
    cbn [string_of_list_ascii String.prefix String.length].
    destruct (ascii_dec "." ".") as [_|Hbad]; [|done].
    set (field := string_of_list_ascii (last_field_rev [] (rev (list_ascii_of_string path)))).
    assert (String.prefix "" field = true) as -> by by destruct field.
    replace (S (String.length field) - 1) with (String.length field) by lia.
    cbn [String.substring]. rewrite substring_all.
    destruct (String.eqb field ""); [done|]. by intros [= <-].
Qed.

(** X8. The format that [export] finds from the name of a file is the format
    that [importfile] finds from the same name, up to the custom replacements
    of the exporting class: when [export] finds a format and the class has no
    replacement for the text after the last dot, importing the file without a
    format is importing it under the format of the export. *)
Theorem importfile_finds_the_export_format {S} (open_read : string → Result string)
    (importing : Importing S) (self : Data) path fmt :
  export_fileformat self path None = Return fmt →
  _custom_export_format_replacements self !! split_dot_last path = None →
  fmt = split_dot_last path ∧
  importfile open_read importing path None = importfile open_read importing path (Some fmt).
Proof.
  intros Hfmt Hrepl. apply export_fileformat_from_name in Hfmt.
  rewrite Hrepl in Hfmt. simpl in Hfmt. subst fmt. done.
Qed.

Lemma importfile_finds_the_export_format_gnu :
  "gnu" = split_dot_last "old/plot.gnu" ∧
  importfile read_plot plot_reader "old/plot.gnu" None =
    importfile read_plot plot_reader "old/plot.gnu" (Some "gnu").
Proof.
  apply (importfile_finds_the_export_format read_plot plot_reader bands "old/plot.gnu" "gnu").
  - vm_compute. reflexivity.
  - vm_compute. reflexivity.
Defined.





End DataImportFacts.

(* ===================================================================== *)
(** * Further properties of [Data.source] and of [CifData]                *)
(* ===================================================================== *)

Module CifMoreFacts.
Import Data Cif CifAux CifMoreAux PyFacts CifFacts.

Lemma filter_nil_iff {A} (f : A → bool) (l : list A) :
  List.filter f l = [] ↔ ∀ x, x ∈ l → f x = false.
Proof.
  induction l as [|a l IH]; simpl.
  - split; [|done]. intros _ x Hx. by apply elem_of_nil in Hx.
  - destruct (f a) eqn:Ha.
    + split; [done|]. intros Hall. rewrite Hall in Ha; [done | set_solver].
    + rewrite IH. split.
      * intros Hall x [->|Hx]%elem_of_cons; [done | by apply Hall].
      * intros Hall x Hx. apply Hall. set_solver.
Qed.

(** X10. The setter of [source] accepts exactly the dictionaries whose keys are
    all among [_source_attributes]. An accepted dictionary is what [source]
    returns afterwards, and no other attribute changes; a dictionary with
    another key is refused with [KeyError] and anything that is not a
    dictionary with [ValueError], the node staying as it was. *)
Theorem source_setter_accepts_known_fields (self : CifData) :
  (∀ d, (∀ k, is_Some (d !! k) → k ∈ _source_attributes) →
        ∃ self',
          set_source (PyDict d) self = (self', Return tt) ∧
          source self' = (self', Return (PyDict d)) ∧
          (∀ key, key ≠ "source" → attributes self' !! key = attributes self !! key) ∧
          file self' = file self ∧ is_stored self' = is_stored self) ∧
  (∀ d k, is_Some (d !! k) → k ∉ _source_attributes →
          ∃ msg, set_source (PyDict d) self = (self, Raise (KeyError msg))) ∧
  (∀ src, (∀ d, src ≠ PyDict d) →
          set_source src self =
            (self, Raise (ValueError (Format "Source must be supplied as a dictionary" [])))).
Proof.
  split; [|split].
  - intros d Hknown. unfold set_source.
    assert (List.filter (fun k => negb (bool_decide (k ∈ _source_attributes))) (keys d) = [])
      as ->.
    { apply filter_nil_iff. intros k Hk. apply elem_of_keys in Hk.
      apply negb_false_iff, bool_decide_eq_true. by apply Hknown. }
    eexists. split; [reflexivity|]. unfold source, get_attr_default. simpl.
    rewrite lookup_insert_eq. split; [done|]. split; [|done].
    intros key Hkey. by rewrite lookup_insert_ne.
  - intros d k Hk Hunknown. unfold set_source.
    destruct (List.filter _ (keys d)) as [|k' ks] eqn:Hf; [|by eexists].
    exfalso. pose proof (proj1 (filter_nil_iff _ _) Hf k) as Hfalse.
    apply elem_of_keys in Hk. specialize (Hfalse Hk).
    apply negb_false_iff, bool_decide_eq_true in Hfalse. done.
  - intros src Hnot. destruct src; try done. by destruct (Hnot d).
Qed.

Lemma source_setter_accepts_cod_source :
  ∃ self',
    set_source (PyDict cod_source) fresh_cif = (self', Return tt) ∧
    source self' = (self', Return (PyDict cod_source)) ∧
    (∀ key, key ≠ "source" → attributes self' !! key = attributes fresh_cif !! key) ∧
    file self' = file fresh_cif ∧ is_stored self' = is_stored fresh_cif.
Proof.
  apply (proj1 (source_setter_accepts_known_fields fresh_cif) cod_source).
  intros k Hk. apply elem_of_dom in Hk. unfold cod_source in Hk.
  rewrite !dom_insert_L, dom_singleton_L in Hk. unfold _source_attributes.
  set_solver.
Defined.

Example source_setter_refuses_odd_source :
  set_source (PyDict odd_source) fresh_cif =
    (fresh_cif, Raise (KeyError "Unknown source parameters: colour")).
Proof. vm_compute. reflexivity. Qed.

Section Methods.

Variable md5_file : bytes → string.
Variable SinglefileData_set_file : string → M CifData unit.
Variable SinglefileData_validate : CifData → Result unit.
Variable Node_store : M CifData unit.

Local Abbreviation set_file := (set_file md5_file SinglefileData_set_file).
Local Abbreviation store := (store md5_file Node_store).
Local Abbreviation _validate := (_validate md5_file SinglefileData_validate).

(** X11. [set_file] forgets what was parsed from the previous file: when it
    returns, both caches are empty and the attributes [formulae] and
    [spacegroup_numbers] are [None]. When the parent [set_file] leaves the
    node without a file, [set_file] raises [ValidationError] and the node is
    as the parent left it, with its old [md5] attribute. *)
Theorem set_file_forgets_parsed_values filename self :
  (∀ self',
     set_file filename self = (self', Return tt) →
     _values self' = None ∧ _ase self' = None ∧
     attributes self' !! "formulae" = Some PyNone ∧
     attributes self' !! "spacegroup_numbers" = Some PyNone) ∧
  (∀ self1,
     SinglefileData_set_file filename self = (self1, Return tt) →
     file self1 = None →
     set_file filename self =
       (self1, Raise (ValidationError (Format "No valid CIF was passed!" [])))).
Proof.
  split.
  - unfold Cif.set_file, bind. intros self' Heq.
    destruct (SinglefileData_set_file filename self) as [self1 [[]|e]]; [|done].
    unfold Cif.generate_md5 at 1 in Heq.
    destruct (file self1) as [content|]; [|done].
    unfold ret, source, get_attr_default in Heq.
    destruct (source_md5_disagrees _ _).
    + rewrite set_source_empty in Heq. unfold _set_attr, reset_caches in Heq.
      simpl in Heq. injection Heq as <-. simpl.
      split; [done|]. split; [done|]. split; lookup_inserted.
    + unfold _set_attr, reset_caches in Heq. simpl in Heq. injection Heq as <-. simpl.
      split; [done|]. split; [done|]. split; lookup_inserted.
  - intros self1 Hparent Hfile. unfold Cif.set_file, bind. rewrite Hparent.
    unfold Cif.generate_md5. by rewrite Hfile.
Qed.

(** X12. A node that [set_file] or [store] has left passes the check of
    [_validate]. If [set_file] returns and the validation of the parent class
    passes on the result, [_validate] returns on it; and if [store] returns on
    a node that was not stored, [Node.store] keeps attributes and file, and the
    validation of the parent class passes, [_validate] returns as well. *)
Theorem validate_passes_after_set_file_and_store :
  (∀ filename self self',
     set_file filename self = (self', Return tt) →
     SinglefileData_validate self' = Return tt →
     _validate self' = (self', Return tt)) ∧
  (keeps_content Node_store →
   ∀ self self',
     is_stored self = false →
     store self = (self', Return tt) →
     SinglefileData_validate self' = Return tt →
     _validate self' = (self', Return tt)).
Proof.
  split.
  - intros filename self self' Hset Hsuper.
    apply (validate_Return md5_file SinglefileData_validate self' Hsuper).
    by destruct (set_file_Return md5_file SinglefileData_set_file _ _ _ Hset) as [Hcons _].
  - intros Hkeeps self self' Hstored Hstore Hsuper.
    apply (validate_Return md5_file SinglefileData_validate self' Hsuper).
    destruct (file self) as [content|] eqn:Hfile.
    + destruct (store_sets_md5 md5_file Node_store self content Hstored Hfile)
        as (self1 & (content1 & Hf1 & Ha1) & _ & _ & Heq).
      rewrite Heq in Hstore. destruct (Hkeeps _ _ Hstore) as [Hattrs Hf].
      exists content1. by rewrite Hf, Hattrs.
    + unfold Cif.store, bind, Cif.generate_md5, raise in Hstore.
      rewrite Hstored, Hfile in Hstore. done.
Qed.

End Methods.

Lemma set_file_forgets_parsed_values_of_parsed_cif :
  ∃ self',
    set_file spell take_name_as_content "b.cif" parsed_cif = (self', Return tt) ∧
    _values self' = None ∧ _ase self' = None ∧
    attributes self' !! "formulae" = Some PyNone ∧
    attributes self' !! "spacegroup_numbers" = Some PyNone.
Proof.
  eexists. split; [vm_compute; reflexivity|].
  apply (proj1 (set_file_forgets_parsed_values spell take_name_as_content "b.cif" parsed_cif)).
  vm_compute. reflexivity.
Defined.

Lemma validate_passes_after_store_of_parsed_cif :
  ∃ self',
    store spell mark_stored parsed_cif = (self', Return tt) ∧
    _validate spell (fun _ => Return tt) self' = (self', Return tt).
Proof.
  eexists. split; [vm_compute; reflexivity|].
  apply (proj2 (validate_passes_after_set_file_and_store spell take_name_as_content
                  (fun _ => Return tt) mark_stored)) with (self := parsed_cif).
  - intros self self' [= <-]. done.
  - reflexivity.
  - vm_compute. reflexivity.
  - reflexivity.
Defined.

End CifMoreFacts.

(* ===================================================================== *)
(** * Properties of the queries on the parsed values of a CIF file        *)
(* ===================================================================== *)

Module CifValuesFacts.
Import CifValues CifValuesAux PyFacts.

Lemma attached_among_true vals :
  attached_among vals = true ↔
  ∃ val, val ∈ vals ∧ val ≠ "." ∧ val ≠ "?" ∧ val ≠ "0".
Proof.
  induction vals as [|val vals IH]; simpl.
  - split; [done|]. intros (val & Hin & _). by apply elem_of_nil in Hin.
  - destruct (String.eqb_spec val "."), (String.eqb_spec val "?"), (String.eqb_spec val "0");
      simpl; rewrite ?IH; try (split; [intros (v & Hv & H1 & H2 & H3); exists v; set_solver |
                                      intros (v & [->|Hv]%elem_of_cons & H1 & H2 & H3);
                                      [done | by exists v]]).
    split; [|done]. intros _. exists val. set_solver.
Qed.

Lemma attached_in_blocks_true datablocks :
  attached_in_blocks datablocks = true ↔
  ∃ datablock v val,
    datablock ∈ datablocks ∧
    datablock.2 !! "_atom_site_attached_hydrogens" = Some v ∧
    val ∈ iterate v ∧ val ≠ "." ∧ val ≠ "?" ∧ val ≠ "0".
Proof.
  induction datablocks as [|datablock datablocks IH]; simpl.
  - split; [done|]. intros (d & v & val & Hin & _). by apply elem_of_nil in Hin.
  - destruct (datablock.2 !! "_atom_site_attached_hydrogens") as [v|] eqn:Hv.
    + destruct (attached_among (iterate v)) eqn:Ha.
      * split; [|done]. intros _. apply attached_among_true in Ha as (val & Hval & Hne).
        exists datablock, v, val. split; [set_solver|]. done.
      * rewrite IH. split.
        -- intros (d & v' & val & Hin & H). exists d, v', val. split; [set_solver | done].
        -- intros (d & v' & val & [->|Hin]%elem_of_cons & Hv' & Hval & Hne).
           ++ rewrite Hv in Hv'. injection Hv' as <-.
              assert (attached_among (iterate v) = true) as Ht
                by (apply attached_among_true; by exists val).
              congruence.
           ++ by exists d, v', val.
    + rewrite IH. split.
      * intros (d & v' & val & Hin & H). exists d, v', val. split; [set_solver | done].
      * intros (d & v' & val & [->|Hin]%elem_of_cons & Hv' & H); [congruence|].
        by exists d, v', val.
Qed.

(** X13. [has_attached_hydrogens] is [True] exactly when some datablock holds,
    under the tag [_atom_site_attached_hydrogens], a value other than ["."],
    ["?"] and ["0"]. A value that is one string is read character by
    character. *)
Theorem has_attached_hydrogens_iff (values : Values) :
  has_attached_hydrogens values = true ↔
  ∃ name (block : Block) v val,
    values !! name = Some block ∧
    block !! "_atom_site_attached_hydrogens" = Some v ∧
    val ∈ iterate v ∧ val ≠ "." ∧ val ≠ "?" ∧ val ≠ "0".
Proof.
  unfold has_attached_hydrogens. rewrite attached_in_blocks_true. split.
  - intros ([name block] & v & val & Hin & H). apply elem_of_map_to_list in Hin.
    by exists name, block, v, val.
  - intros (name & block & v & val & Hin & H). exists (name, block), v, val.
    split; [by apply elem_of_map_to_list | done].
Qed.

Lemma forallb_false {A} (f : A → bool) (l : list A) :
  forallb f l = false ↔ ∃ x, x ∈ l ∧ f x = false.
Proof.
  induction l as [|a l IH]; simpl.
  - split; [done|]. intros (x & Hx & _). by apply elem_of_nil in Hx.
  - destruct (f a) eqn:Ha; simpl.
    + rewrite IH. split.
      * intros (x & Hx & Hf). exists x. split; [set_solver | done].
      * intros (x & [->|Hx]%elem_of_cons & Hf); [congruence | by exists x].
    + split; [|done]. intros _. exists a. split; [set_solver | done].
Qed.

Lemma elem_of_fract_coordinates (block : Block) coord :
  coord ∈ fract_coordinates block ↔
  ∃ tag v, tag ∈ fract_tags ∧ block !! tag = Some v ∧ coord ∈ iterate v.
Proof.
  unfold fract_coordinates. rewrite list_elem_of_join. split.
  - intros (l & Hcoord & (tag & -> & Htag)%list_elem_of_fmap).
    destruct (block !! tag) as [v|] eqn:Hv; [|by apply elem_of_nil in Hcoord].
    by exists tag, v.
  - intros (tag & v & Htag & Hv & Hcoord). exists (iterate v). split; [done|].
    apply list_elem_of_fmap. exists tag. by rewrite Hv.
Qed.

(** X14. [has_atomic_sites] is [True] exactly when some datablock holds, under
    one of the three tags of the fractional coordinates, a value other than
    ["?"]; without any coordinate it is [False]. *)
Theorem has_atomic_sites_iff (values : Values) :
  has_atomic_sites values = true ↔
  ∃ name (block : Block) tag v coord,
    values !! name = Some block ∧ tag ∈ fract_tags ∧
    block !! tag = Some v ∧ coord ∈ iterate v ∧ coord ≠ "?".
Proof.
  unfold has_atomic_sites. rewrite negb_true_iff, forallb_false. split.
  - intros (coord & Hin & Hne). apply list_elem_of_join in Hin as (l & Hcoord & Hl).
    apply list_elem_of_fmap in Hl as ([name block] & -> & Hblock).
    apply elem_of_map_to_list in Hblock.
    apply elem_of_fract_coordinates in Hcoord as (tag & v & Htag & Hv & Hcoord).
    exists name, block, tag, v, coord. repeat split; try done.
    by apply String.eqb_neq.
  - intros (name & block & tag & v & coord & Hblock & Htag & Hv & Hcoord & Hne).
    exists coord. split; [|by apply String.eqb_neq].
    apply list_elem_of_join. exists (fract_coordinates block). split.
    + apply elem_of_fract_coordinates. by exists tag, v.
    + apply list_elem_of_fmap. exists (name, block). split; [done|].
      by apply elem_of_map_to_list.
Qed.

Example no_coordinates_but_attached_hydrogens :
  has_atomic_sites values_without_coordinates = false ∧
  has_attached_hydrogens values_without_coordinates = true.
Proof. split; vm_compute; reflexivity. Qed.

(** ** [parse_formula] *)

Lemma elem_of_take_while {A} (f : A → bool) (l : list A) x :
  x ∈ take_while f l → x ∈ l ∧ f x = true.
Proof.
  induction l as [|a l IH]; simpl; [by intros ?%elem_of_nil|].
  destruct (f a) eqn:Ha; [|by intros ?%elem_of_nil].
  intros [->|Hx]%elem_of_cons; [split; [set_solver | done]|].
  destruct (IH Hx). split; [set_solver | done].
Qed.

Lemma re_split_spaces_no_space field in_spaces s part :
  (∀ c, c ∈ field → is_space c = false) →
  part ∈ re_split_spaces field in_spaces s →
  ∀ c, c ∈ list_ascii_of_string part → is_space c = false.
Proof.
  revert field in_spaces. induction s as [|a s IH]; intros field in_spaces Hfield; simpl.
  - intros ->%list_elem_of_singleton c Hc.
    rewrite list_ascii_of_string_of_list_ascii in Hc.
    apply Hfield. by apply list_elem_of_In, in_rev, list_elem_of_In.
  - destruct (is_space a) eqn:Ha.
    + destruct in_spaces.
      * by apply IH.
      * intros [->|Hpart]%elem_of_cons.
        -- intros c Hc. rewrite list_ascii_of_string_of_list_ascii in Hc.
           apply Hfield. by apply list_elem_of_In, in_rev, list_elem_of_In.
        -- revert Hpart. apply IH. intros c Hc. by apply elem_of_nil in Hc.
    + apply IH. intros c [->|Hc]%elem_of_cons; [done | by apply Hfield].
Qed.

Lemma re_match_specie part specie quantity :
  re_match_specie_quantity part = Some (specie, quantity) →
  specie ≠ "" ∧
  ∀ c, c ∈ list_ascii_of_string specie →
       c ∈ list_ascii_of_string part ∧ is_digit c = false.
Proof.
  unfold re_match_specie_quantity.
  destruct (take_while _ (list_ascii_of_string part)) as [|a l] eqn:Htake; [done|].
  intros [= <- _]. split; [done|].
  intros c Hc. simpl in Hc. rewrite list_ascii_of_string_of_list_ascii, <- Htake in Hc.
  apply elem_of_take_while in Hc as [Hin Hd]. split; [done|]. by apply negb_true_iff.
Qed.

Lemma parse_parts_species parts contents contents' :
  (∀ part, part ∈ parts → ∀ c, c ∈ list_ascii_of_string part → is_space c = false) →
  (∀ specie, is_Some (contents !! specie) → is_symbol specie) →
  parse_parts parts contents = Return contents' →
  ∀ specie, is_Some (contents' !! specie) → is_symbol specie.
Proof.
  revert contents. induction parts as [|part parts IH]; intros contents Hparts Hinv; simpl.
  - by intros [= <-].
  - assert (∀ p, p ∈ parts → ∀ c, c ∈ list_ascii_of_string p → is_space c = false) as Hparts'
      by (intros p Hp; apply Hparts; set_solver).
    destruct (re_match_specie_quantity part) as [[specie quantity]|] eqn:Hmatch;
      [|by apply IH].
    destruct (to_quantity quantity) as [q|e]; [|done].
    apply IH; [done|]. intros specie' Hsome.
    destruct (decide (specie = specie')) as [<-|Hne].
    + apply re_match_specie in Hmatch as [Hnonempty Hchars]. split; [done|].
      intros c Hc. destruct (Hchars c Hc) as [Hin Hd]. split; [done|].
      apply (Hparts part); [set_solver | done].
    + rewrite lookup_insert_ne in Hsome by done. by apply Hinv.
Qed.

(** X15. Every specie that [parse_formula] returns is a symbol: it is not
    empty and holds neither a digit nor a space. *)
Theorem parse_formula_returns_symbols formula contents :
  parse_formula formula = Return contents →
  ∀ specie, is_Some (contents !! specie) → is_symbol specie.
Proof.
  unfold parse_formula. apply parse_parts_species.
  - intros part Hpart.
    apply (re_split_spaces_no_space [] false (list_ascii_of_string formula) part); [|done].
    intros c Hc. by apply elem_of_nil in Hc.
  - intros specie [q Hq]. by rewrite lookup_empty in Hq.
Qed.

Lemma parse_formula_returns_symbols_ethanol :
  parse_formula "C2 H6 O" = Return {["C" := QInt 2; "H" := QInt 6; "O" := QInt 1]} ∧
  is_symbol "H".
Proof.
  assert (parse_formula "C2 H6 O" = Return {["C" := QInt 2; "H" := QInt 6; "O" := QInt 1]})
    as Hparse by (vm_compute; reflexivity).
  split; [exact Hparse|].
  apply (parse_formula_returns_symbols "C2 H6 O" _ Hparse "H").
  vm_compute. eexists. reflexivity.
Defined.

(** ** Formulae written with spaces for separators *)

Lemma list_ascii_of_string_app (a b : string) :
  list_ascii_of_string (a ++ b) = (list_ascii_of_string a ++ list_ascii_of_string b)%list.
Proof. induction a as [|c a IH]; [done|]. simpl. by rewrite IH. Qed.

Lemma re_split_spaces_word w field in_spaces rest :
  (∀ c, c ∈ w → is_space c = false) →
  w ≠ [] ∨ in_spaces = false →
  re_split_spaces field in_spaces (w ++ rest) =
    re_split_spaces (rev w ++ field) false rest.
Proof.
  revert field in_spaces. induction w as [|c w IH]; intros field in_spaces Hw Hb.
  - destruct Hb as [?| ->]; done.
  - simpl. rewrite (Hw c) by set_solver.
    rewrite IH; [|intros; apply Hw; set_solver | by right].
    by rewrite <- app_assoc.
Qed.

Lemma re_split_spaces_concat parts in_spaces :
  parts ≠ [] →
  (∀ part, part ∈ parts →
     part ≠ "" ∧ ∀ c, c ∈ list_ascii_of_string part → is_space c = false) →
  re_split_spaces [] in_spaces (list_ascii_of_string (String.concat " " parts)) = parts.
Proof.
  revert in_spaces. induction parts as [|part parts IH]; intros in_spaces Hne Hparts; [done|].
  destruct (Hparts part) as [Hpart Hchars]; [set_solver|].
  assert (list_ascii_of_string part ≠ []) as Hnonempty by (by destruct part).
  destruct parts as [|part' parts].
  - simpl. rewrite <- (app_nil_r (list_ascii_of_string part)).
    rewrite re_split_spaces_word by (done || by left).
    simpl. by rewrite app_nil_r, rev_involutive, string_of_list_ascii_of_string.
  - change (String.concat " " (part :: part' :: parts))
      with (part ++ " " ++ String.concat " " (part' :: parts)).
    rewrite list_ascii_of_string_app.
    rewrite re_split_spaces_word by (done || by left).
    rewrite app_nil_r. simpl.
    rewrite rev_involutive, string_of_list_ascii_of_string. f_equal.
    apply IH; [done|]. intros p Hp. apply Hparts. set_solver.
Qed.

Lemma take_while_app_stop {A} (f : A → bool) (l1 l2 : list A) :
  (∀ x, x ∈ l1 → f x = true) →
  match l2 with [] => True | y :: _ => f y = false end →
  take_while f (l1 ++ l2) = l1 ∧ drop_while f (l1 ++ l2) = l2.
Proof.
  intros Hl1 Hl2. induction l1 as [|a l1 IH]; simpl.
  - destruct l2 as [|y l2]; [done|]. simpl. by rewrite Hl2.
  - rewrite (Hl1 a) by set_solver.
    destruct IH as [-> ->]; [intros; apply Hl1; set_solver|]. done.
Qed.

Lemma take_while_all {A} (f : A → bool) (l : list A) :
  (∀ x, x ∈ l → f x = true) → take_while f l = l.
Proof.
  intros Hl. destruct (take_while_app_stop f l [] Hl I) as [Ht _].
  by rewrite app_nil_r in Ht.
Qed.

Lemma forallb_true {A} (f : A → bool) (l : list A) :
  (∀ x, x ∈ l → f x = true) → forallb f l = true.
Proof.
  intros Hl. apply forallb_forall. intros x Hx. by apply Hl, list_elem_of_In.
Qed.

Lemma digit_is_no_space c : is_digit c = true → is_space c = false.
Proof.
  destruct c as [[|] [|] [|] [|] [|] [|] [|] [|]]; vm_compute; congruence.
Qed.

(** A symbol followed by digits is read as the symbol and the number. *)
Lemma re_match_symbol_digits specie digits :
  is_symbol specie →
  digits ≠ "" → (∀ c, c ∈ list_ascii_of_string digits → is_digit c = true) →
  re_match_specie_quantity (specie ++ digits) = Some (specie, Some digits) ∧
  to_quantity (Some digits) = Return (QInt (int_of_digits digits)).
Proof.
  intros [Hne Hsym] Hdigits Hall. split.
  - unfold re_match_specie_quantity. rewrite list_ascii_of_string_app.
    destruct (take_while_app_stop (fun c => negb (is_digit c))
                (list_ascii_of_string specie) (list_ascii_of_string digits)) as [-> ->].
    { intros c Hc. apply negb_true_iff. by apply Hsym. }
    { destruct digits as [|d digits]; [done|]. simpl. apply negb_false_iff, Hall.
      simpl. set_solver. }
    rewrite take_while_all.
    2: { intros c Hc. by rewrite (Hall c Hc), orb_true_r. }
    rewrite !string_of_list_ascii_of_string.
    destruct specie; [done|]. destruct digits; done.
  - unfold to_quantity. by rewrite forallb_true.
Qed.

Lemma string_of_uint_digits d c :
  c ∈ list_ascii_of_string (NilEmpty.string_of_uint d) → is_digit c = true.
Proof.
  induction d; simpl; try (by intros ?%elem_of_nil);
    intros [->|Hc]%elem_of_cons; (reflexivity || by apply IHd).
Qed.

Lemma str_int_digits n :
  str_int n ≠ "" ∧
  (∀ c, c ∈ list_ascii_of_string (str_int n) → is_digit c = true) ∧
  int_of_digits (str_int n) = n.
Proof.
  unfold str_int, int_of_digits. split; [|split].
  - assert (N.to_uint n ≠ Decimal.Nil) as Hnil.
    { destruct n; [done|]. apply DecimalPos.Unsigned.to_uint_nonnil. }
    by destruct (N.to_uint n).
  - intros c. apply string_of_uint_digits.
  - rewrite NilEmpty.usu. apply DecimalN.Unsigned.of_to.
Qed.

Lemma parse_parts_tokens (tokens : list (string * N)) contents :
  (∀ token, token ∈ tokens → is_symbol token.1) →
  parse_parts ((fun token : string * N => token.1 ++ str_int token.2) <$> tokens) contents =
    Return (foldl (fun contents (token : string * N) =>
                     <[token.1 := QInt token.2]> contents) contents tokens).
Proof.
  revert contents. induction tokens as [|[specie n] tokens IH]; intros contents Hsym; [done|].
  destruct (str_int_digits n) as (Hne & Hdigits & Hint).
  destruct (re_match_symbol_digits specie (str_int n)) as [Hmatch Hq]; [|done..|].
  { apply (Hsym (specie, n)). set_solver. }
  rewrite fmap_cons. cbn [parse_parts fst snd]. rewrite Hmatch, Hq, Hint.
  apply IH. intros token Htoken. apply Hsym. set_solver.
Qed.

Lemma foldl_insert_tokens (tokens : list (string * N)) (contents : gmap string Quantity) :
  NoDup tokens.*1 →
  foldl (fun contents (token : string * N) => <[token.1 := QInt token.2]> contents)
        contents tokens =
    hill_contents tokens ∪ contents.
Proof.
  unfold hill_contents.
  revert contents. induction tokens as [|[specie n] tokens IH]; intros contents Hnd.
  - simpl. by rewrite (left_id_L ∅ (∪)).
  - rewrite fmap_cons in Hnd. apply NoDup_cons in Hnd as [Hspecie Hnd].
    simpl. rewrite (IH _ Hnd). rewrite <- insert_union_l. symmetry. apply insert_union_r.
    apply not_elem_of_list_to_map_1. rewrite <- list_fmap_compose.
    intros Hin. apply Hspecie. simpl in *.
    apply list_elem_of_fmap in Hin as (token & -> & Htoken).
    apply list_elem_of_fmap. by exists token.
Qed.

Lemma parse_formula_reads_symbols (tokens : list (string * N)) :
  (∀ token, token ∈ tokens → is_symbol token.1) →
  NoDup tokens.*1 →
  parse_formula (hill_formula tokens) = Return (hill_contents tokens).
Proof.
  intros Hsym Hnd. unfold parse_formula, hill_formula.
  destruct tokens as [|token tokens]; [done|].
  rewrite re_split_spaces_concat.
  - rewrite parse_parts_tokens by done. rewrite foldl_insert_tokens by done.
    by rewrite (right_id_L ∅ (∪)).
  - done.
  - intros part (token' & -> & Htoken)%list_elem_of_fmap.
    destruct (Hsym token' Htoken) as [Hne Hchars].
    destruct (str_int_digits token'.2) as (_ & Hdigits & _).
    split; [by destruct token'.1|].
    intros c. rewrite list_ascii_of_string_app. intros [Hc|Hc]%elem_of_app.
    + by apply Hchars.
    + by apply digit_is_no_space, Hdigits.
Qed.

Lemma letter_is_plain c : is_letter c = true → is_digit c = false ∧ is_space c = false.
Proof.
  destruct c as [[|] [|] [|] [|] [|] [|] [|] [|]]; vm_compute; (split; congruence).
Qed.

Lemma element_symbol_is_symbol specie : is_element_symbol specie → is_symbol specie.
Proof.
  intros [Hne Hletters]. split; [done|]. intros c Hc. by apply letter_is_plain, Hletters.
Qed.

(** X16. A formula written with spaces for separators is read back: for
    distinct symbols made of Latin letters, each followed by its count in
    decimal digits, [parse_formula] returns the dictionary from every symbol
    to its count. *)
Theorem parse_formula_reads_hill_formula (tokens : list (string * N)) :
  (∀ token, token ∈ tokens → is_element_symbol token.1) →
  NoDup tokens.*1 →
  parse_formula (hill_formula tokens) = Return (hill_contents tokens).
Proof.
  intros Hsym Hnd. apply parse_formula_reads_symbols; [|done].
  intros token Htoken. by apply element_symbol_is_symbol, Hsym.
Qed.

Lemma parse_formula_reads_hill_formula_ethanol :
  hill_formula [("C", 2%N); ("H", 6%N); ("O", 1%N)] = "C2 H6 O1" ∧
  parse_formula (hill_formula [("C", 2%N); ("H", 6%N); ("O", 1%N)]) =
    Return (hill_contents [("C", 2%N); ("H", 6%N); ("O", 1%N)]).
Proof.
  split; [vm_compute; reflexivity|].
  apply (parse_formula_reads_hill_formula [("C", 2%N); ("H", 6%N); ("O", 1%N)]).
  - intros token Htoken.
    repeat (apply elem_of_cons in Htoken as [->|Htoken];
            [split; [done|]; intros c Hc;
             apply list_elem_of_singleton in Hc as ->; reflexivity|]).
    by apply elem_of_nil in Htoken.
  - apply (bool_decide_unpack _). vm_compute. exact I.
Defined.

(** Without separators only the first symbol is read. *)
Example parse_formula_without_separators :
  parse_formula "C2H5" = Return {["C" := QInt 2]}.
Proof. vm_compute. reflexivity. Qed.

(** ** [has_unknown_species] *)

Lemma species_all_known known_species (contents : gmap string Quantity) :
  existsb (fun specie => negb (bool_decide (specie ∈ known_species))) (keys contents) = false
  ↔ all_known known_species contents.
Proof.
  unfold all_known. split.
  - intros Hex specie Hsome. apply elem_of_keys in Hsome.
    destruct (decide (specie ∈ known_species)) as [|Hout]; [done|].
    assert (existsb (fun specie => negb (bool_decide (specie ∈ known_species)))
                    (keys contents) = true) as Htrue; [|congruence].
    apply existsb_exists. exists specie. split; [by apply list_elem_of_In|].
    by apply negb_true_iff, bool_decide_eq_false.
  - intros Hall. apply not_true_iff_false. intros Hex.
    apply existsb_exists in Hex as (specie & Hin & Hout).
    apply negb_true_iff, bool_decide_eq_false in Hout. apply Hout, Hall.
    by apply elem_of_keys, list_elem_of_In.
Qed.

Lemma has_unknown_species_skip known_species before rest :
  has_unknown_species known_species before = Return (Some false) →
  has_unknown_species known_species (before ++ rest) = has_unknown_species known_species rest.
Proof.
  induction before as [|[formula|] before IH]; simpl; [done| |done].
  destruct (parse_formula formula) as [contents|e]; [|done].
  destruct (existsb _ _); [done|]. apply IH.
Qed.

(** X17. [has_unknown_species] is decided by the first formula that is missing
    or holds an unknown specie. It returns [False] exactly when every formula
    is given, can be parsed and holds known species only; it returns [None]
    exactly when a formula is missing and the formulae before it are of that
    kind; and it returns [True] exactly when a formula holds a specie that is
    not known and the formulae before it are of that kind. Formulae after the
    deciding one are not read. *)
Theorem has_unknown_species_first_decides known_species formulae :
  (has_unknown_species known_species formulae = Return (Some false) ↔
   ∀ formula, formula ∈ formulae →
     ∃ text contents,
       formula = Some text ∧ parse_formula text = Return contents ∧
       all_known known_species contents) ∧
  (has_unknown_species known_species formulae = Return None ↔
   ∃ before after,
     formulae = (before ++ None :: after)%list ∧
     has_unknown_species known_species before = Return (Some false)) ∧
  (has_unknown_species known_species formulae = Return (Some true) ↔
   ∃ before text contents specie after,
     formulae = (before ++ Some text :: after)%list ∧
     has_unknown_species known_species before = Return (Some false) ∧
     parse_formula text = Return contents ∧
     is_Some (contents !! specie) ∧ specie ∉ known_species).
Proof.
  split; [|split].
  - induction formulae as [|[text|] formulae IH]; simpl.
    + split; [|done]. intros _ formula Hin. by apply elem_of_nil in Hin.
    + destruct (parse_formula text) as [contents|e] eqn:Hparse.
      * destruct (existsb _ _) eqn:Hex.
        -- split; [done|]. intros Hall.
           destruct (Hall (Some text)) as (t & c & [= <-] & Hp & Hknown); [set_solver|].
           rewrite Hparse in Hp. injection Hp as <-.
           apply species_all_known in Hknown. congruence.
        -- rewrite IH. apply species_all_known in Hex. split.
           ++ intros Hall formula [->|Hin]%elem_of_cons; [by exists text, contents|].
              by apply Hall.
           ++ intros Hall formula Hin. apply Hall. set_solver.
      * split; [done|]. intros Hall.
        destruct (Hall (Some text)) as (t & c & [= <-] & Hp & _); [set_solver|]. congruence.
    + split; [done|]. intros Hall.
      destruct (Hall None) as (t & c & Hbad & _); [set_solver | done].
  - split.
    + induction formulae as [|[text|] formulae IH]; simpl; [done| |].
      * destruct (parse_formula text) as [contents|e] eqn:Hparse; [|done].
        destruct (existsb _ _) eqn:Hex; [done|].
        intros Hnone. destruct (IH Hnone) as (before & after & -> & Hbefore).
        exists (Some text :: before), after. split; [done|].
        simpl. by rewrite Hparse, Hex.
      * intros _. by exists [], formulae.
    + intros (before & after & -> & Hbefore).
      by rewrite (has_unknown_species_skip _ _ _ Hbefore).
  - split.
    + induction formulae as [|[text|] formulae IH]; simpl; [done| |done].
      destruct (parse_formula text) as [contents|e] eqn:Hparse; [|done].
      destruct (existsb _ _) eqn:Hex.
      * intros _. apply existsb_exists in Hex as (specie & Hin & Hout).
        apply negb_true_iff, bool_decide_eq_false in Hout.
        exists [], text, contents, specie, formulae. repeat split; try done.
        by apply elem_of_keys, list_elem_of_In.
      * intros Htrue.
        destruct (IH Htrue) as (before & t & c & sp & after & -> & Hbefore & H).
        exists (Some text :: before), t, c, sp, after. split; [done|].
        split; [|done]. simpl. by rewrite Hparse, Hex.
    + intros (before & text & contents & specie & after & -> & Hbefore & Hparse & Hin & Hout).
      rewrite (has_unknown_species_skip _ _ _ Hbefore). simpl. rewrite Hparse.
      destruct (existsb _ _) eqn:Hex; [done|].
      apply species_all_known in Hex. destruct Hout. by apply Hex.
Qed.

(** A missing formula hides the unknown specie of a later datablock. *)
Example missing_formula_hides_unknown_species :
  has_unknown_species ["C"; "H"; "O"] [Some "C2 H6 O"; None; Some "Xx2"] = Return None ∧
  has_unknown_species ["C"; "H"; "O"] [Some "C2 H6 O"; Some "Xx2"; None]
    = Return (Some true).
Proof. split; vm_compute; reflexivity. Qed.

End CifValuesFacts.

(* ===================================================================== *)
(** * Properties of [Data.get_export_formats]                             *)
(* ===================================================================== *)

Module DataFormatsFacts.
Import DataFormats DataImportFacts.

Lemma drop_prefix p k :
  String.substring (String.length p) (String.length (p ++ k) - String.length p) (p ++ k) = k.
Proof.
  induction p as [|c p IH]; simpl.
  - rewrite Nat.sub_0_r. apply substring_all.
  - apply IH.
Qed.

Lemma prefix_append p k : String.prefix p (p ++ k) = true.
Proof.
  induction p as [|c p IH]; simpl; [by destruct k|].
  destruct (ascii_dec c c); [done|congruence].
Qed.

Lemma prefix_split p s :
  String.prefix p s = true →
  s = p ++ String.substring (String.length p) (String.length s - String.length p) s.
Proof.
  revert s. induction p as [|c p IH]; intros s H; simpl.
  - rewrite Nat.sub_0_r. by rewrite substring_all.
  - destruct s as [|c' s]; [done|]. simpl in *.
    destruct (ascii_dec c c') as [->|]; [|done].
    change (String c' p +:+ ?x) with (String c' (p +:+ x)). f_equal. by apply IH.
Qed.

Lemma ascii_compare_trans a b c :
  Ascii.compare a b ≠ Gt → Ascii.compare b c ≠ Gt → Ascii.compare a c ≠ Gt.
Proof.
  unfold Ascii.compare. rewrite !N.compare_le_iff. lia.
Qed.

Lemma compare_Lt_trans a b c :
  String.compare a b = Lt → String.compare b c = Lt → String.compare a c = Lt.
Proof.
  revert b c. induction a as [|x a IH]; intros [|y b] [|z c]; simpl; try done.
  unfold Ascii.compare.
  destruct (N.compare_spec (N_of_ascii x) (N_of_ascii y)) as [Hxy|Hxy|Hxy];
  destruct (N.compare_spec (N_of_ascii y) (N_of_ascii z)) as [Hyz|Hyz|Hyz];
  destruct (N.compare_spec (N_of_ascii x) (N_of_ascii z)) as [Hxz|Hxz|Hxz];
  try done; try lia; eauto.
Qed.

#[local] Instance str_le_total : Total str_le.
Proof. intros a b. apply String.leb_total. Qed.

#[local] Instance str_le_trans : Transitive str_le.
Proof.
  intros a b c. unfold str_le, String.leb.
  destruct (String.compare a b) eqn:Hab; [|..|done].
  - apply String.compare_eq_iff in Hab. by subst.
  - destruct (String.compare b c) eqn:Hbc; [|..|done].
    + apply String.compare_eq_iff in Hbc. subst. by rewrite Hab.
    + by rewrite (compare_Lt_trans _ _ _ Hab Hbc).
Qed.

(** X18. [get_export_formats] returns, in ascending order, the names that
    follow the prefix [_prepare_] in the names of the class: a format is
    listed exactly when the class has an attribute named [_prepare_] followed
    by the format. *)
Theorem get_export_formats_sorted_strip (method_names : list string) :
  StronglySorted str_le (get_export_formats method_names) ∧
  ∀ k, k ∈ get_export_formats method_names ↔ exporter_prefix ++ k ∈ method_names.
Proof.
  split; [apply StronglySorted_merge_sort; apply _|].
  intros k. unfold get_export_formats, sorted. cbv zeta.
  rewrite merge_sort_Permutation, list_elem_of_fmap. split.
  - intros (i & -> & Hi). apply list_elem_of_In, filter_In in Hi as [Hi Hp].
    apply list_elem_of_In. unfold startswith in Hp. unfold after_prefix.
    by rewrite <- (prefix_split _ _ Hp).
  - intros Hk. exists (exporter_prefix ++ k). split.
    + unfold after_prefix. by rewrite drop_prefix.
    + apply list_elem_of_In, filter_In. split; [by apply list_elem_of_In|].
      apply prefix_append.
Qed.

End DataFormatsFacts.

(* ===================================================================== *)
(** * Properties of [pycifrw_from_cif]                                    *)
(* ===================================================================== *)

Module CifWriterFacts.
Import Py PyFacts CifValues DataFormats CifWriter CifWriterAux.

Lemma for_tag_absent tag tags loc values :
  values !! tag = None →
  for_tag (tag :: tags) loc values = for_tag tags loc values.
Proof. intros H. simpl. by rewrite H. Qed.

Lemma for_tag_present tag tags loc values v :
  values !! tag = Some v →
  for_tag (tag :: tags) loc values =
    if bool_decide (row_size loc = None ∨ row_size loc = Some (length (as_list v)))
    then for_tag tags (after_tag loc tag v) (delete tag values)
    else (delete tag values,
          Raise (ValueError (Format
            "Number of values for tag '{}' is different from the others in the same loop"
            [PyStr tag]))).
Proof.
  intros H. simpl. rewrite H. unfold after_tag.
  destruct (row_size loc) as [n|] eqn:Hn.
  - destruct (n =? length (as_list v))%nat eqn:E; simpl.
    + apply Nat.eqb_eq in E. subst n. rewrite bool_decide_eq_true_2 by by right.
      by destruct (_ =? 0)%nat.
    + apply Nat.eqb_neq in E. rewrite bool_decide_eq_false_2; [done|].
      intros [?|?]; congruence.
  - rewrite bool_decide_eq_true_2 by by left. by destruct (_ =? 0)%nat.
Qed.

Lemma for_tag_ind (P : list string → Locals → Block → Block → Locals → Prop) :
  (∀ loc values, P [] loc values values loc) →
  (∀ tag tags loc values values' loc',
     values !! tag = None →
     P tags loc values values' loc' → P (tag :: tags) loc values values' loc') →
  (∀ tag tags loc values v values' loc',
     values !! tag = Some v →
     row_size loc = None ∨ row_size loc = Some (length (as_list v)) →
     P tags (after_tag loc tag v) (delete tag values) values' loc' →
     P (tag :: tags) loc values values' loc') →
  ∀ tags loc values values' loc',
    for_tag tags loc values = (values', Return loc') → P tags loc values values' loc'.
Proof.
  intros Hnil Habsent Hpresent tags.
  induction tags as [|tag tags IH]; intros loc values values' loc' H.
  - injection H as <- <-. apply Hnil.
  - destruct (values !! tag) as [v|] eqn:Hv.
    + rewrite (for_tag_present _ _ _ _ _ Hv) in H. case_bool_decide as Hrow; [|done].
      eapply Hpresent; eauto.
    + rewrite (for_tag_absent _ _ _ _ Hv) in H. apply Habsent; auto.
Qed.

(** The tags of the loop are popped from the datablock. *)
Lemma for_tag_pops tags loc values values' loc' :
  for_tag tags loc values = (values', Return loc') →
  ∀ k, values' !! k = if decide (k ∈ tags) then None else values !! k.
Proof.
  revert tags loc values values' loc'. apply (for_tag_ind (fun tags loc values values' loc' =>
    ∀ k, values' !! k = if decide (k ∈ tags) then None else values !! k)).
  - intros loc values k. by rewrite decide_False by set_solver.
  - intros tag tags loc values values' loc' Hv IH k. rewrite IH.
    destruct (decide (k = tag)) as [->|Hk].
    + rewrite (decide_True (P := tag ∈ tag :: tags)) by set_solver. by destruct (decide _).
    + destruct (decide (k ∈ tags)).
      * by rewrite decide_True by set_solver.
      * by rewrite decide_False by set_solver.
  - intros tag tags loc values v values' loc' Hv _ IH k. rewrite IH.
    destruct (decide (k = tag)) as [->|Hk].
    + rewrite (decide_True (P := tag ∈ tag :: tags)) by set_solver.
      rewrite lookup_delete_eq. by destruct (decide _).
    + rewrite lookup_delete_ne by done. destruct (decide (k ∈ tags)).
      * by rewrite decide_True by set_solver.
      * by rewrite decide_False by set_solver.
Qed.

(** The items that the loop adds. *)
Lemma for_tag_items tags loc values values' loc' :
  for_tag tags loc values = (values', Return loc') →
  ∀ t w, AddItem t w ∈ datablock loc' ↔
    AddItem t w ∈ datablock loc ∨
    (t ∈ tags ∧ ∃ v0, values !! t = Some v0 ∧ w = Column (as_list v0) ∧ as_list v0 ≠ []).
Proof.
  revert tags loc values values' loc'. apply (for_tag_ind (fun tags loc values values' loc' =>
    ∀ t w, AddItem t w ∈ datablock loc' ↔
      AddItem t w ∈ datablock loc ∨
      (t ∈ tags ∧ ∃ v0, values !! t = Some v0 ∧ w = Column (as_list v0) ∧ as_list v0 ≠ []))).
  - intros loc values t w. set_solver.
  - intros tag tags loc values values' loc' Hv IH t w. rewrite IH. split.
    + intros [?|(? & ?)]; [by left|right]. split; [set_solver|done].
    + intros [?|(Ht & v0 & Hv0 & ?)]; [by left|right].
      apply elem_of_cons in Ht as [->|Ht]; [congruence|]. split; [done|]. by exists v0.
  - intros tag tags loc values v values' loc' Hv _ IH t w. rewrite IH.
    unfold after_tag. destruct (length (as_list v) =? 0)%nat eqn:Hlen; simpl.
    + apply Nat.eqb_eq in Hlen. split.
      * intros [?|(Ht & v0 & Hv0 & ?)]; [by left|right].
        apply lookup_delete_Some in Hv0 as [? Hv0]. split; [set_solver|]. by exists v0.
      * intros [?|(Ht & v0 & Hv0 & Hw & Hne)]; [by left|right].
        apply elem_of_cons in Ht as [->|Ht].
        -- assert (v0 = v) as -> by congruence. by destruct (as_list v).
        -- destruct (decide (t = tag)) as [->|Hne'].
           ++ assert (v0 = v) as -> by congruence. by destruct (as_list v).
           ++ split; [done|]. exists v0. by rewrite lookup_delete_ne.
    + apply Nat.eqb_neq in Hlen. rewrite elem_of_app, list_elem_of_singleton. split.
      * intros [[?|Heq]|(Ht & v0 & Hv0 & ?)].
        -- by left.
        -- injection Heq as -> ->. right. split; [set_solver|]. exists v.
           split; [done|]. split; [done|]. by destruct (as_list v).
        -- apply lookup_delete_Some in Hv0 as [? Hv0]. right. split; [set_solver|]. by exists v0.
      * intros [?|(Ht & v0 & Hv0 & Hw & Hne)]; [by left; left|].
        destruct (decide (t = tag)) as [->|Hne'].
        -- assert (v0 = v) as -> by congruence. left. right. by rewrite Hw.
        -- right. split; [set_solver|]. exists v0. by rewrite lookup_delete_ne.
Qed.

(** The loop over the tags creates no loop in the block and keeps the
    calls that were made before. *)
Lemma for_tag_calls tags loc values values' loc' :
  for_tag tags loc values = (values', Return loc') →
  (∀ c, c ∈ datablock loc → c ∈ datablock loc') ∧
  (∀ ds, CreateLoop ds ∈ datablock loc' → CreateLoop ds ∈ datablock loc).
Proof.
  revert tags loc values values' loc'. apply (for_tag_ind (fun tags loc values values' loc' =>
    (∀ c, c ∈ datablock loc → c ∈ datablock loc') ∧
    (∀ ds, CreateLoop ds ∈ datablock loc' → CreateLoop ds ∈ datablock loc))); [done..|].
  intros tag tags loc values v values' loc' _ _ [IH1 IH2].
  unfold after_tag in *. destruct (_ =? 0)%nat; simpl in *; [done|]. split.
  - intros c Hc. apply IH1. set_solver.
  - intros ds Hds. apply IH2 in Hds. set_solver.
Qed.

(** The tags that the loop records are tags of the loop, and the tags it has
    seen have been added to the block. *)
Lemma for_tag_recorded tags loc values values' loc' :
  for_tag tags loc values = (values', Return loc') →
  (∀ c, c ∈ datablock loc → c ∈ datablock loc') ∧
  (∀ t, t ∈ tags_in_loops loc' → t ∈ tags_in_loops loc ∨ t ∈ tags) ∧
  (∀ t, t ∈ tags_seen loc' → t ∈ tags_seen loc ∨ ∃ w, AddItem t w ∈ datablock loc').
Proof.
  revert tags loc values values' loc'. apply (for_tag_ind (fun tags loc values values' loc' =>
    (∀ c, c ∈ datablock loc → c ∈ datablock loc') ∧
    (∀ t, t ∈ tags_in_loops loc' → t ∈ tags_in_loops loc ∨ t ∈ tags) ∧
    (∀ t, t ∈ tags_seen loc' → t ∈ tags_seen loc ∨ ∃ w, AddItem t w ∈ datablock loc'))).
  - intros loc values. auto.
  - intros tag tags loc values values' loc' _ (IH1 & IH2 & IH3). split; [done|]. split; [|done].
    intros t Ht. destruct (IH2 t Ht); set_solver.
  - intros tag tags loc values v values' loc' _ _ (IH1 & IH2 & IH3).
    unfold after_tag in *. destruct (_ =? 0)%nat; simpl in *.
    + split; [done|]. split; [|done]. intros t Ht. destruct (IH2 t Ht); set_solver.
    + split; [intros c Hc; apply IH1; set_solver|]. split.
      * intros t Ht. destruct (IH2 t Ht) as [Ht'|Ht']; [|set_solver].
        apply elem_of_app in Ht' as [?|?]; set_solver.
      * intros t Ht. destruct (IH3 t Ht) as [Ht'|Ht']; [|by right].
        apply elem_of_app in Ht' as [?|Ht']; [by left|].
        apply list_elem_of_singleton in Ht' as ->. right.
        exists (Column (as_list v)). apply IH1. set_solver.
Qed.

(** The row size, once set, is the number of values of every tag of the loop
    that the datablock has. *)
Lemma for_tag_row_size tags loc values values' loc' :
  for_tag tags loc values = (values', Return loc') →
  (∀ n, row_size loc = Some n → row_size loc' = Some n) ∧
  (∀ t v0, t ∈ tags → values !! t = Some v0 → row_size loc' = Some (length (as_list v0))).
Proof.
  revert tags loc values values' loc'. apply (for_tag_ind (fun tags loc values values' loc' =>
    (∀ n, row_size loc = Some n → row_size loc' = Some n) ∧
    (∀ t v0, t ∈ tags → values !! t = Some v0 →
       row_size loc' = Some (length (as_list v0))))).
  - intros loc values. split; [done|]. intros t v0 Ht. set_solver.
  - intros tag tags loc values values' loc' Hv [IH1 IH2]. split; [done|].
    intros t v0 Ht Hv0. apply elem_of_cons in Ht as [->|Ht]; [congruence|]. by eapply IH2.
  - intros tag tags loc values v values' loc' Hv Hrow [IH1 IH2].
    assert (row_size (after_tag loc tag v) = Some (length (as_list v))) as Hafter.
    { unfold after_tag. by destruct (_ =? 0)%nat. }
    split.
    + intros n Hn. destruct Hrow as [?|Hrow]; [congruence|].
      rewrite Hn in Hrow. injection Hrow as ->. by apply IH1.
    + intros t v0 Ht Hv0. destruct (decide (t = tag)) as [->|Hne].
      * assert (v0 = v) as -> by congruence. by apply IH1.
      * apply elem_of_cons in Ht as [?|Ht]; [done|].
        apply (IH2 t v0 Ht). by rewrite lookup_delete_ne.
Qed.

(** A loop with a positive row size has seen a tag. *)
Lemma for_tag_seen_nonempty tags loc values values' loc' :
  for_tag tags loc values = (values', Return loc') →
  (∀ n, row_size loc = Some (S n) → tags_seen loc ≠ []) →
  ∀ n, row_size loc' = Some (S n) → tags_seen loc' ≠ [].
Proof.
  revert tags loc values values' loc'. apply (for_tag_ind (fun tags loc values values' loc' =>
    (∀ n, row_size loc = Some (S n) → tags_seen loc ≠ []) →
    ∀ n, row_size loc' = Some (S n) → tags_seen loc' ≠ [])); [done..|].
  intros tag tags loc values v values' loc' _ _ IH Hloc. apply IH.
  unfold after_tag. destruct (_ =? 0)%nat eqn:Hlen; simpl.
  - apply Nat.eqb_eq in Hlen. rewrite Hlen. done.
  - intros n _. by destruct (tags_seen loc).
Qed.

(** The loop over the tags returns when the tags that the datablock has, have
    as many values as the row size, if it is set, and as each other. *)
Lemma for_tag_returns tags : ∀ loc values,
  (∀ n t v, row_size loc = Some n → t ∈ tags → values !! t = Some v →
     length (as_list v) = n) →
  (∀ t1 t2 v1 v2, t1 ∈ tags → t2 ∈ tags → values !! t1 = Some v1 → values !! t2 = Some v2 →
     length (as_list v1) = length (as_list v2)) →
  ∃ values' loc', for_tag tags loc values = (values', Return loc').
Proof.
  induction tags as [|tag tags IH]; intros loc values Hrow Heq; [by eexists _, _|].
  destruct (values !! tag) as [v|] eqn:Hv.
  - rewrite (for_tag_present _ _ _ _ _ Hv). rewrite bool_decide_eq_true_2.
    + apply IH.
      * intros n t v0 Hn Ht Hv0. apply lookup_delete_Some in Hv0 as [_ Hv0].
        assert (n = length (as_list v)) as ->.
        { unfold after_tag in Hn. destruct (_ =? 0)%nat; simpl in Hn; congruence. }
        apply (Heq t tag v0 v); set_solver.
      * intros t1 t2 v1 v2 Ht1 Ht2 Hv1 Hv2.
        apply lookup_delete_Some in Hv1 as [_ Hv1]. apply lookup_delete_Some in Hv2 as [_ Hv2].
        apply (Heq t1 t2 v1 v2); set_solver.
    + destruct (row_size loc) as [n|] eqn:Hn; [right|by left].
      f_equal. symmetry. apply (Hrow n tag v); set_solver.
  - rewrite (for_tag_absent _ _ _ _ Hv). apply IH.
    + intros n t v0 Hn Ht. apply (Hrow n t v0 Hn). set_solver.
    + intros t1 t2 v1 v2 Ht1 Ht2. apply (Heq t1 t2 v1 v2); set_solver.
Qed.

Lemma for_loopname_cons loopname tags loops in_loops block values values' r :
  for_loopname ((loopname, tags) :: loops) in_loops block values = (values', Return r) →
  ∃ values1 loc,
    for_tag tags (new_loop in_loops block) values = (values1, Return loc) ∧
    for_loopname loops (tags_in_loops loc) (closed loc) values1 = (values', Return r).
Proof.
  simpl. unfold bind. fold (new_loop in_loops block).
  destruct (for_tag tags (new_loop in_loops block) values) as [values1 [loc|e]]; [|done].
  intros H. by exists values1, loc.
Qed.

Lemma loop_tags_cons loopname tags loops :
  loop_tags ((loopname, tags) :: loops) = (tags ++ loop_tags loops)%list.
Proof. done. Qed.

Lemma elem_of_closed c loc :
  c ∈ closed loc ↔
  c ∈ datablock loc ∨ (c = CreateLoop (tags_seen loc) ∧ ∃ n, row_size loc = Some (S n)).
Proof.
  unfold closed. destruct (row_size loc) as [[|n]|].
  - split; [by left|]. by intros [?|[_ [? ?]]].
  - rewrite elem_of_app, list_elem_of_singleton. split.
    + intros [?|?]; [by left|right]. split; [done|]. by exists n.
    + intros [?|[? _]]; [by left|by right].
  - split; [by left|]. by intros [?|[_ [? ?]]].
Qed.

(** The tags of all loops are popped from the datablock. *)
Lemma for_loopname_pops loops : ∀ in_loops block values values' r,
  for_loopname loops in_loops block values = (values', Return r) →
  ∀ k, values' !! k = if decide (k ∈ loop_tags loops) then None else values !! k.
Proof.
  induction loops as [|[loopname tags] loops IH]; intros in_loops block values values' r H k.
  - injection H as <- <-. by rewrite decide_False by set_solver.
  - apply for_loopname_cons in H as (values1 & loc & Htag & H).
    rewrite (IH _ _ _ _ _ H), (for_tag_pops _ _ _ _ _ Htag), loop_tags_cons.
    destruct (decide (k ∈ loop_tags loops)); [by rewrite decide_True by set_solver|].
    destruct (decide (k ∈ tags)); [by rewrite decide_True by set_solver|].
    by rewrite decide_False by set_solver.
Qed.

(** The items that the loops add. *)
Lemma for_loopname_items loops : ∀ in_loops block values values' r,
  for_loopname loops in_loops block values = (values', Return r) →
  ∀ t w, AddItem t w ∈ r.2 ↔
    AddItem t w ∈ block ∨
    (t ∈ loop_tags loops ∧
     ∃ v0, values !! t = Some v0 ∧ w = Column (as_list v0) ∧ as_list v0 ≠ []).
Proof.
  induction loops as [|[loopname tags] loops IH]; intros in_loops block values values' r H t w.
  - injection H as <- <-. set_solver.
  - apply for_loopname_cons in H as (values1 & loc & Htag & H).
    rewrite (IH _ _ _ _ _ H), elem_of_closed, (for_tag_items _ _ _ _ _ Htag), loop_tags_cons.
    pose proof (for_tag_pops _ _ _ _ _ Htag t) as Hpop. simpl. split.
    + intros [[[?|(? & v0 & ?)]|[? _]]|(? & v0 & Hv0 & ?)]; [by left| |done|].
      * right. split; [set_solver|]. by exists v0.
      * rewrite Hv0 in Hpop. destruct (decide (t ∈ tags)); [done|].
        right. split; [set_solver|]. by exists v0.
    + intros [?|(Ht & v0 & Hv0 & ?)]; [by left; left; left|].
      destruct (decide (t ∈ tags)).
      * left. left. right. split; [done|]. by exists v0.
      * right. split; [set_solver|]. exists v0. by rewrite Hpop.
Qed.

(** The calls that were made before are kept, the recorded tags are tags of
    the loops, and a loop is only created from tags that have been added. *)
Lemma for_loopname_calls loops : ∀ in_loops block values values' r,
  for_loopname loops in_loops block values = (values', Return r) →
  (∀ c, c ∈ block → c ∈ r.2) ∧
  (∀ t, t ∈ r.1 → t ∈ in_loops ∨ t ∈ loop_tags loops) ∧
  (∀ ds, CreateLoop ds ∈ r.2 →
     CreateLoop ds ∈ block ∨ (ds ≠ [] ∧ ∀ t, t ∈ ds → ∃ w, AddItem t w ∈ r.2)).
Proof.
  induction loops as [|[loopname tags] loops IH]; intros in_loops block values values' r H.
  - injection H as <- <-. auto.
  - apply for_loopname_cons in H as (values1 & loc & Htag & H).
    destruct (IH _ _ _ _ _ H) as (IH1 & IH2 & IH3).
    destruct (for_tag_recorded _ _ _ _ _ Htag) as (Hkeep & Hin & Hseen).
    destruct (for_tag_calls _ _ _ _ _ Htag) as [_ Hloops].
    split; [|split].
    + intros c Hc. apply IH1, elem_of_closed. left. by apply Hkeep.
    + intros t Ht. rewrite loop_tags_cons.
      destruct (IH2 t Ht) as [Ht'|?]; [|set_solver]. destruct (Hin t Ht'); set_solver.
    + intros ds Hds. destruct (IH3 ds Hds) as [Hds'|?]; [|by right].
      apply elem_of_closed in Hds' as [?|[Heq [n Hn]]]; [left; by apply Hloops|].
      injection Heq as ->. right. split.
      * by apply (for_tag_seen_nonempty _ _ _ _ _ Htag) with n.
      * intros t Ht. destruct (Hseen t Ht) as [Ht'|[w Hw]]; [set_solver|].
        exists w. apply IH1, elem_of_closed. by left.
Qed.

(** In a loop that returns, the tags that no loop before it lists and that
    the datablock has, have equally many values. *)
Lemma for_loopname_consistent loops : ∀ in_loops block values values' r,
  for_loopname loops in_loops block values = (values', Return r) →
  ∀ earlier loopname tags later t1 t2 v1 v2,
    loops = (earlier ++ (loopname, tags) :: later)%list →
    t1 ∈ tags → t2 ∈ tags → t1 ∉ loop_tags earlier → t2 ∉ loop_tags earlier →
    values !! t1 = Some v1 → values !! t2 = Some v2 →
    length (as_list v1) = length (as_list v2).
Proof.
  induction loops as [|[loopname0 tags0] loops IH];
    intros in_loops block values values' r H earlier loopname tags later t1 t2 v1 v2
      Hsplit Ht1 Ht2 Hb1 Hb2 Hv1 Hv2.
  - by destruct earlier.
  - apply for_loopname_cons in H as (values1 & loc & Htag & H).
    destruct earlier as [|[loopname' tags'] earlier]; simplify_eq/=.
    + destruct (for_tag_row_size _ _ _ _ _ Htag) as [_ Hrow].
      pose proof (Hrow t1 v1 Ht1 Hv1) as H1. pose proof (Hrow t2 v2 Ht2 Hv2) as H2. congruence.
    + rewrite loop_tags_cons in Hb1, Hb2.
      apply (IH _ _ _ _ _ H earlier loopname tags later t1 t2 v1 v2); try done; try set_solver.
      * rewrite (for_tag_pops _ _ _ _ _ Htag). by rewrite decide_False by set_solver.
      * rewrite (for_tag_pops _ _ _ _ _ Htag). by rewrite decide_False by set_solver.
Qed.

Lemma consistent_cons loopname tags loops values :
  consistent ((loopname, tags) :: loops) values →
  (∀ t1 t2 v1 v2, t1 ∈ tags → t2 ∈ tags → values !! t1 = Some v1 → values !! t2 = Some v2 →
     length (as_list v1) = length (as_list v2)) ∧
  ∀ values1, values1 ⊆ values → consistent loops values1.
Proof.
  intros Hc. split.
  - intros t1 t2 v1 v2. apply (Hc loopname tags). set_solver.
  - intros values1 Hsub loopname' tags' t1 t2 v1 v2 Hin Ht1 Ht2 Hv1 Hv2.
    apply (Hc loopname' tags' t1 t2 v1 v2); [set_solver|done|done|..];
      by eapply lookup_weaken.
Qed.

Lemma for_tag_subseteq tags loc values values' r :
  for_tag tags loc values = (values', r) → values' ⊆ values.
Proof.
  revert loc values. induction tags as [|tag tags IH]; intros loc values H.
  - by injection H as <- _.
  - destruct (values !! tag) as [v|] eqn:Hv.
    + rewrite (for_tag_present _ _ _ _ _ Hv) in H. case_bool_decide.
      * etrans; [by eapply IH|]. apply delete_subseteq.
      * injection H as <- _. apply delete_subseteq.
    + rewrite (for_tag_absent _ _ _ _ Hv) in H. by eapply IH.
Qed.

(** The loops return on a datablock that is consistent with them. *)
Lemma for_loopname_returns loops : ∀ in_loops block values,
  consistent loops values →
  ∃ values' r, for_loopname loops in_loops block values = (values', Return r).
Proof.
  induction loops as [|[loopname tags] loops IH]; intros in_loops block values Hc;
    [by eexists _, _|].
  apply consistent_cons in Hc as [Hhere Hrest].
  destruct (for_tag_returns tags (new_loop in_loops block) values) as (values1 & loc & Htag);
    [done|done|].
  destruct (IH (tags_in_loops loc) (closed loc) values1) as (values' & r & H).
  { apply Hrest. by eapply for_tag_subseteq. }
  exists values', r. simpl. unfold bind. fold (new_loop in_loops block). by rewrite Htag.
Qed.

(** The loops raise nothing but a [ValueError]. *)
Lemma for_tag_raises tags : ∀ loc values values' e,
  for_tag tags loc values = (values', Raise e) → ∃ msg, e = ValueError msg.
Proof.
  induction tags as [|tag tags IH]; intros loc values values' e H; [done|].
  destruct (values !! tag) as [v|] eqn:Hv.
  - rewrite (for_tag_present _ _ _ _ _ Hv) in H. case_bool_decide.
    + by eapply IH.
    + injection H as _ <-. by eexists.
  - rewrite (for_tag_absent _ _ _ _ Hv) in H. by eapply IH.
Qed.

Lemma for_loopname_raises loops : ∀ in_loops block values values' e,
  for_loopname loops in_loops block values = (values', Raise e) → ∃ msg, e = ValueError msg.
Proof.
  induction loops as [|[loopname tags] loops IH]; intros in_loops block values values' e H;
    [done|].
  simpl in H. unfold bind in H.
  destruct (for_tag tags _ values) as [values1 [loc|e']] eqn:Htag.
  - by eapply IH.
  - injection H as _ <-. by eapply for_tag_raises.
Qed.

(** The loop over the remaining tags returns, and adds each of them with
    its value. *)
Lemma for_sorted_tag_Return loops values in_loops tags : ∀ block,
  (∀ t, t ∈ tags → (t ∉ in_loops) ∧ is_Some (values !! t)) →
  ∃ block',
    for_sorted_tag loops values in_loops tags block = Return block' ∧
    (∀ c, c ∈ block → c ∈ block') ∧
    (∀ t w, AddItem t w ∈ block' ↔ AddItem t w ∈ block ∨ (t ∈ tags ∧ values !! t = Some w)) ∧
    (∀ ds, CreateLoop ds ∈ block' →
       CreateLoop ds ∈ block ∨ ∃ t w, ds = [t] ∧ AddItem t w ∈ block').
Proof.
  induction tags as [|tag tags IH]; intros block Htags.
  - exists block. split; [done|]. split; [done|]. split; [set_solver|]. by left.
  - destruct (Htags tag) as [Hout [v Hv]]; [set_solver|].
    simpl. rewrite bool_decide_eq_false_2 by done. unfold getitem. rewrite Hv.
    match goal with |- context [for_sorted_tag _ _ _ _ ?b] => set (block1 := b) end.
    destruct (IH block1) as (block' & H & Hkeep & Hitems & Hloops).
    { intros t Ht. apply Htags. set_solver. }
    assert (∀ c, c ∈ block1 ↔
              c ∈ block ∨ c = AddItem tag v ∨
              (c = CreateLoop [tag] ∧ c ∈ block1)) as Hblock1.
    { intros c. subst block1. destruct v as [s|l]; [set_solver|].
      case_bool_decide; set_solver. }
    exists block'. split; [done|]. split; [|split].
    + intros c Hc. apply Hkeep, Hblock1. by left.
    + intros t w. rewrite Hitems, Hblock1. split.
      * intros [[?|[Heq|[? _]]]|[? ?]]; [by left| |done|right; set_solver].
        injection Heq as -> ->. right. set_solver.
      * intros [?|[Ht Hw]]; [by left; left|].
        apply elem_of_cons in Ht as [->|Ht]; [|by right].
        left. right. left. congruence.
    + intros ds Hds. destruct (Hloops ds Hds) as [Hds'|?]; [|by right].
      apply Hblock1 in Hds' as [?|[?|[Heq _]]]; [by left|done|].
      injection Heq as ->. right. exists tag, v. split; [done|].
      apply Hkeep, Hblock1. by right; left.
Qed.

Lemma elem_of_sorted (t : string) l : t ∈ sorted l ↔ t ∈ l.
Proof. unfold sorted. by rewrite merge_sort_Permutation. Qed.

(** The tags that are left after the loops are in no loop. *)
Lemma remaining_tags_unlooped loops values values1 r :
  for_loopname loops [] [] values = (values1, Return r) →
  ∀ t, t ∈ sorted (keys values1) → (t ∉ r.1) ∧ is_Some (values1 !! t).
Proof.
  intros Hloop t Ht. apply elem_of_sorted, elem_of_keys in Ht. split; [|done].
  destruct (for_loopname_calls _ _ _ _ _ _ Hloop) as (_ & Hin & _).
  intros Ht'. destruct (Hin t Ht') as [?|Hl]; [set_solver|].
  rewrite (for_loopname_pops _ _ _ _ _ _ Hloop), decide_True in Ht by done. by destruct Ht.
Qed.

(** What a datablock that is filled without an exception holds, and what is
    left of the dictionary. *)
Lemma fill_datablock_Return loops values values' block :
  fill_datablock loops values = (values', Return block) →
  values' = without_loop_tags loops values ∧
  (∀ t w, AddItem t w ∈ block ↔ written loops values t w) ∧
  (∀ ds, CreateLoop ds ∈ block → ds ≠ [] ∧ ∀ t, t ∈ ds → ∃ w, AddItem t w ∈ block) ∧
  (∀ earlier loopname tags later t1 t2 v1 v2,
     loops = (earlier ++ (loopname, tags) :: later)%list →
     t1 ∈ tags → t2 ∈ tags → t1 ∉ loop_tags earlier → t2 ∉ loop_tags earlier →
     values !! t1 = Some v1 → values !! t2 = Some v2 →
     length (as_list v1) = length (as_list v2)).
Proof.
  unfold fill_datablock, bind.
  destruct (for_loopname loops [] [] values) as [values1 [r|e]] eqn:Hloop; [|done].
  pose proof (for_loopname_pops _ _ _ _ _ _ Hloop) as Hpop.
  pose proof (for_loopname_items _ _ _ _ _ _ Hloop) as Hitems.
  destruct (for_loopname_calls _ _ _ _ _ _ Hloop) as (Hkeep & Hin & Hloops).
  destruct (for_sorted_tag_Return loops values1 r.1 (sorted (keys values1)) r.2)
    as (block' & Hrest & Hkeep' & Hitems' & Hloops').
  { by eapply remaining_tags_unlooped. }
  rewrite Hrest. intros H. injection H as <- <-. split; [|split; [|split]].
  - apply map_eq. intros k. rewrite Hpop. unfold without_loop_tags.
    destruct (decide (k ∈ loop_tags loops)) as [Hk|Hk].
    + symmetry. apply map_lookup_filter_None. right. intros v _. simpl. by intros [].
    + destruct (values !! k) as [v|] eqn:Hv.
      * symmetry. by apply map_lookup_filter_Some.
      * symmetry. apply map_lookup_filter_None. by left.
  - intros t w. rewrite Hitems', Hitems. unfold written.
    specialize (Hpop t). destruct (decide (t ∈ loop_tags loops)) as [Ht|Ht].
    + split.
      * intros [[?|(_ & v0 & ?)]|[_ Hw]]; [set_solver|by exists v0|congruence].
      * intros (v0 & ? & ?). left. right. split; [done|]. by exists v0.
    + split.
      * intros [[?|(? & _)]|[_ Hw]]; [set_solver|done|]. exists w. by rewrite <- Hpop.
      * intros (v0 & Hv0 & ->). right. split; [|congruence].
        apply elem_of_sorted, elem_of_keys. rewrite Hpop. by exists v0.
  - intros ds Hds. destruct (Hloops' ds Hds) as [Hds'|(t & w & -> & Hw)].
    + destruct (Hloops ds Hds') as [?|[Hne Hadded]]; [set_solver|]. split; [done|].
      intros t Ht. destruct (Hadded t Ht) as [w Hw]. exists w. by apply Hkeep'.
    + split; [done|]. intros t' Ht'. apply list_elem_of_singleton in Ht' as ->. by exists w.
  - by apply (for_loopname_consistent _ _ _ _ _ _ Hloop).
Qed.

Lemma fill_datablock_returns loops values :
  consistent loops values →
  ∃ values' block, fill_datablock loops values = (values', Return block).
Proof.
  intros Hc. destruct (for_loopname_returns loops [] [] values Hc) as (values1 & r & Hloop).
  destruct (for_sorted_tag_Return loops values1 r.1 (sorted (keys values1)) r.2)
    as (block' & Hrest & _).
  { by eapply remaining_tags_unlooped. }
  exists values1, block'. unfold fill_datablock, bind. by rewrite Hloop, Hrest.
Qed.

Lemma fill_datablock_raises loops values values' e :
  fill_datablock loops values = (values', Raise e) → ∃ msg, e = ValueError msg.
Proof.
  unfold fill_datablock, bind.
  destruct (for_loopname loops [] [] values) as [values1 [r|e']] eqn:Hloop.
  - destruct (for_sorted_tag_Return loops values1 r.1 (sorted (keys values1)) r.2)
      as (block' & Hrest & _); [by eapply remaining_tags_unlooped|by rewrite Hrest].
  - intros H. injection H as _ <-. by eapply for_loopname_raises.
Qed.

Lemma consistent_from_split loops values :
  NoDup (loop_tags loops) →
  (∀ earlier loopname tags later t1 t2 v1 v2,
     loops = (earlier ++ (loopname, tags) :: later)%list →
     t1 ∈ tags → t2 ∈ tags → t1 ∉ loop_tags earlier → t2 ∉ loop_tags earlier →
     values !! t1 = Some v1 → values !! t2 = Some v2 →
     length (as_list v1) = length (as_list v2)) →
  consistent loops values.
Proof.
  intros Hnd H loopname tags t1 t2 v1 v2 Hin Ht1 Ht2 Hv1 Hv2.
  apply list_elem_of_split in Hin as (earlier & later & ->).
  unfold loop_tags in Hnd. rewrite fmap_app, concat_app in Hnd. simpl in Hnd.
  apply NoDup_app in Hnd as (_ & Hdisj & _).
  apply (H earlier loopname tags later t1 t2 v1 v2); try done.
  - intros Hin. apply (Hdisj t1 Hin). set_solver.
  - intros Hin. apply (Hdisj t2 Hin). set_solver.
Qed.

Lemma without_loop_tags_lookup loops (values : Block) t :
  without_loop_tags loops values !! t =
    if decide (t ∈ loop_tags loops) then None else values !! t.
Proof.
  unfold without_loop_tags. destruct (decide (t ∈ loop_tags loops)) as [Ht|Ht].
  - apply map_lookup_filter_None. right. intros v _. simpl. by intros [].
  - destruct (values !! t) as [v|] eqn:Hv.
    + by apply map_lookup_filter_Some.
    + apply map_lookup_filter_None. by left.
Qed.

Lemma without_loop_tags_idemp loops (values : Block) :
  without_loop_tags loops (without_loop_tags loops values) = without_loop_tags loops values.
Proof.
  apply map_eq. intros t. rewrite !without_loop_tags_lookup. by destruct (decide _).
Qed.

Lemma without_loop_tags_subseteq loops (values : Block) :
  without_loop_tags loops values ⊆ values.
Proof. apply map_filter_subseteq. Qed.

Lemma consistent_subseteq loops (values values1 : Block) :
  values1 ⊆ values → consistent loops values → consistent loops values1.
Proof.
  intros Hsub Hc loopname tags t1 t2 v1 v2 Hin Ht1 Ht2 Hv1 Hv2.
  apply (Hc loopname tags t1 t2 v1 v2); try done; by eapply lookup_weaken.
Qed.

Lemma popped_by_nil loops store values : popped_by loops [] store values = store values.
Proof. unfold popped_by. by rewrite decide_False by set_solver. Qed.

Lemma popped_by_cons loops earlier (store : Store) first values :
  popped_by loops earlier (<[first := without_loop_tags loops (store first)]> store) values
  = popped_by loops (first :: earlier) store values.
Proof.
  unfold popped_by. destruct (decide (values = first)) as [->|Hne].
  - rewrite fn_lookup_insert, (decide_True (P := first ∈ first :: earlier)) by set_solver.
    destruct (decide (first ∈ earlier)); [apply without_loop_tags_idemp|done].
  - rewrite fn_lookup_insert_ne by done.
    destruct (decide (values ∈ earlier)).
    + by rewrite decide_True by set_solver.
    + by rewrite decide_False by set_solver.
Qed.

Lemma popped_by_subseteq loops earlier store values :
  popped_by loops earlier store values ⊆ store values.
Proof.
  unfold popped_by. destruct (decide _); [apply without_loop_tags_subseteq|done].
Qed.

Lemma for_datablock_cons loops names i values rest cif store store' cif' :
  for_datablock loops names i (values :: rest) cif store = (store', Return cif') →
  ∃ name block,
    block_name names i = Return name ∧
    fill_datablock loops (store values)
      = (without_loop_tags loops (store values), Return block) ∧
    for_datablock loops names (S i) rest (<[name := block]> cif)
      (<[values := without_loop_tags loops (store values)]> store) = (store', Return cif').
Proof.
  simpl. destruct (block_name names i) as [name|e]; [|done].
  destruct (fill_datablock loops (store values)) as [values' [block|e]] eqn:Hfill; [|done].
  destruct (fill_datablock_Return _ _ _ _ Hfill) as [-> _].
  intros H. by exists name, block.
Qed.

Lemma assigned_lookup blocks : ∀ (cif : CifFile) name block,
  assigned cif blocks !! name = Some block →
  cif !! name = Some block ∨ (name, block) ∈ blocks.
Proof.
  induction blocks as [|[name0 block0] blocks IH]; intros cif name block H; [by left|].
  simpl in H. destruct (IH _ _ _ H) as [Hin|Hin]; [|right; set_solver].
  destruct (decide (name = name0)) as [->|Hne].
  - rewrite lookup_insert_eq in Hin. injection Hin as <-. right. set_solver.
  - rewrite lookup_insert_ne in Hin by done. by left.
Qed.

Lemma assigned_is_Some blocks : ∀ (cif : CifFile) name,
  is_Some (assigned cif blocks !! name) ↔ is_Some (cif !! name) ∨ name ∈ blocks.*1.
Proof.
  induction blocks as [|[name0 block0] blocks IH]; intros cif name; simpl.
  - split; [by left|]. intros [?|?]; [done|set_solver].
  - rewrite IH. destruct (decide (name = name0)) as [->|Hne].
    + rewrite lookup_insert_eq. split; [right; set_solver|by left].
    + rewrite lookup_insert_ne by done. set_solver.
Qed.

Lemma assigned_last blocks : ∀ (cif : CifFile) j name block,
  blocks !! j = Some (name, block) →
  (∀ k named, j < k → blocks !! k = Some named → named.1 ≠ name) →
  assigned cif blocks !! name = Some block.
Proof.
  induction blocks as [|[name0 block0] blocks IH]; intros cif j name block Hj Hlater; [done|].
  destruct j as [|j]; simpl in *.
  - injection Hj as -> ->.
    destruct (proj2 (assigned_is_Some blocks (<[name := block]> cif) name)) as [block' Hcif].
    { left. by rewrite lookup_insert_eq. }
    rewrite Hcif. destruct (assigned_lookup _ _ _ _ Hcif) as [Hin|Hin].
    + by rewrite lookup_insert_eq in Hin.
    + apply list_elem_of_lookup in Hin as [k Hk].
      by destruct (Hlater (S k) (name, block') ltac:(lia) Hk).
  - apply (IH _ j); [done|]. intros k named Hk. apply (Hlater (S k)). lia.
Qed.

(** What the loop over the datablocks has done when it returns: every
    dictionary in the list has been through the loop, and the file has been
    assigned one block for every pass, filled from the dictionary as the
    passes before have left it. *)
Lemma for_datablock_Return loops names : ∀ datablocks i cif store store' cif',
  for_datablock loops names i datablocks cif store = (store', Return cif') →
  (∀ values, store' values = popped_by loops datablocks store values) ∧
  ∃ blocks,
    cif' = assigned cif blocks ∧
    length blocks = length datablocks ∧
    ∀ j values, datablocks !! j = Some values →
      ∃ name block values',
        blocks !! j = Some (name, block) ∧
        block_name names (i + j) = Return name ∧
        fill_datablock loops (popped_by loops (take j datablocks) store values)
          = (values', Return block).
Proof.
  induction datablocks as [|first rest IH]; intros i cif store store' cif' H.
  - injection H as <- <-. split.
    + intros values. by rewrite popped_by_nil.
    + by exists [].
  - apply for_datablock_cons in H as (name0 & block0 & Hname0 & Hfill0 & H).
    destruct (IH _ _ _ _ _ H) as (IH1 & blocks & -> & Hlen & IH2). split.
    + intros values. by rewrite IH1, popped_by_cons.
    + exists ((name0, block0) :: blocks). split; [done|]. split; [simpl; by rewrite Hlen|].
      intros [|j] values Hj; simpl in Hj.
      * injection Hj as <-. exists name0, block0, (without_loop_tags loops (store first)).
        rewrite Nat.add_0_r. simpl. by rewrite popped_by_nil.
      * destruct (IH2 j values Hj) as (name & block & values' & Hb & Hname & Hfill).
        exists name, block, values'. split; [done|].
        replace (i + S j)%nat with (S i + j)%nat by lia. split; [done|].
        simpl. by rewrite <- popped_by_cons.
Qed.

(** The loop over the datablocks raises nothing but a [ValueError] when the
    names suffice. *)
Lemma for_datablock_raises loops names : ∀ datablocks i cif store store' e,
  (names_given names = true → (i + length datablocks ≤ length (default [] names))%nat) →
  for_datablock loops names i datablocks cif store = (store', Raise e) →
  ∃ msg, e = ValueError msg.
Proof.
  induction datablocks as [|first rest IH]; intros i cif store store' e Hnames H; [done|].
  simpl in *.
  assert (∃ name, block_name names i = Return name) as [name Hname].
  { unfold block_name. destruct (names_given names); [|by eexists].
    destruct (lookup_lt_is_Some_2 (default [] names) i) as [name ->]; [lia|]. by eexists. }
  rewrite Hname in H.
  destruct (fill_datablock loops (store first)) as [values' [block|e']] eqn:Hfill.
  - eapply IH; [|exact H]. intros Hg. specialize (Hnames Hg). lia.
  - injection H as _ <-. by eapply fill_datablock_raises.
Qed.

(** It returns when the names suffice and the dictionaries are consistent
    with the loops. *)
Lemma for_datablock_returns loops names : ∀ datablocks i cif store,
  (names_given names = true → (i + length datablocks ≤ length (default [] names))%nat) →
  (∀ values, values ∈ datablocks → consistent loops (store values)) →
  ∃ store' cif', for_datablock loops names i datablocks cif store = (store', Return cif').
Proof.
  induction datablocks as [|first rest IH]; intros i cif store Hnames Hc; [by eexists _, _|].
  simpl in *.
  assert (∃ name, block_name names i = Return name) as [name ->].
  { unfold block_name. destruct (names_given names); [|by eexists].
    destruct (lookup_lt_is_Some_2 (default [] names) i) as [name ->]; [lia|]. by eexists. }
  destruct (fill_datablock_returns loops (store first)) as (values' & block & Hfill);
    [apply Hc; set_solver|].
  rewrite Hfill. destruct (fill_datablock_Return _ _ _ _ Hfill) as [-> _].
  apply IH.
  - intros Hg. specialize (Hnames Hg). lia.
  - intros values Hin. destruct (decide (values = first)) as [->|Hne].
    + rewrite fn_lookup_insert.
      apply (consistent_subseteq loops (store first)); [apply without_loop_tags_subseteq|].
      apply Hc. set_solver.
    + rewrite fn_lookup_insert_ne by done. apply Hc. set_solver.
Qed.

(** The name of a pass, read off the list of the names. *)
Lemma block_name_names_of names n i name :
  (names_given names = true → (n ≤ length (default [] names))%nat) →
  (i < n)%nat →
  block_name names i = Return name ↔ names_of names n !! i = Some name.
Proof.
  intros Hnames Hi. unfold block_name, names_of. destruct (names_given names).
  - rewrite lookup_take_lt by done.
    destruct (lookup_lt_is_Some_2 (default [] names) i) as [name' ->];
      [specialize (Hnames eq_refl); lia|].
    split; congruence.
  - rewrite list_lookup_fmap, lookup_seq_lt by done. simpl. split; congruence.
Qed.

Lemma length_names_of names n :
  (names_given names = true → (n ≤ length (default [] names))%nat) →
  length (names_of names n) = n.
Proof.
  intros Hnames. unfold names_of. destruct (names_given names).
  - rewrite length_take. specialize (Hnames eq_refl). lia.
  - by rewrite length_fmap, length_seq.
Qed.

(** The call of [pycifrw_from_cif] that returns has imported PyCifRW, has
    found enough names and has run the loop over the datablocks. *)
Lemma pycifrw_from_cif_Return CifFile_import loops names datablocks store store' cif :
  pycifrw_from_cif CifFile_import loops names datablocks store = (store', Ran (Return cif)) →
  CifFile_import = Imported ∧
  (names_given names = true → (length datablocks ≤ length (default [] names))%nat) ∧
  for_datablock (default [] loops) names 0 datablocks ∅ store = (store', Return cif).
Proof.
  unfold pycifrw_from_cif. destruct CifFile_import as [|exc]; [|done].
  destruct (names_given names) eqn:Hg; simpl.
  - destruct (_ <? _)%nat eqn:Hlt; [done|]. apply Nat.ltb_ge in Hlt.
    destruct (for_datablock _ _ _ _ _ _) as [store1 r]. intros H. by injection H as <- <-.
  - destruct (for_datablock _ _ _ _ _ _) as [store1 r]. intros H. by injection H as <- <-.
Qed.

Lemma elem_of_assigned_names loops names datablocks store blocks name :
  (names_given names = true → (length datablocks ≤ length (default [] names))%nat) →
  length blocks = length datablocks →
  (∀ j values, datablocks !! j = Some values →
     ∃ name block values',
       blocks !! j = Some (name, block) ∧
       block_name names (0 + j) = Return name ∧
       fill_datablock loops (popped_by loops (take j datablocks) store values)
         = (values', Return block)) →
  name ∈ blocks.*1 ↔ name ∈ names_of names (length datablocks).
Proof.
  intros Hnames Hlen Hblocks. split.
  - intros ([name' block] & -> & Hin)%list_elem_of_fmap.
    apply list_elem_of_lookup in Hin as [j Hj].
    assert (j < length datablocks)%nat as Hlt by (rewrite <- Hlen; by eapply lookup_lt_Some).
    destruct (lookup_lt_is_Some_2 datablocks j Hlt) as [values Hvalues].
    destruct (Hblocks j values Hvalues) as (name & block' & _ & Hb & Hname & _).
    rewrite Hj in Hb. injection Hb as <- <-.
    apply list_elem_of_lookup. exists j. by apply block_name_names_of.
  - intros [j Hj]%list_elem_of_lookup.
    assert (j < length datablocks)%nat as Hlt.
    { rewrite <- (length_names_of names (length datablocks)) by done. by eapply lookup_lt_Some. }
    destruct (lookup_lt_is_Some_2 datablocks j Hlt) as [values Hvalues].
    destruct (Hblocks j values Hvalues) as (name' & block & _ & Hb & Hname & _).
    apply (block_name_names_of names (length datablocks)) in Hname; [|done..].
    simpl in Hname. rewrite Hj in Hname. injection Hname as <-.
    apply list_elem_of_fmap. exists (name, block). split; [done|].
    by eapply list_elem_of_lookup_2.
Qed.

(** ** The theorems on [pycifrw_from_cif] *)

(** X19. [pycifrw_from_cif] raises [ImportError], with the text of the
    failure followed by the advice to install the package, exactly when
    PyCifRW cannot be imported, and nothing but [ValueError] otherwise: the
    check of the number of names keeps [names[i]] from failing, and the
    lookups of the remaining tags find their values. When it returns, the
    names under which the file holds a block are the first names of [names],
    one for every datablock, if names are given, and the decimal indices of
    the datablocks otherwise. *)
Theorem pycifrw_from_cif_names_the_blocks (CifFile_import : Import)
    (loops : option Loops) (names : option (list string))
    (datablocks : list nat) (store : Store) :
  match (pycifrw_from_cif CifFile_import loops names datablocks store).2 with
  | ImportError msg =>
      ∃ exc, CifFile_import = NotImported exc ∧
             msg = exc +:+ ". You need to install the PyCifRW package."
  | Ran (Raise e) => CifFile_import = Imported ∧ ∃ msg, e = ValueError msg
  | Ran (Return cif) =>
      CifFile_import = Imported ∧
      ∀ name, is_Some (cif !! name) ↔ name ∈ names_of names (length datablocks)
  end.
Proof.
  unfold pycifrw_from_cif. destruct CifFile_import as [|exc]; [|by eexists].
  destruct (names_given names && _) eqn:Hfew; [split; [done|by eexists]|].
  assert (names_given names = true →
          (0 + length datablocks ≤ length (default [] names))%nat) as Hnames.
  { intros Hg. rewrite Hg in Hfew. simpl in Hfew. apply Nat.ltb_ge in Hfew. lia. }
  destruct (for_datablock _ _ _ _ _ _) as [store' [cif|e]] eqn:H; simpl.
  - split; [done|]. intros name.
    destruct (for_datablock_Return _ _ _ _ _ _ _ _ H) as (_ & blocks & -> & Hlen & Hblocks).
    rewrite assigned_is_Some, lookup_empty.
    rewrite (elem_of_assigned_names _ names datablocks store blocks name Hnames Hlen Hblocks).
    split; [intros [[? ?]|?]; done|by right].
  - split; [done|]. by eapply for_datablock_raises.
Qed.

(** X20. [pycifrw_from_cif] changes the dictionaries that it is given: when
    it returns, every dictionary in the list has lost the tags that the loops
    list and has kept every other tag with its value, and no other dictionary
    has changed. *)
Theorem pycifrw_from_cif_pops_the_loop_tags (CifFile_import : Import)
    (loops : option Loops) (names : option (list string))
    (datablocks : list nat) (store store' : Store) (cif : CifFile) :
  pycifrw_from_cif CifFile_import loops names datablocks store = (store', Ran (Return cif)) →
  ∀ values,
    store' values =
      if decide (values ∈ datablocks)
      then without_loop_tags (default [] loops) (store values)
      else store values.
Proof.
  intros H values. apply pycifrw_from_cif_Return in H as (_ & _ & H).
  by destruct (for_datablock_Return _ _ _ _ _ _ _ _ H) as [-> _].
Qed.

Lemma pycifrw_from_cif_pops_the_loop_tags_of_one_atom :
  pycifrw_from_cif Imported (Some atom_site_loops) None [0%nat] (store_of [one_atom]) =
    ((pycifrw_from_cif Imported (Some atom_site_loops) None [0%nat] (store_of [one_atom])).1,
     Ran (Return one_atom_file)) ∧
  (pycifrw_from_cif Imported (Some atom_site_loops) None [0%nat] (store_of [one_atom])).1
    0%nat = one_atom_rest ∧
  ∀ values,
    (pycifrw_from_cif Imported (Some atom_site_loops) None [0%nat] (store_of [one_atom])).1
      values =
      if decide (values ∈ [0%nat])
      then without_loop_tags (default [] (Some atom_site_loops)) (store_of [one_atom] values)
      else store_of [one_atom] values.
Proof.
  split; [vm_compute; reflexivity|]. split; [vm_compute; reflexivity|].
  apply (pycifrw_from_cif_pops_the_loop_tags Imported (Some atom_site_loops) None
           [0%nat] (store_of [one_atom])
           (pycifrw_from_cif Imported (Some atom_site_loops) None [0%nat] (store_of [one_atom])).1
           one_atom_file).
  vm_compute. reflexivity.
Defined.

(** X21. The items of the block that the file holds for a datablock, when
    its name is not given to a later datablock as well, are the tags of the
    dictionary as the passes before have left it, each added with its value,
    except for the tags that a loop lists: their value is added as a list, a
    value that is no list being wrapped in one, and a tag whose list is empty
    is not added at all. A dictionary that occurs in the list for the second
    time has lost the tags of the loops by then. *)
Theorem pycifrw_from_cif_adds_the_items (CifFile_import : Import)
    (loops : option Loops) (names : option (list string))
    (datablocks : list nat) (store store' : Store) (cif : CifFile)
    (i : nat) (values : nat) (name : string) :
  pycifrw_from_cif CifFile_import loops names datablocks store = (store', Ran (Return cif)) →
  datablocks !! i = Some values →
  names_of names (length datablocks) !! i = Some name →
  (∀ j, (i < j)%nat → names_of names (length datablocks) !! j ≠ Some name) →
  ∃ block,
    cif !! name = Some block ∧
    ∀ tag v,
      AddItem tag v ∈ block ↔
      written (default [] loops)
        (popped_by (default [] loops) (take i datablocks) store values) tag v.
Proof.
  intros H Hi Hname Hlater. apply pycifrw_from_cif_Return in H as (_ & Hnames & H).
  destruct (for_datablock_Return _ _ _ _ _ _ _ _ H) as (_ & blocks & -> & Hlen & Hblocks).
  destruct (Hblocks i values Hi) as (name' & block & values' & Hb & Hname' & Hfill).
  assert (i < length datablocks)%nat as Hlt by by eapply lookup_lt_Some.
  apply (block_name_names_of names (length datablocks)) in Hname'; [|done..].
  simpl in Hname'. rewrite Hname in Hname'. injection Hname' as <-.
  exists block. split.
  - apply (assigned_last _ _ i); [done|]. intros k [name' block'] Hk Hbk. simpl. intros ->.
    assert (k < length datablocks)%nat as Hklt by (rewrite <- Hlen; by eapply lookup_lt_Some).
    destruct (lookup_lt_is_Some_2 datablocks k Hklt) as [values_k Hvk].
    destruct (Hblocks k values_k Hvk) as (name_k & block_k & _ & Hbk' & Hname_k & _).
    rewrite Hbk in Hbk'. injection Hbk' as <- <-.
    apply (block_name_names_of names (length datablocks)) in Hname_k; [|done..]. by apply (Hlater k).
  - by apply fill_datablock_Return in Hfill as (_ & ? & _).
Qed.

Lemma pycifrw_from_cif_adds_the_items_of_one_atom :
  pycifrw_from_cif Imported (Some atom_site_loops) None [0%nat] (store_of [one_atom]) =
    ((pycifrw_from_cif Imported (Some atom_site_loops) None [0%nat] (store_of [one_atom])).1,
     Ran (Return one_atom_file)) ∧
  ∃ block,
    one_atom_file !! "0" = Some block ∧
    ∀ tag v,
      AddItem tag v ∈ block ↔
      written (default [] (Some atom_site_loops))
        (popped_by (default [] (Some atom_site_loops)) (take 0 [0%nat])
           (store_of [one_atom]) 0%nat) tag v.
Proof.
  split; [vm_compute; reflexivity|].
  apply (pycifrw_from_cif_adds_the_items Imported (Some atom_site_loops) None
           [0%nat] (store_of [one_atom])
           (pycifrw_from_cif Imported (Some atom_site_loops) None [0%nat] (store_of [one_atom])).1
           one_atom_file 0 0%nat "0").
  - vm_compute. reflexivity.
  - reflexivity.
  - reflexivity.
  - intros [|j] Hj; [lia|]. done.
Defined.

(** The same dictionary passed twice: the second block has no item of the
    loop, since the first pass has popped its tags. *)
Example pycifrw_from_cif_same_dictionary_twice :
  (pycifrw_from_cif Imported (Some atom_site_loops) None [0%nat; 0%nat]
     (store_of [one_atom])).2 =
    Ran (Return {[ "0" := one_atom_block;
                   "1" := [AddItem "_cell_length_a" (Scalar "4.1")] ]}).
Proof. vm_compute. reflexivity. Qed.

(** X22. In a file that is returned, no block is asked for an empty loop,
    and every tag of a loop that is created has been added to the block. *)
Theorem pycifrw_from_cif_loops_added_tags (CifFile_import : Import)
    (loops : option Loops) (names : option (list string))
    (datablocks : list nat) (store store' : Store) (cif : CifFile)
    (name : string) (block : CifBlock) (datanames : list string) :
  pycifrw_from_cif CifFile_import loops names datablocks store = (store', Ran (Return cif)) →
  cif !! name = Some block →
  CreateLoop datanames ∈ block →
  datanames ≠ [] ∧ ∀ tag, tag ∈ datanames → ∃ v, AddItem tag v ∈ block.
Proof.
  intros H Hin Hloop. apply pycifrw_from_cif_Return in H as (_ & _ & H).
  destruct (for_datablock_Return _ _ _ _ _ _ _ _ H) as (_ & blocks & -> & Hlen & Hblocks).
  apply assigned_lookup in Hin as [Hin|Hin]; [by rewrite lookup_empty in Hin|].
  apply list_elem_of_lookup in Hin as [j Hj].
  assert (j < length datablocks)%nat as Hlt by (rewrite <- Hlen; by eapply lookup_lt_Some).
  destruct (lookup_lt_is_Some_2 datablocks j Hlt) as [values Hvalues].
  destruct (Hblocks j values Hvalues) as (name' & block' & values' & Hb & _ & Hfill).
  rewrite Hj in Hb. injection Hb as <- <-.
  apply fill_datablock_Return in Hfill as (_ & _ & Hloops & _). by apply Hloops.
Qed.

Lemma pycifrw_from_cif_loops_added_tags_of_one_atom :
  pycifrw_from_cif Imported (Some atom_site_loops) None [0%nat] (store_of [one_atom]) =
    ((pycifrw_from_cif Imported (Some atom_site_loops) None [0%nat] (store_of [one_atom])).1,
     Ran (Return one_atom_file)) ∧
  ["_atom_site_label"; "_atom_site_fract_x"] ≠ [] ∧
  ∀ tag, tag ∈ ["_atom_site_label"; "_atom_site_fract_x"] →
    ∃ v, AddItem tag v ∈ one_atom_block.
Proof.
  split; [vm_compute; reflexivity|].
  apply (pycifrw_from_cif_loops_added_tags Imported (Some atom_site_loops) None
           [0%nat] (store_of [one_atom])
           (pycifrw_from_cif Imported (Some atom_site_loops) None [0%nat] (store_of [one_atom])).1
           one_atom_file "0" one_atom_block).
  - vm_compute. reflexivity.
  - reflexivity.
  - unfold one_atom_block. apply list_elem_of_further, list_elem_of_further, list_elem_of_here.
Defined.

(** X23. When no tag is listed twice by the loops and the names, if given, are
    as many as the datablocks at least, [pycifrw_from_cif] returns a file
    exactly when PyCifRW can be imported and, in every dictionary of the
    list, the tags of each loop that the dictionary has, have equally many
    values, a value that is no list counting as one value. *)
Theorem pycifrw_from_cif_returns_iff_consistent (CifFile_import : Import)
    (loops : option Loops) (names : option (list string))
    (datablocks : list nat) (store : Store) :
  NoDup (loop_tags (default [] loops)) →
  (names_given names = true → (length datablocks ≤ length (default [] names))%nat) →
  (∃ cif, (pycifrw_from_cif CifFile_import loops names datablocks store).2 = Ran (Return cif)) ↔
  CifFile_import = Imported ∧
  ∀ values, values ∈ datablocks → consistent (default [] loops) (store values).
Proof.
  intros Hnd Hnames. split.
  - intros [cif Hcif].
    destruct (pycifrw_from_cif _ _ _ _ _) as [store' outcome] eqn:H. simpl in Hcif. subst.
    apply pycifrw_from_cif_Return in H as (-> & _ & H). split; [done|].
    destruct (for_datablock_Return _ _ _ _ _ _ _ _ H) as (_ & blocks & _ & _ & Hblocks).
    intros values Hin.
    apply list_elem_of_split_l in Hin as (earlier & later & -> & Hfirst).
    destruct (Hblocks (length earlier) values) as (_ & block & values' & _ & _ & Hfill).
    { by rewrite lookup_app_r, Nat.sub_diag by lia. }
    rewrite take_app_length in Hfill.
    unfold popped_by in Hfill. rewrite decide_False in Hfill by done.
    apply fill_datablock_Return in Hfill as (_ & _ & _ & Hsplit).
    by apply consistent_from_split.
  - intros [-> Hc].
    destruct (for_datablock_returns (default [] loops) names datablocks 0 ∅ store)
      as (store' & cif & H); [done|done|].
    exists cif. unfold pycifrw_from_cif.
    destruct (names_given names) eqn:Hg; simpl.
    + rewrite (proj2 (Nat.ltb_ge _ _)) by (specialize (Hnames eq_refl); lia). by rewrite H.
    + by rewrite H.
Qed.

Lemma pycifrw_from_cif_returns_iff_consistent_one_atom :
  NoDup (loop_tags (default [] (Some atom_site_loops))) ∧
  ((∃ cif, (pycifrw_from_cif Imported (Some atom_site_loops) None [0%nat]
              (store_of [one_atom])).2 = Ran (Return cif)) ↔
   Imported = Imported ∧
   ∀ values, values ∈ [0%nat] →
     consistent (default [] (Some atom_site_loops)) (store_of [one_atom] values)).
Proof.
  assert (NoDup (loop_tags (default [] (Some atom_site_loops)))) as Hnd.
  { apply (bool_decide_unpack _). vm_compute. exact I. }
  split; [exact Hnd|].
  apply (pycifrw_from_cif_returns_iff_consistent Imported (Some atom_site_loops) None
           [0%nat] (store_of [one_atom]) Hnd).
  intros Hgiven. discriminate Hgiven.
Defined.

End CifWriterFacts.

(* ===================================================================== *)
(** * Properties of [cif_from_ase] and of its use by [set_ase]            *)
(* ===================================================================== *)

Module CifFromAseFacts.
Import Py PyFacts CifValues CifValuesFacts CifWriter CifWriterAux CifWriterFacts.
Import CifFromAse CifFromAseAux.

Lemma for_atom_cons {np} full_occupancies add_fake_biso
    (scaled : list (Float np * Float np * Float np)) i symbol atoms no datablock datablock' :
  for_atom full_occupancies add_fake_biso scaled i (symbol :: atoms) no datablock
    = Return datablock' →
  ∃ position,
    scaled !! i = Some position ∧
    for_atom full_occupancies add_fake_biso scaled (S i) atoms
      (<[symbol := counted no symbol]> no)
      (site_row full_occupancies add_fake_biso symbol (counted no symbol) position datablock)
      = Return datablock'.
Proof.
  simpl. destruct (scaled !! i) as [[[x y] z]|]; [|done]. intros H. by exists (x, y, z).
Qed.

Lemma lookup_append tag x (datablock : Block) t :
  append tag x datablock !! t =
    if decide (t = tag)
    then match datablock !! t with
         | Some (Column l) => Some (Column (l ++ [x]))
         | o => o
         end
    else datablock !! t.
Proof.
  unfold append. destruct (decide (t = tag)) as [->|Hne].
  - rewrite lookup_alter_eq. by destruct (datablock !! tag) as [[s|l]|].
  - by rewrite lookup_alter_ne.
Qed.

(** Reads a tag through the appends of one row. *)
Ltac lookup_row :=
  repeat (rewrite lookup_append;
          first [rewrite decide_False by done | rewrite decide_True by done]).

Lemma site_row_other {np} full_occupancies add_fake_biso symbol count
    (position : Float np * Float np * Float np) datablock t :
  t ∉ site_tags full_occupancies add_fake_biso →
  site_row full_occupancies add_fake_biso symbol count position datablock !! t = datablock !! t.
Proof.
  intros Ht. unfold site_row.
  destruct full_occupancies, add_fake_biso; simpl in Ht; cbv zeta;
    repeat (rewrite lookup_append, decide_False by set_solver); done.
Qed.

Lemma site_row_site {np} full_occupancies add_fake_biso symbol count
    (position : Float np * Float np * Float np) datablock t l :
  t ∈ site_tags full_occupancies add_fake_biso →
  datablock !! t = Some (Column l) →
  ∃ x, site_row full_occupancies add_fake_biso symbol count position datablock !! t
         = Some (Column (l ++ [x])).
Proof.
  intros Ht Hl. unfold site_row.
  destruct full_occupancies, add_fake_biso; simpl in Ht; cbv zeta;
    repeat (apply elem_of_cons in Ht as [->|Ht]; [lookup_row; rewrite Hl; by eexists|]);
    by apply elem_of_nil in Ht.
Qed.

Lemma site_row_label {np} full_occupancies add_fake_biso symbol count
    (position : Float np * Float np * Float np) datablock l :
  datablock !! "_atom_site_label" = Some (Column l) →
  site_row full_occupancies add_fake_biso symbol count position datablock !! "_atom_site_label"
    = Some (Column (l ++ [symbol +:+ str count])).
Proof.
  intros Hl. unfold site_row.
  destruct full_occupancies, add_fake_biso; cbv zeta; lookup_row; by rewrite Hl.
Qed.

Lemma site_row_type_symbol {np} full_occupancies add_fake_biso symbol count
    (position : Float np * Float np * Float np) datablock l :
  datablock !! "_atom_site_type_symbol" = Some (Column l) →
  site_row full_occupancies add_fake_biso symbol count position datablock
    !! "_atom_site_type_symbol" = Some (Column (l ++ [symbol])).
Proof.
  intros Hl. unfold site_row.
  destruct full_occupancies, add_fake_biso; cbv zeta; lookup_row; by rewrite Hl.
Qed.

(** The loop over the atoms appends one entry for every atom to the list of
    every site tag, the symbols to the list of the type symbols, and leaves
    the other tags as they are. *)
Lemma for_atom_Return {np} full_occupancies add_fake_biso
    (scaled : list (Float np * Float np * Float np)) atoms :
  ∀ i no datablock datablock',
    for_atom full_occupancies add_fake_biso scaled i atoms no datablock = Return datablock' →
    (∀ t, t ∉ site_tags full_occupancies add_fake_biso → datablock' !! t = datablock !! t) ∧
    (∀ t l, t ∈ site_tags full_occupancies add_fake_biso →
       datablock !! t = Some (Column l) →
       ∃ l', datablock' !! t = Some (Column (l ++ l')) ∧ length l' = length atoms) ∧
    (∀ l, datablock !! "_atom_site_type_symbol" = Some (Column l) →
       datablock' !! "_atom_site_type_symbol" = Some (Column (l ++ atoms))).
Proof.
  induction atoms as [|symbol atoms IH]; intros i no datablock datablock' H.
  - injection H as <-. split; [done|]. split.
    + intros t l _ Hl. exists []. by rewrite app_nil_r.
    + intros l Hl. by rewrite app_nil_r.
  - apply for_atom_cons in H as (position & _ & H).
    destruct (IH _ _ _ _ H) as (IH1 & IH2 & IH3). split; [|split].
    + intros t Ht. rewrite IH1 by done. by apply site_row_other.
    + intros t l Ht Hl.
      destruct (site_row_site full_occupancies add_fake_biso symbol (counted no symbol)
                  position datablock t l Ht Hl) as [x Hx].
      destruct (IH2 t _ Ht Hx) as (l' & Hl' & Hlen).
      exists (x :: l'). rewrite Hl', <- app_assoc. split; [done|]. simpl. by rewrite Hlen.
    + intros l Hl. rewrite (IH3 (l ++ [symbol])%list).
      * by rewrite <- app_assoc.
      * by apply site_row_type_symbol.
Qed.

(** A symbol without digits and the number after it can be read off a
    label. *)
Lemma label_inj_chars (s s' d d' : string) :
  digit_free s → digit_free s' →
  (∀ c, c ∈ list_ascii_of_string d → is_digit c = true) →
  (∀ c, c ∈ list_ascii_of_string d' → is_digit c = true) →
  s +:+ d = s' +:+ d' → s = s' ∧ d = d'.
Proof.
  revert s'. induction s as [|c s IH]; intros [|c' s'] Hs Hs' Hd Hd' Heq.
  - done.
  - change (d = String c' (s' +:+ d')) in Heq. subst d.
    specialize (Hs' c' ltac:(simpl; set_solver)).
    specialize (Hd c' ltac:(simpl; set_solver)). congruence.
  - change (String c (s +:+ d) = d') in Heq. subst d'.
    specialize (Hs c ltac:(simpl; set_solver)).
    specialize (Hd' c ltac:(simpl; set_solver)). congruence.
  - change (String c (s +:+ d) = String c' (s' +:+ d')) in Heq. injection Heq as -> Heq.
    destruct (IH s') as [-> ->]; try done.
    + intros c Hc. apply Hs. simpl. set_solver.
    + intros c Hc. apply Hs'. simpl. set_solver.
Qed.

Lemma str_inj n n' : str n = str n' → n = n'.
Proof.
  unfold str. intros H. apply DecimalNat.Unsigned.to_uint_inj.
  apply (f_equal NilEmpty.uint_of_string) in H. rewrite !NilEmpty.usu in H. congruence.
Qed.

Lemma label_inj symbol symbol' count count' :
  digit_free symbol → digit_free symbol' →
  symbol +:+ str count = symbol' +:+ str count' → symbol = symbol' ∧ count = count'.
Proof.
  intros Hs Hs' Heq.
  destruct (label_inj_chars symbol symbol' (str count) (str count')) as [-> Hc]; try done.
  - intros c. apply string_of_uint_digits.
  - intros c. apply string_of_uint_digits.
  - split; [done|]. by apply str_inj.
Qed.

(** The labels stay different from one another. *)
Lemma for_atom_labels {np} full_occupancies add_fake_biso
    (scaled : list (Float np * Float np * Float np)) atoms :
  ∀ i no datablock datablock' labels,
    for_atom full_occupancies add_fake_biso scaled i atoms no datablock = Return datablock' →
    (∀ symbol, symbol ∈ atoms → digit_free symbol) →
    datablock !! "_atom_site_label" = Some (Column labels) →
    labelled no labels → NoDup labels →
    ∃ labels', datablock' !! "_atom_site_label" = Some (Column labels') ∧ NoDup labels'.
Proof.
  induction atoms as [|symbol atoms IH];
    intros i no datablock datablock' labels H Hfree Hl Hlab Hnd.
  - injection H as <-. by exists labels.
  - apply for_atom_cons in H as (position & _ & H).
    assert (digit_free symbol) as Hsym by (apply Hfree; set_solver).
    assert (counted no symbol = default 0 (no !! symbol) + 1) as Hcount.
    { unfold counted. by destruct (no !! symbol). }
    apply (IH _ _ _ _ (labels ++ [symbol +:+ str (counted no symbol)])%list H).
    + intros symbol' ?. apply Hfree. set_solver.
    + by apply site_row_label.
    + intros label [Hin|Hin]%elem_of_app.
      * destruct (Hlab label Hin) as (symbol' & count & -> & Hfree' & Hle).
        exists symbol', count. split; [done|]. split; [done|].
        destruct (decide (symbol' = symbol)) as [->|Hne].
        -- rewrite lookup_insert_eq. simpl. lia.
        -- by rewrite lookup_insert_ne.
      * apply list_elem_of_singleton in Hin as ->.
        exists symbol, (counted no symbol). split; [done|]. split; [done|].
        by rewrite lookup_insert_eq.
    + apply NoDup_app. split; [done|]. split; [|apply NoDup_singleton].
      intros label Hin Hnew. apply list_elem_of_singleton in Hnew as ->.
      destruct (Hlab _ Hin) as (symbol' & count & Heq & Hfree' & Hle).
      apply label_inj in Heq as [<- <-]; [|done..]. lia.
Qed.

(** The datablock before the loop over the atoms holds an empty list for
    every site tag, and none of the other tags of the loops. *)
Lemma new_datablock_site {np} full_occupancies add_fake_biso (atoms : Atoms np) t :
  t ∈ site_tags full_occupancies add_fake_biso →
  new_datablock full_occupancies add_fake_biso atoms !! t = Some (Column []).
Proof.
  intros Ht. unfold new_datablock. destruct (cell atoms) as [[cell0 cell1] cell2].
  destruct full_occupancies, add_fake_biso, (pbc_all atoms); simpl in Ht; cbv zeta;
    repeat (apply elem_of_cons in Ht as [->|Ht]; [lookup_inserted|]);
    by apply elem_of_nil in Ht.
Qed.

Lemma new_datablock_other {np} full_occupancies add_fake_biso (atoms : Atoms np) t :
  t ∈ loop_tags ase_loops →
  t ∉ site_tags full_occupancies add_fake_biso →
  new_datablock full_occupancies add_fake_biso atoms !! t = None.
Proof.
  intros Ht Hout. unfold new_datablock. destruct (cell atoms) as [[cell0 cell1] cell2].
  cbv in Ht.
  destruct full_occupancies, add_fake_biso, (pbc_all atoms); simpl in Hout; cbv zeta;
    repeat (apply elem_of_cons in Ht as [->|Ht];
            [first [by destruct Hout; set_solver
                   | repeat (rewrite lookup_insert_ne by done); apply lookup_empty]|]);
    by apply elem_of_nil in Ht.
Qed.

Lemma for_atom_returns {np} full_occupancies add_fake_biso
    (scaled : list (Float np * Float np * Float np)) atoms :
  ∀ i no datablock,
    (i + length atoms ≤ length scaled)%nat →
    ∃ datablock',
      for_atom full_occupancies add_fake_biso scaled i atoms no datablock = Return datablock'.
Proof.
  induction atoms as [|symbol atoms IH]; intros i no datablock Hlen; [by eexists|].
  simpl in *. destruct (lookup_lt_is_Some_2 scaled i) as [[[x y] z] ->]; [lia|].
  apply IH. lia.
Qed.

Lemma occurrences_app symbol l1 l2 :
  occurrences symbol (l1 ++ l2) = (occurrences symbol l1 + occurrences symbol l2)%nat.
Proof. unfold occurrences. by rewrite filter_app, length_app. Qed.

Lemma occurrences_singleton symbol s :
  occurrences symbol [s] = if decide (s = symbol) then 1%nat else 0%nat.
Proof.
  unfold occurrences. destruct (decide (s = symbol)) as [->|Hne].
  - by rewrite filter_cons_True.
  - by rewrite filter_cons_False.
Qed.

(** Every label is the symbol of its atom, followed by the number of atoms
    with this symbol up to it. *)
Lemma for_atom_label_content {np} full_occupancies add_fake_biso
    (scaled : list (Float np * Float np * Float np)) atoms :
  ∀ i no datablock datablock' processed l,
    for_atom full_occupancies add_fake_biso scaled i atoms no datablock = Return datablock' →
    (∀ s, default 0%nat (no !! s) = occurrences s processed) →
    datablock !! "_atom_site_label" = Some (Column l) →
    ∃ l', datablock' !! "_atom_site_label" = Some (Column (l ++ l')) ∧
          ∀ k s, atoms !! k = Some s →
            l' !! k = Some (s +:+ str (occurrences s (processed ++ take (S k) atoms))).
Proof.
  induction atoms as [|symbol atoms IH]; intros i no datablock datablock' processed l H Hno Hl.
  - injection H as <-. exists []. rewrite app_nil_r. split; [done|]. by intros k s ?.
  - apply for_atom_cons in H as (position & _ & H).
    assert (counted no symbol = occurrences symbol (processed ++ [symbol])) as Hcount.
    { rewrite occurrences_app, occurrences_singleton, decide_True by done.
      rewrite <- Hno. unfold counted. by destruct (no !! symbol). }
    destruct (IH _ _ _ _ (processed ++ [symbol])%list
                (l ++ [symbol +:+ str (counted no symbol)])%list H) as (l' & Hl' & Hcontent).
    + intros s. rewrite occurrences_app, occurrences_singleton.
      destruct (decide (symbol = s)) as [<-|Hne].
      * rewrite lookup_insert_eq. simpl.
        by rewrite Hcount, occurrences_app, occurrences_singleton, decide_True.
      * rewrite lookup_insert_ne by done. rewrite Hno. lia.
    + by apply site_row_label.
    + exists ((symbol +:+ str (counted no symbol)) :: l'). rewrite Hl', <- app_assoc.
      split; [done|]. intros [|k] s Hs; simpl in *.
      * injection Hs as <-. by rewrite Hcount.
      * rewrite (Hcontent k s Hs). by rewrite <- app_assoc.
Qed.

(** The datablock of one structure. *)
Lemma datablock_of_atoms {np} full_occupancies add_fake_biso (atoms : Atoms np) block :
  for_atom full_occupancies add_fake_biso (get_scaled_positions atoms) 0 (symbols atoms) ∅
    (new_datablock full_occupancies add_fake_biso atoms) = Return block →
  (∀ t v, t ∈ loop_tags ase_loops → block !! t = Some v →
     length (as_list v) = length (symbols atoms)) ∧
  block !! "_atom_site_type_symbol" = Some (Column (symbols atoms)) ∧
  ∃ labels,
    block !! "_atom_site_label" = Some (Column labels) ∧
    length labels = length (symbols atoms) ∧
    (∀ i symbol, symbols atoms !! i = Some symbol →
       labels !! i =
         Some (symbol +:+ str (occurrences symbol (take (S i) (symbols atoms))))) ∧
    ((∀ symbol, symbol ∈ symbols atoms → digit_free symbol) → NoDup labels).
Proof.
  intros H. destruct (for_atom_Return _ _ _ _ _ _ _ _ H) as (Hother & Hsite & Htype).
  assert ("_atom_site_label" ∈ site_tags full_occupancies add_fake_biso) as Hlabel.
  { unfold site_tags. set_solver. }
  assert ("_atom_site_type_symbol" ∈ site_tags full_occupancies add_fake_biso) as Hsymbol.
  { unfold site_tags. set_solver. }
  split; [|split].
  - intros t v Ht Hv.
    destruct (decide (t ∈ site_tags full_occupancies add_fake_biso)) as [Hin|Hout].
    + destruct (Hsite t [] Hin (new_datablock_site _ _ _ _ Hin)) as (l' & Hl' & Hlen).
      rewrite Hl' in Hv. by injection Hv as <-.
    + rewrite (Hother t Hout), new_datablock_other in Hv by done. done.
  - apply (Htype []). by apply new_datablock_site.
  - destruct (Hsite _ [] Hlabel (new_datablock_site _ _ _ _ Hlabel)) as (labels & Hl & Hlen).
    exists labels. split; [done|]. split; [done|]. split.
    + destruct (for_atom_label_content _ _ _ _ _ _ _ _ [] [] H) as (labels' & Hl' & Hcontent).
      * intros s. by rewrite lookup_empty.
      * by apply new_datablock_site.
      * rewrite Hl in Hl'. by injection Hl' as <-.
    + intros Hfree.
      destruct (for_atom_labels _ _ _ _ _ _ _ _ [] H Hfree) as (labels' & Hl' & Hnd).
      * by apply new_datablock_site.
      * by intros label ?%elem_of_nil.
      * apply NoDup_nil_2.
      * rewrite Hl in Hl'. by injection Hl' as <-.
Qed.

Lemma for_atoms_Return {np} full_occupancies add_fake_biso (ase : list (Atoms np)) :
  ∀ datablocks,
    for_atoms full_occupancies add_fake_biso ase = Return datablocks →
    Forall2 (fun atoms block =>
               for_atom full_occupancies add_fake_biso (get_scaled_positions atoms) 0
                 (symbols atoms) ∅ (new_datablock full_occupancies add_fake_biso atoms)
                 = Return block) ase datablocks.
Proof.
  induction ase as [|atoms ase IH]; intros datablocks H; simpl in H.
  - injection H as <-. constructor.
  - destruct (for_atom _ _ _ _ _ _ _) as [block|e] eqn:Hblock; [|done].
    destruct (for_atoms _ _ ase) as [rest|e]; [|done]. injection H as <-.
    constructor; [done|]. by apply IH.
Qed.

Lemma for_atoms_returns {np} full_occupancies add_fake_biso (ase : list (Atoms np)) :
  (∀ atoms, atoms ∈ ase → (length (symbols atoms) ≤ length (get_scaled_positions atoms))%nat) →
  ∃ datablocks, for_atoms full_occupancies add_fake_biso ase = Return datablocks.
Proof.
  induction ase as [|atoms ase IH]; intros Hlen; [by eexists|]. simpl.
  destruct (for_atom_returns full_occupancies add_fake_biso (get_scaled_positions atoms)
              (symbols atoms) 0 ∅ (new_datablock full_occupancies add_fake_biso atoms))
    as [block ->].
  { simpl. apply Hlen. set_solver. }
  destruct IH as [rest ->]; [|by eexists]. intros atoms' ?. apply Hlen. set_solver.
Qed.

Lemma consistent_ase_loops (block : Block) n :
  (∀ t v, t ∈ loop_tags ase_loops → block !! t = Some v → length (as_list v) = n) →
  consistent ase_loops block.
Proof.
  intros H loopname tags t1 t2 v1 v2 Hin Ht1 Ht2 Hv1 Hv2.
  apply list_elem_of_singleton in Hin. injection Hin as -> ->.
  by rewrite (H t1 v1), (H t2 v2).
Qed.

(** ** The theorems on [cif_from_ase] *)

(** X24. What [set_ase] asks of [cif_from_ase] and [pycifrw_from_cif] goes
    through when PyCifRW can be imported: for structures that have a scaled
    position for every atom, [cif_from_ase] returns datablocks, each a new
    dictionary, on which [pycifrw_from_cif], called with the loops
    [ase_loops] and without names, returns a file, whatever the two flags of
    [cif_from_ase] are. The file holds a block under the decimal index of
    every structure and under no other name. *)
Theorem set_ase_writes_every_structure {np} (ase : Images np)
    (full_occupancies add_fake_biso : bool) :
  (∀ atoms, atoms ∈ images ase →
     (length (symbols atoms) ≤ length (get_scaled_positions atoms))%nat) →
  ∃ datablocks store' cif,
    cif_from_ase ase full_occupancies add_fake_biso = Return datablocks ∧
    pycifrw_from_cif Imported (Some ase_loops) None (seq 0 (length datablocks))
      (store_of datablocks) = (store', Ran (Return cif)) ∧
    ∀ name, is_Some (cif !! name) ↔ name ∈ str <$> seq 0 (length (images ase)).
Proof.
  intros Hlen. unfold cif_from_ase.
  destruct (for_atoms_returns full_occupancies add_fake_biso (images ase) Hlen)
    as [datablocks Hblocks].
  exists datablocks. rewrite Hblocks.
  pose proof (for_atoms_Return _ _ _ _ Hblocks) as Hall.
  destruct (for_datablock_returns ase_loops None (seq 0 (length datablocks)) 0 ∅
              (store_of datablocks)) as (store' & cif & Hcif).
  - done.
  - intros values Hin. apply elem_of_seq in Hin as [_ Hlt]. simpl in Hlt.
    destruct (lookup_lt_is_Some_2 datablocks values Hlt) as [block Hblock].
    unfold store_of. rewrite Hblock. simpl.
    destruct (Forall2_lookup_r _ _ _ _ _ Hall Hblock) as (atoms & _ & Hfor).
    apply datablock_of_atoms in Hfor as [Hcolumns _].
    by eapply consistent_ase_loops.
  - exists store', cif. split; [done|]. split.
    + unfold pycifrw_from_cif. simpl. by rewrite Hcif.
    + intros name.
      destruct (for_datablock_Return _ _ _ _ _ _ _ _ Hcif) as (_ & blocks & -> & Hl & Hb).
      rewrite assigned_is_Some, lookup_empty.
      rewrite (elem_of_assigned_names _ None _ _ blocks name ltac:(done) Hl Hb).
      unfold names_of. simpl.
      rewrite length_seq, (Forall2_length _ _ _ Hall).
      split; [intros [[? ?]|?]; done|by right].
Qed.

Lemma set_ase_writes_ethynyl :
  ∃ datablocks store' cif,
    cif_from_ase (One ethynyl) false false = Return datablocks ∧
    pycifrw_from_cif Imported (Some ase_loops) None (seq 0 (length datablocks))
      (store_of datablocks) = (store', Ran (Return cif)) ∧
    ∀ name, is_Some (cif !! name) ↔ name ∈ str <$> seq 0 (length (images (One ethynyl))).
Proof.
  apply (set_ase_writes_every_structure (One ethynyl) false false).
  intros atoms Hin. apply list_elem_of_singleton in Hin as ->. simpl. lia.
Defined.

(** X25. The datablock that [cif_from_ase] builds for a structure lists the
    symbols of its atoms, in their order, under [_atom_site_type_symbol], and
    one label for every atom under [_atom_site_label]: the symbol of the atom
    followed by the number of atoms with this symbol up to it. When no symbol
    holds a digit, no two atoms of the structure get the same label. *)
Theorem cif_from_ase_labels_the_atoms {np} (ase : Images np)
    (full_occupancies add_fake_biso : bool) (datablocks : list Block)
    (j : nat) (atoms : Atoms np) :
  cif_from_ase ase full_occupancies add_fake_biso = Return datablocks →
  images ase !! j = Some atoms →
  ∃ block labels,
    datablocks !! j = Some block ∧
    block !! "_atom_site_type_symbol" = Some (Column (symbols atoms)) ∧
    block !! "_atom_site_label" = Some (Column labels) ∧
    length labels = length (symbols atoms) ∧
    (∀ i symbol, symbols atoms !! i = Some symbol →
       labels !! i =
         Some (symbol +:+ str (occurrences symbol (take (S i) (symbols atoms))))) ∧
    ((∀ symbol, symbol ∈ symbols atoms → digit_free symbol) → NoDup labels).
Proof.
  intros H Hj. apply for_atoms_Return in H.
  destruct (Forall2_lookup_l _ _ _ _ _ H Hj) as (block & Hblock & Hfor).
  apply datablock_of_atoms in Hfor as (_ & Htype & labels & Hlabels & Hlen & Hcontent & Hnd).
  by exists block, labels.
Qed.

Lemma cif_from_ase_labels_ethynyl :
  cif_from_ase (One ethynyl) false false = Return [ethynyl_block] ∧
  ∃ block labels,
    [ethynyl_block] !! 0%nat = Some block ∧
    block !! "_atom_site_type_symbol" = Some (Column (symbols ethynyl)) ∧
    block !! "_atom_site_label" = Some (Column labels) ∧
    length labels = length (symbols ethynyl) ∧
    (∀ i symbol, symbols ethynyl !! i = Some symbol →
       labels !! i =
         Some (symbol +:+ str (occurrences symbol (take (S i) (symbols ethynyl))))) ∧
    ((∀ symbol, symbol ∈ symbols ethynyl → digit_free symbol) → NoDup labels).
Proof.
  split; [vm_compute; reflexivity|].
  apply (cif_from_ase_labels_the_atoms (One ethynyl) false false [ethynyl_block] 0 ethynyl).
  - vm_compute. reflexivity.
  - reflexivity.
Defined.

(** The symbols of the example hold no digit, and its labels are [C1], [C2]
    and [H1]. *)
Example ethynyl_labels :
  (∀ symbol, symbol ∈ symbols ethynyl → digit_free symbol) ∧
  ethynyl_block !! "_atom_site_label" = Some (Column ["C1"; "C2"; "H1"]).
Proof.
  split; [|vm_compute; reflexivity].
  intros symbol Hin c Hc.
  repeat (apply elem_of_cons in Hin as [->|Hin];
          [apply list_elem_of_singleton in Hc as ->; reflexivity|]).
  by apply elem_of_nil in Hin.
Qed.

End CifFromAseFacts.

(* ===================================================================== *)
(** * Properties of [Data.export] with plugins that write                 *)
(* ===================================================================== *)

Module DataFsFacts.
Import Py PyFacts DataFs DataFsAux DataMoreAux DataFacts DataMoreFacts.
Import Data(bytes, FileSystem, exists_, write_file, check_extra_files, write_extra_files).

(** X5. When the format is found, the exporter has returned its files and,
    unless [overwrite] is set, the target does not exist before the call and
    none of the files exists when the exporter has returned, [export] writes
    every additional file and then the main file, returns their paths in this
    order, and leaves every other file as the exporter has left it. The main
    file is written last, so that it wins over an additional file of the same
    name. *)
Theorem export_writes_every_file self path fileformat overwrite kwargs (fs fs1 : FileSystem)
    fmt func filetext extra_files :
  path ≠ "" →
  export_fileformat self path fileformat = Return fmt →
  _prepare_ self !! fmt = Some func →
  func path kwargs fs = (fs1, Return (filetext, extra_files)) →
  (overwrite = true ∨
   (fs !! path = None ∧ fs1 !! path = None ∧
    ∀ f, is_Some (extra_files !! f) → fs1 !! f = None)) →
  export self path fileformat overwrite kwargs fs =
    (<[path := filetext]> (extra_files ∪ fs1), Return (keys extra_files ++ [path])%list).
Proof.
  intros Hpath Hfmt Hfunc Hcontent Hfree. unfold export. rewrite (path_not_empty _ Hpath).
  assert (exists_ fs path && negb overwrite = false) as ->.
  { destruct Hfree as [->|[Hnone _]]; [by rewrite andb_false_r|].
    by rewrite (proj2 (exists_false _ _) Hnone). }
  unfold bind at 1. unfold lift. rewrite Hfmt.
  unfold bind at 1. unfold _exportcontent, _get_exporters. cbv zeta.
  unfold Exporter, M in *. rewrite Hfunc, Hcontent. cbn [fst snd].
  destruct overwrite; cbn [negb].
  - unfold bind, ret at 1. rewrite write_extra_files_dict. done.
  - destruct Hfree as [?|(_ & Hnone & Hextra)]; [done|].
    unfold bind. rewrite check_extra_files_absent.
    2: { intros f Hf. apply Hextra. by apply elem_of_keys. }
    rewrite (proj2 (exists_false _ _) Hnone). unfold ret at 1.
    rewrite write_extra_files_dict. done.
Qed.

Lemma export_writes_every_file_on_disk_with_notes :
  export bands "plot.gp" None false ∅ disk_with_notes =
    (<["plot.gp" := plot_text]> (plot_data ∪ disk_with_notes),
     Return (keys plot_data ++ ["plot.gp"])%list).
Proof.
  apply (export_writes_every_file bands "plot.gp" None false ∅ disk_with_notes
           disk_with_notes "gnu" _prepare_gnu).
  - done.
  - vm_compute. reflexivity.
  - vm_compute. reflexivity.
  - vm_compute. reflexivity.
  - right. split; [vm_compute; reflexivity|]. split; [vm_compute; reflexivity|].
    intros f [content Hf]. unfold plot_data in Hf.
    apply lookup_singleton_Some in Hf as [<- _]. vm_compute. reflexivity.
Defined.

(** X6. With [overwrite] left [False], a call of [export] whose exporter
    leaves the file system as it is, and that returns, has modified no file
    that existed before: none of the paths it returns existed, the target is
    among them, and the disk afterwards extends the disk before. *)
Theorem export_modifies_no_existing_file self path fileformat kwargs (fs fs' : FileSystem)
    retlist :
  (∀ fmt func,
     export_fileformat self path fileformat = Return fmt →
     _prepare_ self !! fmt = Some func →
     (func path kwargs fs).1 = fs) →
  export self path fileformat false kwargs fs = (fs', Return retlist) →
  path ∈ retlist ∧ (∀ f, f ∈ retlist → fs !! f = None) ∧ fs ⊆ fs'.
Proof.
  intros Hpure. unfold export. destruct (String.eqb path ""); [done|].
  destruct (exists_ fs path) eqn:Hex; [done|]. cbn [andb negb].
  unfold bind at 1. unfold lift.
  destruct (export_fileformat self path fileformat) as [fmt|e]; [|done].
  unfold bind at 1. unfold _exportcontent, _get_exporters. cbv zeta.
  match goal with
  | |- context [match ?exporter with Some _ => _ | None => _ end fs] =>
      destruct exporter as [func|] eqn:Hfunc
  end.
  - specialize (Hpure fmt func eq_refl Hfunc).
    destruct (func path kwargs fs) as [fs0 [[filetext extra_files]|e]];
      simpl in Hpure; subst fs0; [|by intros [=]].
    cbn [fst snd]. unfold bind.
    destruct (check_extra_files (keys extra_files) fs) as [fs1 [[]|e]] eqn:Hcheck; [|done].
    apply check_extra_files_Return in Hcheck as [-> Hextra].
    rewrite Hex. unfold ret at 1. rewrite write_extra_files_dict.
    unfold write_file, ret. intros [= <- <-].
    apply exists_false in Hex.
    split; [set_solver|]. split.
    + intros f [Hf|Hf]%elem_of_app; [by apply Hextra|].
      by apply list_elem_of_singleton in Hf as ->.
    + apply insert_subseteq_r.
      * done.
      * apply map_union_subseteq_r. apply map_disjoint_spec.
        intros f c1 c2 H1 H2. rewrite Hextra in H2; [done|].
        apply elem_of_keys. by eexists.
  - by destruct (0 <? _)%nat.
Qed.

Lemma export_modifies_no_existing_file_on_disk_with_notes :
  "plot.gp" ∈ (keys plot_data ++ ["plot.gp"])%list ∧
  (∀ f, f ∈ (keys plot_data ++ ["plot.gp"])%list → disk_with_notes !! f = None) ∧
  disk_with_notes ⊆ <["plot.gp" := plot_text]> (plot_data ∪ disk_with_notes).
Proof.
  apply (export_modifies_no_existing_file bands "plot.gp" None ∅).
  - intros fmt func Hfmt Hfunc.
    vm_compute in Hfmt. injection Hfmt as <-.
    vm_compute in Hfunc. injection Hfunc as <-. reflexivity.
  - vm_compute. reflexivity.
Defined.

(** An exporter that writes: the export of a node with parsed values
    returns, with [overwrite] left [False], and the file of the node, which
    existed before, has been replaced. *)
Example export_replaces_the_file_of_the_node :
  export parsed_node "out.cif" None false ∅ disk_with_node_file =
    (<["out.cif" := [Byte.x6e; Byte.x65; Byte.x77]]>
       (<["repository/node.cif" := [Byte.x6e; Byte.x65; Byte.x77]]> disk_with_node_file),
     Return ["out.cif"]) ∧
  disk_with_node_file !! "repository/node.cif" = Some [Byte.x6f; Byte.x6c; Byte.x64].
Proof. split; vm_compute; reflexivity. Qed.

End DataFsFacts.
